(** * Glamira batch processing: the checkpointed export and the drift
      normalization pass, embedded from [ETL/export_to_gcs.py] and
      [ETL/normalize_parquet_run.py]. *)

From Stdlib Require Import ZArith NArith List String Ascii Strings.Byte Bool Lia QArith.
From Stdlib Require Import Qminmax Lqa Floats.SpecFloat DecimalString Sorted Permutation.
From stdpp Require Import gmap strings.
Import ListNotations.

#[local] Set Warnings "-register-all".

Local Open Scope Z_scope.
Local Open Scope string_scope.

(** ** Python values as the export meets them

    A document read from MongoDB is a dict from field names to BSON-decoded
    values.  [str] is kept as its UTF-8 byte string, [bytes] as a list of
    bytes, an [ObjectId] as its binary form, a [datetime] by its UTC
    wall-clock fields (what [astimezone(timezone.utc)] yields), a float as
    an IEEE value without payload. *)
Module Py.

Record datetime := mk_datetime {
  dt_year : Z; dt_month : Z; dt_day : Z;
  dt_hour : Z; dt_minute : Z; dt_second : Z; dt_microsecond : Z }.

Inductive pyval :=
| VNone
| VBool (b : bool)
| VInt (z : Z)
| VFloat (f : spec_float)
| VStr (s : string)
| VBytes (bs : list byte)
| VObjectId (oid : list byte)
| VDatetime (d : datetime)
| VList (xs : list pyval)
| VDict (kvs : list (string * pyval)).

(** A dict with string keys, in insertion order. *)
Definition pydict := list (string * pyval).

Fixpoint dict_get (d : pydict) (k : string) : option pyval :=
  match d with
  | [] => None
  | (k', v) :: r => if String.eqb k' k then Some v else dict_get r k
  end.

(** [d.get(k)]: a missing key reads as [None]. *)
Definition get (d : pydict) (k : string) : pyval :=
  match dict_get d k with Some v => v | None => VNone end.

(** *** Text of integers *)

Definition str_Z (z : Z) : string := NilZero.string_of_int (Z.to_int z).

Fixpoint zeros (n : nat) : string :=
  match n with O => "" | S n' => String "0" (zeros n') end.

(** ["%0<w>d"] of a non-negative integer. *)
Definition pad0 (w : nat) (z : Z) : string :=
  let s := str_Z z in zeros (w - String.length s) ++ s.

(** *** Hexadecimal text of bytes: [bytes.hex()], [bytes.fromhex()] *)

Definition hex_digit (n : N) : ascii :=
  match n with
  | 0 => "0" | 1 => "1" | 2 => "2" | 3 => "3" | 4 => "4" | 5 => "5"
  | 6 => "6" | 7 => "7" | 8 => "8" | 9 => "9" | 10 => "a" | 11 => "b"
  | 12 => "c" | 13 => "d" | 14 => "e" | _ => "f"
  end%N%char.

Definition hex_byte (b : byte) : string :=
  let n := Byte.to_N b in
  String (hex_digit (n / 16)) (String (hex_digit (n mod 16)) EmptyString).

Fixpoint bytes_hex (bs : list byte) : string :=
  match bs with
  | [] => ""
  | b :: r => hex_byte b ++ bytes_hex r
  end.

Definition hex_value (c : ascii) : option N :=
  let n := N_of_ascii c in
  if ((48 <=? n) && (n <=? 57))%N then Some (n - 48)%N
  else if ((97 <=? n) && (n <=? 102))%N then Some (n - 87)%N
  else if ((65 <=? n) && (n <=? 70))%N then Some (n - 55)%N
  else None.

(** ASCII whitespace, which [bytes.fromhex] skips between byte pairs. *)
Definition is_space (c : ascii) : bool :=
  let n := N_of_ascii c in ((n =? 32) || ((9 <=? n) && (n <=? 13)))%N.

Fixpoint bytes_fromhex (s : string) : option (list byte) :=
  match s with
  | EmptyString => Some []
  | String c1 rest =>
      if is_space c1 then bytes_fromhex rest
      else match rest with
           | EmptyString => None
           | String c2 rest' =>
               match hex_value c1, hex_value c2 with
               | Some h, Some l =>
                   match Byte.of_N (16 * h + l), bytes_fromhex rest' with
                   | Some b, Some bs => Some (b :: bs)
                   | _, _ => None
                   end
               | _, _ => None
               end
           end
  end.

(** *** ObjectId: [str(oid)] and [ObjectId(val)] *)

Definition str_ObjectId (oid : list byte) : string := bytes_hex oid.

(** [ObjectId(val)]: a 24-character hexadecimal string or twelve bytes are
    read; anything else raises ([None] here).  [ObjectId(None)] would
    generate a fresh identifier and has no value in this model. *)
Definition ObjectId (val : pyval) : option (list byte) :=
  match val with
  | VObjectId oid => Some oid
  | VStr s => if (String.length s =? 24)%nat then bytes_fromhex s else None
  | VBytes bs => if (List.length bs =? 12)%nat then Some bs else None
  | _ => None
  end.

(** *** datetime: [x.astimezone(timezone.utc).isoformat()] *)

Definition isoformat (d : datetime) : string :=
  pad0 4 (dt_year d) ++ "-" ++ pad0 2 (dt_month d) ++ "-" ++ pad0 2 (dt_day d)
  ++ "T" ++ pad0 2 (dt_hour d) ++ ":" ++ pad0 2 (dt_minute d) ++ ":"
  ++ pad0 2 (dt_second d)
  ++ (if (dt_microsecond d =? 0)%Z then "" else "." ++ pad0 6 (dt_microsecond d))
  ++ "+00:00".

(** *** UTF-8: [bytes.decode("utf-8")] in strict mode *)

Definition cont (n : N) : bool := ((128 <=? n) && (n <=? 191))%N.
Definition between (lo hi n : N) : bool := ((lo <=? n) && (n <=? hi))%N.

Fixpoint utf8_valid_N (l : list N) : bool :=
  match l with
  | [] => true
  | b0 :: r =>
      if (b0 <? 128)%N then utf8_valid_N r
      else if between 194 223 b0 then
        match r with
        | b1 :: r1 => cont b1 && utf8_valid_N r1
        | _ => false
        end
      else if between 224 239 b0 then
        match r with
        | b1 :: b2 :: r2 =>
            (if (b0 =? 224)%N then between 160 191 b1
             else if (b0 =? 237)%N then between 128 159 b1
             else cont b1)
            && cont b2 && utf8_valid_N r2
        | _ => false
        end
      else if between 240 244 b0 then
        match r with
        | b1 :: b2 :: b3 :: r3 =>
            (if (b0 =? 240)%N then between 144 191 b1
             else if (b0 =? 244)%N then between 128 143 b1
             else cont b1)
            && cont b2 && cont b3 && utf8_valid_N r3
        | _ => false
        end
      else false
  end.

Definition decode_utf8 (bs : list byte) : option string :=
  if utf8_valid_N (map Byte.to_N bs) then Some (string_of_list_byte bs)
  else None.

(** *** Missing values: the truth value of [pd.isna(x)]

    A scalar is missing when it is [None] or a NaN.  For a list
    [pd.isna] answers with an array; its truth value is that of its only
    element when it has exactly one, and is undefined (an exception, or
    false for an empty array) otherwise. *)
Definition is_nan (f : spec_float) : bool :=
  match f with S754_nan => true | _ => false end.

Definition checknull (x : pyval) : bool :=
  match x with
  | VNone => true
  | VFloat f => is_nan f
  | _ => false
  end.

Fixpoint sole_leaf (x : pyval) : option pyval :=
  match x with
  | VList [y] =>
      match y with
      | VList _ => sole_leaf y
      | _ => Some y
      end
  | _ => None
  end.

(** [Some b]: [bool(pd.isna(x))] is [b]; [None]: taking the truth value
    raises. *)
Definition pd_isna (x : pyval) : option bool :=
  match x with
  | VList [] => Some false
  | VList _ =>
      match sole_leaf x with
      | Some y => Some (checknull y)
      | None => None
      end
  | _ => Some (checknull x)
  end.

End Py.

(** ** pandas frames

    A column is a typed native array ([int64], [float64], [bool],
    [datetime64]) or an array of Python objects (dtype [object]). *)
Module Pandas.
Import Py.

Inductive dtype := DObject | DInt64 | DFloat64 | DBoolean | DDatetime64.

Inductive series :=
| SObject (cells : list pyval)
| SInt64 (xs : list Z)
| SFloat64 (xs : list spec_float)
| SBool (xs : list bool)
| SDatetime64 (xs : list (option datetime)).

Definition series_dtype (s : series) : dtype :=
  match s with
  | SObject _ => DObject
  | SInt64 _ => DInt64
  | SFloat64 _ => DFloat64
  | SBool _ => DBoolean
  | SDatetime64 _ => DDatetime64
  end.

Definition dtype_eqb (a b : dtype) : bool :=
  match a, b with
  | DObject, DObject | DInt64, DInt64 | DFloat64, DFloat64
  | DBoolean, DBoolean | DDatetime64, DDatetime64 => true
  | _, _ => false
  end.

(** A frame: the number of rows ([len(df)]) and the columns in order. *)
Record frame := mk_frame {
  f_len : Z;
  f_columns : list (string * series) }.

End Pandas.

(** The library functions whose text the export only passes along:
    [float.__repr__], [json.dumps(x, ensure_ascii=False, default=str)],
    the builtin [str] on values that are no scalar, and the
    [pandas.DataFrame] constructor with its dtype inference. *)
Class PyRuntime := {
  float_repr : spec_float -> string;
  json_dumps : Py.pyval -> string;
  py_str : Py.pyval -> string;
  DataFrame : list Py.pydict -> Pandas.frame }.

(** ** Record Normalizer ([_jsonify_scalar], [normalize_df_for_parquet],
    [write_parquet_chunk]) *)
Module Normalizer.
Import Py Pandas.

Definition str_bool (b : bool) : string := if b then "True" else "False".

Section WithRuntime.
Context {rt : PyRuntime}.

Definition _jsonify_scalar (x : pyval) : option string :=
  match x with
  | VNone => None
  | _ =>
      match pd_isna x with
      | Some true => None
      | _ =>
          match x with
          | VNone => None
          | VObjectId oid => Some (str_ObjectId oid)
          | VDatetime d => Some (isoformat d)
          | VBytes bs =>
              Some (match decode_utf8 bs with
                    | Some s => s
                    | None => bytes_hex bs
                    end)
          | VDict _ | VList _ => Some (json_dumps x)
          | VStr s => Some s
          | VInt z => Some (str_Z z)
          | VFloat f => Some (float_repr f)
          | VBool b => Some (str_bool b)
          end
      end
  end.

(** The cell a mapped object column holds for a result of the function. *)
Definition cell (o : option string) : pyval :=
  match o with
  | Some s => VStr s
  | None => VNone
  end.

(** [df[c].map(_jsonify_scalar)] on a column of dtype [object]. *)
Definition map_column (s : series) : series :=
  match s with
  | SObject cells => SObject (map (fun x => cell (_jsonify_scalar x)) cells)
  | _ => s
  end.

Definition normalize_df_for_parquet (df : frame) : frame :=
  mk_frame (f_len df)
    (map (fun c : string * series =>
            if dtype_eqb (series_dtype (snd c)) DObject
            then (fst c, map_column (snd c))
            else c)
         (f_columns df)).

(** The file written and the row count returned. *)
Definition write_parquet_chunk (rows : list pydict) : frame * Z :=
  let df := DataFrame rows in
  let df := normalize_df_for_parquet df in
  (df, f_len df).

End WithRuntime.

(** *** What the columnar writer accepts

    An object column converts when its non-null cells are of one kind; two
    non-null cells of different kinds are a type conflict.  A native column
    has one type by construction. *)
Inductive kind :=
  KBool | KInt | KFloat | KStr | KBytes | KObjectId | KDatetime | KList | KDict.

Definition kind_of (x : pyval) : option kind :=
  match x with
  | VNone => None
  | VBool _ => Some KBool
  | VInt _ => Some KInt
  | VFloat _ => Some KFloat
  | VStr _ => Some KStr
  | VBytes _ => Some KBytes
  | VObjectId _ => Some KObjectId
  | VDatetime _ => Some KDatetime
  | VList _ => Some KList
  | VDict _ => Some KDict
  end.

Definition kind_eqb (a b : kind) : bool :=
  match a, b with
  | KBool, KBool | KInt, KInt | KFloat, KFloat | KStr, KStr
  | KBytes, KBytes | KObjectId, KObjectId | KDatetime, KDatetime
  | KList, KList | KDict, KDict => true
  | _, _ => false
  end.

Definition compatible (x y : pyval) : bool :=
  match kind_of x, kind_of y with
  | Some a, Some b => kind_eqb a b
  | _, _ => true
  end.

Fixpoint no_conflict (cells : list pyval) : bool :=
  match cells with
  | [] => true
  | x :: r => forallb (compatible x) r && no_conflict r
  end.

Definition column_converts (s : series) : bool :=
  match s with
  | SObject cells => no_conflict cells
  | _ => true
  end.

Definition to_parquet_ok (df : frame) : bool :=
  forallb (fun c : string * series => column_converts (snd c)) (f_columns df).

(** A cell that is text or null, a column of such cells. *)
Definition text_or_null (x : pyval) : bool :=
  match x with
  | VNone | VStr _ => true
  | _ => false
  end.

Definition text_column (s : series) : bool :=
  match s with
  | SObject cells => forallb text_or_null cells
  | _ => false
  end.

End Normalizer.

(** ** Checkpoint payload of the sort value ([encode_sort_value],
    [decode_sort_value]) *)
Module Checkpoint.
Import Py.

(** [t == "..."] for a value read from the payload. *)
Definition is_str (t : pyval) (s : string) : bool :=
  match t with
  | VStr s' => String.eqb s' s
  | _ => false
  end.

Section WithRuntime.
Context {rt : PyRuntime}.

Definition encode_sort_value (v : pyval) : pydict :=
  match v with
  | VNone => [("type", VStr "none"); ("value", VNone)]
  | VObjectId oid => [("type", VStr "objectid"); ("value", VStr (str_ObjectId oid))]
  | VDatetime d => [("type", VStr "datetime"); ("value", VStr (isoformat d))]
  | VInt _ => [("type", VStr "int"); ("value", v)]
  | VFloat _ => [("type", VStr "float"); ("value", v)]
  | VBool _ => [("type", VStr "bool"); ("value", v)]
  | VStr _ => [("type", VStr "str"); ("value", v)]
  | _ => [("type", VStr "str"); ("value", VStr (py_str v))]
  end.

End WithRuntime.

(** [None]: [ObjectId(val)] raised. *)
Definition decode_sort_value (payload : pydict) : option pyval :=
  let t := get payload "type" in
  let val := get payload "value" in
  if is_str t "none" then Some VNone
  else if is_str t "objectid" then option_map VObjectId (ObjectId val)
  else if is_str t "datetime" then Some val
  else Some val.

(** The kinds of sort value a checkpoint names. *)
Definition supported (v : pyval) : bool :=
  match v with
  | VNone | VObjectId _ | VDatetime _ | VInt _ | VFloat _ | VBool _ | VStr _ => true
  | _ => false
  end.

Definition is_datetime (v : pyval) : bool :=
  match v with VDatetime _ => true | _ => false end.

(** An identifier is twelve bytes. *)
Definition well_formed (v : pyval) : Prop :=
  match v with
  | VObjectId oid => List.length oid = 12%nat
  | _ => True
  end.

(** A sort value of a kind [decode_sort_value] builds again: every
    supported kind but a timestamp. *)
Definition restorable (v : pyval) : Prop :=
  supported v = true /\ is_datetime v = false /\ well_formed v.

End Checkpoint.

(** ** An instance for the examples

    The examples below hold no float, no nested value and no value that
    meets the fallback of [encode_sort_value], so the three text functions
    are never consulted there.  The frame constructor follows pandas on
    batches whose records all carry the same fields: a field that is an
    integer in every record becomes an [int64] column, one that is a
    boolean in every record a [bool] column, any other an object column. *)
Module Scenario.
Import Py Pandas.

Definition column_names (rows : list pydict) : list string :=
  match rows with
  | [] => []
  | r :: _ => map fst r
  end.

Definition all_ints (cells : list pyval) : option (list Z) :=
  foldr (fun x acc =>
           match x, acc with
           | VInt z, Some l => Some (z :: l)
           | _, _ => None
           end) (Some []) cells.

Definition all_bools (cells : list pyval) : option (list bool) :=
  foldr (fun x acc =>
           match x, acc with
           | VBool b, Some l => Some (b :: l)
           | _, _ => None
           end) (Some []) cells.

Definition infer_series (cells : list pyval) : series :=
  match all_ints cells with
  | Some l => SInt64 l
  | None =>
      match all_bools cells with
      | Some l => SBool l
      | None => SObject cells
      end
  end.

Definition example_DataFrame (rows : list pydict) : frame :=
  mk_frame (Z.of_nat (List.length rows))
    (map (fun name => (name, infer_series (map (fun r => get r name) rows)))
         (column_names rows)).

Definition example_runtime : PyRuntime :=
  {| float_repr := fun _ => "nan";
     json_dumps := fun _ => "null";
     py_str := fun _ => "";
     DataFrame := example_DataFrame |}.

(** Two records with an integer field and a text field. *)
Definition two_rows : list pydict :=
  [ [("n", VInt 1); ("tag", VStr "a")];
    [("n", VInt 2); ("tag", VStr "b")] ].

(** A timestamp used as sort value: 2024-03-05 07:08:09 UTC. *)
Definition a_datetime : datetime := mk_datetime 2024 3 5 7 8 9 0.

(** An identifier of twelve bytes. *)
Definition an_oid : list byte :=
  [x65; xe7; x00; x01; xab; xcd; xef; x10; x20; x30; x40; x50].

End Scenario.

(** ** Retries at the blob-store boundary

    Seconds are rationals; the random draws and the clock readings are
    given from outside, one per use. *)
Module Retry.

(** The classes of [google.api_core.exceptions] named by the export, with
    the subclasses the library derives from them, and the other errors a
    call can raise. *)
Inductive exc_class :=
| TooManyRequests | ResourceExhausted
| ServiceUnavailable
| InternalServerError
| BadGateway
| GatewayTimeout | DeadlineExceeded
| RequestTimeout
| BadRequest | Unauthorized | Forbidden | NotFound | Conflict | PreconditionFailed
| OSError | OtherException.

Record exception := mk_exception {
  exc_type : exc_class;
  exc_str : string }.

Inductive outcome (A : Type) :=
| Returned (a : A)
| Raised (e : exception).
Arguments Returned {A} a.
Arguments Raised {A} e.

Definition base_class (c : exc_class) : option exc_class :=
  match c with
  | ResourceExhausted => Some TooManyRequests
  | DeadlineExceeded => Some GatewayTimeout
  | _ => None
  end.

Definition exc_class_eqb (a b : exc_class) : bool :=
  match a, b with
  | TooManyRequests, TooManyRequests | ResourceExhausted, ResourceExhausted
  | ServiceUnavailable, ServiceUnavailable
  | InternalServerError, InternalServerError
  | BadGateway, BadGateway
  | GatewayTimeout, GatewayTimeout | DeadlineExceeded, DeadlineExceeded
  | RequestTimeout, RequestTimeout
  | BadRequest, BadRequest | Unauthorized, Unauthorized
  | Forbidden, Forbidden | NotFound, NotFound | Conflict, Conflict
  | PreconditionFailed, PreconditionFailed
  | OSError, OSError | OtherException, OtherException => true
  | _, _ => false
  end.

Definition isinstance (e : exception) (c : exc_class) : bool :=
  exc_class_eqb (exc_type e) c
  || match base_class (exc_type e) with
     | Some b => exc_class_eqb b c
     | None => false
     end.

(** *** Export stage: [_retry_predicate] and the [retry] policy *)

Definition retry_classes : list exc_class :=
  [ TooManyRequests; ServiceUnavailable; InternalServerError; BadGateway;
    GatewayTimeout; DeadlineExceeded; RequestTimeout ].

Definition _retry_predicate (exc : exception) : bool :=
  existsb (isinstance exc) retry_classes.

Record Retry := mk_Retry {
  predicate : exception -> bool;
  initial : Q;
  maximum : Q;
  multiplier : Q;
  deadline : Q }.

Definition retry (GCS_RETRY_DEADLINE : Z) : Retry :=
  {| predicate := _retry_predicate;
     initial := 1%Q;
     maximum := 60%Q;
     multiplier := 2%Q;
     deadline := inject_Z GCS_RETRY_DEADLINE |}.

(** What one run of a retried call did: its result ([None]: still
    retrying when the observation ends), the calls made, the sleeps. *)
Record run (A : Type) := mk_run {
  result : option (outcome A);
  calls : nat;
  sleeps : list Q }.
Arguments mk_run {A} _ _ _.
Arguments result {A} _.
Arguments calls {A} _.
Arguments sleeps {A} _.

Definition after_sleep {A : Type} (s : Q) (r : run A) : run A :=
  mk_run (result r) (calls r) (s :: sleeps r).

Definition after_call {A : Type} (r : run A) : run A :=
  mk_run (result r) (S (calls r)) (sleeps r).

(** The upper bound of the [k]-th delay: it starts at [initial], is
    multiplied after every attempt and capped by [maximum]. *)
Fixpoint delay_bound (p : Retry) (k : nat) : Q :=
  match k with
  | O => Qmin (initial p) (maximum p)
  | S k' => Qmin (multiplier p * delay_bound p k')%Q (maximum p)
  end.

(** The library's driver, as [google.api_core.retry] documents it: call
    the target; an error outside the predicate propagates; otherwise draw
    a delay below the current bound, give up when the next attempt would
    start past the deadline (counted from the first attempt), else sleep
    and call again.  [target k], [uniform k] and [clock k] are the
    outcome, the draw in [[0, 1]] and the clock reading of attempt [k];
    [observed] bounds how many attempts are looked at. *)
Fixpoint retry_target {A : Type} (observed : nat) (p : Retry)
    (target : nat -> outcome A) (uniform clock : nat -> Q)
    (started : Q) (k : nat) : run A :=
  match observed with
  | O => mk_run None O []
  | S observed' =>
      match target k with
      | Returned a => mk_run (Some (Returned a)) 1 []
      | Raised e =>
          if negb (predicate p e) then mk_run (Some (Raised e)) 1 []
          else
            let sleep := (uniform k * delay_bound p k)%Q in
            if Qlt_le_dec (started + deadline p)%Q (clock k + sleep)%Q
            then mk_run (Some (Raised e)) 1 []
            else after_call
                   (after_sleep sleep
                      (retry_target observed' p target uniform clock started (S k)))
      end
  end.

(** *** Normalization stage: [is_retryable_error], [with_retries] *)

Definition RETRYABLE_SUBSTRINGS : list string :=
  [ "oauth2.googleapis.com";
    "NameResolutionError";
    "getaddrinfo failed";
    "TransportError";
    "ConnectionError";
    "Max retries exceeded";
    "Read timed out" ].

(** [x in s] on strings. *)
Fixpoint contains (x s : string) : bool :=
  String.prefix x s
  || match s with
     | EmptyString => false
     | String _ s' => contains x s'
     end.

Definition is_retryable_error (e : exception) : bool :=
  existsb (fun x => contains x (exc_str e)) RETRYABLE_SUBSTRINGS.

(** The jittered sleep after the failed attempt [a]. *)
Definition backoff (base_sleep max_sleep : Q) (a : nat) (random : Q) : Q :=
  (Qmin max_sleep (base_sleep * inject_Z (2 ^ Z.of_nat (a - 1)))
   * ((7 # 10) + random * (6 # 10)))%Q.

(** What a retried call did, call by call. *)
Record attempts_log (A : Type) := mk_log {
  final : outcome (option A);
  outcomes : list (outcome A);
  slept : list Q }.
Arguments mk_log {A} _ _ _.
Arguments final {A} _.
Arguments outcomes {A} _.
Arguments slept {A} _.

(** [for a in range(a, attempts + 1)], with [n] values of [a] left; [fn]
    acts on a state [S] (the file system).  A loop that runs out returns
    [None]. *)
Fixpoint with_retries_loop {St A : Type} (fn : St -> outcome A * St) (random : nat -> Q)
    (attempts : nat) (base_sleep max_sleep : Q) (n a : nat) (s : St)
  : attempts_log A * St :=
  match n with
  | O => (mk_log (Returned None) [] [], s)
  | S n' =>
      let (o, s1) := fn s in
      match o with
      | Returned v => (mk_log (Returned (Some v)) [o] [], s1)
      | Raised e =>
          if negb (is_retryable_error e) || (a =? attempts)%nat
          then (mk_log (Raised e) [o] [], s1)
          else
            let (r, s2) :=
              with_retries_loop fn random attempts base_sleep max_sleep n' (S a) s1 in
            (mk_log (final r) (o :: outcomes r)
                    (backoff base_sleep max_sleep a (random a) :: slept r), s2)
      end
  end.

(** [with_retries(fn)] with the defaults [attempts=8], [base_sleep=2.0],
    [max_sleep=60.0], which every caller uses. *)
Definition with_retries {St A : Type} (fn : St -> outcome A * St) (random : nat -> Q)
    (s : St) : attempts_log A * St :=
  with_retries_loop fn random 8 2%Q 60%Q 8 1 s.

(** A call whose [a]-th outcome is given from outside. *)
Definition scripted {A : Type} (script : nat -> outcome A) (a : nat)
  : outcome A * nat :=
  (script a, S a).

End Retry.

(** ** Text helpers of the normalization script

    Strings are byte strings; on the ASCII paths and column names of this
    pipeline lengths and case mapping are Python's. *)
Module Text.

Definition is_whitespace (c : ascii) : bool :=
  let n := N_of_ascii c in
  ((n =? 32) || ((9 <=? n) && (n <=? 13)) || ((28 <=? n) && (n <=? 31)))%N.

Fixpoint lstrip_by (p : ascii -> bool) (s : string) : string :=
  match s with
  | String c r => if p c then lstrip_by p r else s
  | EmptyString => s
  end.

Fixpoint rstrip_by (p : ascii -> bool) (s : string) : string :=
  match s with
  | EmptyString => EmptyString
  | String c r =>
      match rstrip_by p r with
      | EmptyString => if p c then EmptyString else String c EmptyString
      | r' => String c r'
      end
  end.

(** [s.strip()] *)
Definition strip (s : string) : string :=
  rstrip_by is_whitespace (lstrip_by is_whitespace s).

(** [s.lstrip("/")] *)
Definition lstrip_slash (s : string) : string :=
  lstrip_by (fun c => Ascii.eqb c "/") s.

Definition startswith (s x : string) : bool := String.prefix x s.

Fixpoint drop (n : nat) (s : string) : string :=
  match n, s with
  | S n', String _ r => drop n' r
  | _, _ => s
  end.

Definition endswith (s x : string) : bool :=
  (String.length x <=? String.length s)%nat
  && String.eqb (drop (String.length s - String.length x) s) x.

(** [s.split(",")] *)
Fixpoint split_comma (s : string) : list string :=
  match s with
  | EmptyString => [EmptyString]
  | String c r =>
      if Ascii.eqb c "," then EmptyString :: split_comma r
      else match split_comma r with
           | w :: ws => String c w :: ws
           | [] => [String c EmptyString]
           end
  end.

Definition lower_ascii (c : ascii) : ascii :=
  let n := N_of_ascii c in
  if ((65 <=? n) && (n <=? 90))%N then ascii_of_N (n + 32) else c.

(** [s.lower()] *)
Fixpoint lower (s : string) : string :=
  match s with
  | EmptyString => EmptyString
  | String c r => String (lower_ascii c) (lower r)
  end.

(** [sorted(l)] on strings: insertion sort by the byte order. *)
Fixpoint insert_sorted (x : string) (l : list string) : list string :=
  match l with
  | [] => [x]
  | y :: r => if String.leb x y then x :: l else y :: insert_sorted x r
  end.

Fixpoint sorted (l : list string) : list string :=
  match l with
  | [] => []
  | x :: r => insert_sorted x (sorted r)
  end.

(** The order [sorted] sorts by. *)
Definition str_le (a b : string) : Prop := String.leb a b = true.

(** [l[:n]] with Python's reading of a negative bound. *)
Definition slice_to {A : Type} (l : list A) (n : Z) : list A :=
  if (0 <=? n)%Z then firstn (Z.to_nat n) l
  else firstn (Z.to_nat (Z.of_nat (List.length l) + n)) l.

End Text.

(** ** Schema drift detection and the rewrite pass
    ([normalize_parquet_run.py]) *)
Module Drift.
Import Retry Text.

(** Arrow types by their signature, [str(dt)]. *)
Inductive DataType :=
| dt_null | dt_bool | dt_int64 | dt_double | dt_string | dt_binary
| dt_timestamp_ns
| dt_other (signature : string).

Definition arrow_type_key (dt : DataType) : string :=
  match dt with
  | dt_null => "null"
  | dt_bool => "bool"
  | dt_int64 => "int64"
  | dt_double => "double"
  | dt_string => "string"
  | dt_binary => "binary"
  | dt_timestamp_ns => "timestamp[ns]"
  | dt_other signature => signature
  end.

Record field := mk_field {
  field_name : string;
  field_type : DataType }.

Definition Schema := list field.

(** [observed[field.name].add(arrow_type_key(field.type))], skipped for an
    excluded column. *)
Definition observe (exclude_cols : gset string)
    (observed : gmap string (gset string)) (f : field) : gmap string (gset string) :=
  if decide (field_name f ∈ exclude_cols) then observed
  else <[field_name f :=
           default ∅ (observed !! field_name f) ∪ {[arrow_type_key (field_type f)]}]>
         observed.

Definition observe_all (exclude_cols : gset string) (schemas : list Schema)
  : gmap string (gset string) :=
  foldl (fun observed sch => foldl (observe exclude_cols) observed sch) ∅ schemas.

Definition detect_drifty_columns (schemas : list Schema) (exclude_cols : gset string)
  : gmap string (gset string) :=
  filter (fun kv : string * gset string => (1 < size (snd kv))%nat)
         (observe_all exclude_cols schemas).

(** In the spec's words: the set of distinct type signatures observed for
    a column across the sampled schemas. *)
Definition signatures_among (col : string) (fields : list field) : gset string :=
  list_to_set
    (map (fun f => arrow_type_key (field_type f))
         (List.filter (fun f => String.eqb (field_name f) col) fields)).

Definition signatures (col : string) (schemas : list Schema) : gset string :=
  signatures_among col (concat schemas).

Definition SUSPICIOUS_PREFIXES : list string := ["is_"; "has_"; "key_"; "cat_"; "flag_"].
Definition SUSPICIOUS_CONTAINS : list string :=
  ["_id"; "id_"; "uuid"; "guid"; "code"; "type"; "search"].
Definition SUSPICIOUS_SUFFIXES : list string := ["_id"; "_code"; "_type"; "_key"].

Definition looks_suspicious (col : string) : bool :=
  let c := lower col in
  if existsb (startswith c) SUSPICIOUS_PREFIXES then true
  else if existsb (endswith c) SUSPICIOUS_SUFFIXES then true
  else if existsb (fun x => contains x c) SUSPICIOUS_CONTAINS then true
  else false.

Definition ensure_trailing_slash (s : string) : string :=
  let s := strip s in
  let s := lstrip_slash s in
  if endswith s "/" then s else s ++ "/".

(** [{x.strip() for x in s.split(",") if x.strip()} if s else set()] *)
Definition parse_csv_set (s : string) : gset string :=
  if String.eqb s "" then ∅
  else list_to_set
         (map strip
              (List.filter (fun x => negb (String.eqb (strip x) "")) (split_comma s))).

Record arguments := mk_arguments {
  bucket : string;
  src_prefix : string;
  dst_prefix : string;
  sample_size : Z;
  resume : bool;
  log_every : Z;
  force_string_cols : string;
  exclude_cols : string;
  include_all_suspicious : bool }.

(** What the file system does at its [n]-th operation. *)
Inductive fault :=
| Works
| Fails (e : exception)
| FailsMidway (e : exception).

Inductive event :=
| EvExists (path : string)
| EvReadSchema (path : string)
| EvReadTable (path : string)
| EvWriteTable (path : string).

Section WithArrow.

(** The cells of an Arrow column and [pc.cast(col, pa.string(), safe=False)]
    on them, which raises for a type it cannot render. *)
Context {coldata : Type} (cast_string : DataType -> coldata -> outcome coldata).

(** The store's answer to [fs.glob(pattern)], the faults and the random
    draws of one run. *)
Context (glob : string -> list string) (faults : nat -> fault) (random : nat -> Q).

Definition Table := list (field * coldata).

Definition table_schema (t : Table) : Schema := map fst t.
Definition column_names (t : Table) : list string := map field_name (table_schema t).

(** An object of the bucket: a parquet file, or bytes that are none (what
    a write cut short leaves). *)
Inductive object :=
| Parquet (t : Table)
| Truncated.

Record gcsfs := mk_gcsfs {
  objects : gmap string object;
  operations : nat;
  trace : list event }.

Definition record (ev : event) (fs : gcsfs) : gcsfs :=
  mk_gcsfs (objects fs) (S (operations fs)) (trace fs ++ [ev])%list.

Definition store (path : string) (o : object) (fs : gcsfs) : gcsfs :=
  mk_gcsfs (<[path := o]> (objects fs)) (operations fs) (trace fs).

Definition not_found (path : string) : exception := mk_exception OSError path.
Definition invalid_file (path : string) : exception :=
  mk_exception OtherException
    ("Could not open Parquet input source '" ++ path ++ "'").

(** [fs.exists(path)] *)
Definition fs_exists (path : string) (fs : gcsfs) : outcome bool * gcsfs :=
  let fs' := record (EvExists path) fs in
  match faults (operations fs) with
  | Works => (Returned (bool_decide (is_Some (objects fs !! path))), fs')
  | Fails e | FailsMidway e => (Raised e, fs')
  end.

Definition open_parquet (ev : event) (path : string) (fs : gcsfs)
  : outcome Table * gcsfs :=
  let fs' := record ev fs in
  match faults (operations fs) with
  | Works =>
      match objects fs !! path with
      | Some (Parquet t) => (Returned t, fs')
      | Some Truncated => (Raised (invalid_file path), fs')
      | None => (Raised (not_found path), fs')
      end
  | Fails e | FailsMidway e => (Raised e, fs')
  end.

(** [with fs.open(path, "rb") as f: return pq.read_schema(f)] *)
Definition _read (path : string) (fs : gcsfs) : outcome Schema * gcsfs :=
  match open_parquet (EvReadSchema path) path fs with
  | (Returned t, fs') => (Returned (table_schema t), fs')
  | (Raised e, fs') => (Raised e, fs')
  end.

(** [with fs.open(path, "wb") as out: pq.write_table(t, out)] *)
Definition write_table (path : string) (t : Table) (fs : gcsfs)
  : outcome unit * gcsfs :=
  let fs' := record (EvWriteTable path) fs in
  match faults (operations fs) with
  | Works => (Returned tt, store path (Parquet t) fs')
  | Fails e => (Raised e, fs')
  | FailsMidway e => (Raised e, store path Truncated fs')
  end.

Definition read_schema (path : string) (fs : gcsfs) : outcome (option Schema) * gcsfs :=
  let (r, fs') := with_retries (_read path) random fs in (final r, fs').

Definition list_parquet_paths (bucket prefix : string) : list string :=
  let prefix := ensure_trailing_slash prefix in
  sorted (glob (bucket ++ "/" ++ prefix ++ "**/*.parquet")).

(** [table.set_column(idx, col, pc.cast(table[col], pa.string(), safe=False))];
    a name the table holds twice has no column ([table[col]] raises). *)
Fixpoint set_column_string (col : string) (t : Table) : outcome Table :=
  match t with
  | [] => Returned []
  | (f, d) :: r =>
      if String.eqb (field_name f) col then
        match cast_string (field_type f) d with
        | Returned d' => Returned ((mk_field col dt_string, d') :: r)
        | Raised e => Raised e
        end
      else
        match set_column_string col r with
        | Returned r' => Returned ((f, d) :: r')
        | Raised e => Raised e
        end
  end.

Definition ambiguous (col : string) : exception :=
  mk_exception OtherException ("Field '" ++ col ++ "' exists several times in schema").

Definition cast_one (col : string) (acc : outcome Table) : outcome Table :=
  match acc with
  | Raised e => Raised e
  | Returned t =>
      let n := List.length (List.filter (String.eqb col) (column_names t)) in
      if (n =? 0)%nat then Returned t
      else if (n =? 1)%nat then set_column_string col t
      else Raised (ambiguous col)
  end.

Definition cast_selected_to_string (table : Table) (cols : gset string) : outcome Table :=
  foldr cast_one (Returned table) (elements cols).

(** The closure [process_one] of the rewrite loop. *)
Definition process_one (src_path dst_path : string) (cast_cols : gset string)
    (fs : gcsfs) : outcome unit * gcsfs :=
  match open_parquet (EvReadTable src_path) src_path fs with
  | (Raised e, fs1) => (Raised e, fs1)
  | (Returned table, fs1) =>
      match cast_selected_to_string table cast_cols with
      | Raised e => (Raised e, fs1)
      | Returned table2 => write_table dst_path table2 fs1
      end
  end.

(** *** Phase 1: the sample and the plan *)

Definition sample_files (args : arguments) (files : list string) : list string :=
  let sample_n := Z.min (sample_size args) (Z.of_nat (List.length files)) in
  slice_to files sample_n.

(** The schemas that could be read, in order; a failure is only warned
    about. *)
Fixpoint read_schemas (paths : list string) (fs : gcsfs) : list Schema * gcsfs :=
  match paths with
  | [] => ([], fs)
  | p :: r =>
      match read_schema p fs with
      | (Returned (Some sch), fs') =>
          let (schs, fs'') := read_schemas r fs' in (sch :: schs, fs'')
      | (_, fs') => read_schemas r fs'
      end
  end.

(** The schema a path holds in the store, when it is a parquet file. *)
Definition stored_schema (fs : gcsfs) (path : string) : option Schema :=
  match objects fs !! path with
  | Some (Parquet t) => Some (table_schema t)
  | _ => None
  end.

(** The schemas of the parquet files among [paths], in order. *)
Fixpoint stored_schemas (fs : gcsfs) (paths : list string) : list Schema :=
  match paths with
  | [] => []
  | p :: r =>
      match stored_schema fs p with
      | Some sch => sch :: stored_schemas fs r
      | None => stored_schemas fs r
      end
  end.

(** Two stores that hold the same objects at [paths] and have made the
    same number of operations. *)
Definition agree (paths : list string) (fs fs' : gcsfs) : Prop :=
  operations fs = operations fs'
  /\ forall p, In p paths -> objects fs !! p = objects fs' !! p.

Definition suspicious_columns (schemas : list Schema) (exclude : gset string)
  : gset string :=
  list_to_set
    (List.filter (fun name => negb (bool_decide (name ∈ exclude)) && looks_suspicious name)
                 (map field_name (concat schemas))).

Definition cast_columns (args : arguments) (schemas : list Schema) : gset string :=
  let force_cols := parse_csv_set (force_string_cols args) in
  let exclude := parse_csv_set (exclude_cols args) in
  let drifty := detect_drifty_columns schemas exclude in
  let cast_cols := dom drifty ∪ force_cols in
  let cast_cols :=
    if include_all_suspicious args
    then cast_cols ∪ suspicious_columns schemas exclude
    else cast_cols in
  cast_cols ∖ exclude.

(** *** Phase 2: the rewrite loop *)

Record summary := mk_summary {
  written : Z;
  skipped : Z;
  failed : list (string * string) }.

Definition destination (args : arguments) (src_prefix' dst_prefix' src_path : string)
  : string :=
  let rel := drop (String.length (bucket args ++ "/")) src_path in
  let rel_after_src := drop (String.length src_prefix') rel in
  bucket args ++ "/" ++ dst_prefix' ++ rel_after_src.

(** What [i % args.log_every] raises for a zero divisor, a
    [ZeroDivisionError] with the text of CPython 3.11. *)
Definition modulo_by_zero : exception :=
  mk_exception OtherException "integer modulo by zero".

(** [if i % args.log_every == 0 or i == len(files): print(...)], the
    progress test after a file is written: its answer only decides a
    print, but the modulo raises when [--log_every] is zero. *)
Definition progress_test (args : arguments) : outcome unit :=
  if (log_every args =? 0)%Z then Raised modulo_by_zero else Returned tt.

(** One turn of [for i, src_path in enumerate(files, start=1)]; an
    exception raised anywhere in the [try] is recorded for the file. *)
Definition rewrite_one (args : arguments) (src_prefix' dst_prefix' : string)
    (cast_cols : gset string) (src_path : string) (acc : summary * gcsfs)
  : summary * gcsfs :=
  let (sm, fs) := acc in
  let dst_path := destination args src_prefix' dst_prefix' src_path in
  let failure (sm : summary) (e : exception) :=
    mk_summary (written sm) (skipped sm)
               (failed sm ++ [(src_path, exc_str e)])%list in
  let process (fs : gcsfs) :=
    let (r, fs') := with_retries (process_one src_path dst_path cast_cols) random fs in
    match final r with
    | Returned _ =>
        let sm' := mk_summary (written sm + 1) (skipped sm) (failed sm) in
        match progress_test args with
        | Returned _ => (sm', fs')
        | Raised e => (failure sm' e, fs')
        end
    | Raised e => (failure sm e, fs')
    end in
  if resume args then
    match fs_exists dst_path fs with
    | (Returned true, fs') => (mk_summary (written sm) (skipped sm + 1) (failed sm), fs')
    | (Returned false, fs') => process fs'
    | (Raised e, fs') => (failure sm e, fs')
    end
  else process fs.

Definition rewrite_files (args : arguments) (src_prefix' dst_prefix' : string)
    (cast_cols : gset string) (files : list string) (fs : gcsfs) : summary * gcsfs :=
  foldl (fun acc src_path => rewrite_one args src_prefix' dst_prefix' cast_cols src_path acc)
        (mk_summary 0 0 [], fs) files.

(** The report of phase 1 and the outcome of phase 2; [None]: no parquet
    file was found and the script exits. *)
Record run_report := mk_run_report {
  sampled : list string;
  schemas_read : list Schema;
  drifty_columns : gmap string (gset string);
  columns_cast : gset string;
  totals : summary }.

Definition main (args : arguments) (fs : gcsfs) : option (run_report * gcsfs) :=
  let src_prefix' := ensure_trailing_slash (src_prefix args) in
  let dst_prefix' := ensure_trailing_slash (dst_prefix args) in
  let exclude := parse_csv_set (exclude_cols args) in
  let files := list_parquet_paths (bucket args) src_prefix' in
  match files with
  | [] => None
  | _ =>
      let sample := sample_files args files in
      let (schemas, fs1) := read_schemas sample fs in
      let drifty := detect_drifty_columns schemas exclude in
      let cast_cols := cast_columns args schemas in
      let (sm, fs2) := rewrite_files args src_prefix' dst_prefix' cast_cols files fs1 in
      Some (mk_run_report sample schemas drifty cast_cols sm, fs2)
  end.

End WithArrow.

End Drift.

(** ** A small bucket for the examples of the drift pass

    Two exported chunks under [exports/run/], whose column [n] is [int64]
    in the first and [string] in the second; an earlier copy of the first
    is already present under [fixed/run/]. *)
Module DriftScenario.
Import Retry Drift.

Definition part1 : string := "bkt/exports/run/part-000001.parquet".
Definition part2 : string := "bkt/exports/run/part-000002.parquet".
Definition fixed1 : string := "bkt/fixed/run/part-000001.parquet".
Definition fixed2 : string := "bkt/fixed/run/part-000002.parquet".

(** A column of two cells, by their text. *)
Definition cells := list string.

Definition table1 : Table (coldata := cells) :=
  [ (mk_field "_id" dt_string, ["a"; "b"]); (mk_field "n" dt_int64, ["1"; "2"]) ].
Definition table2 : Table (coldata := cells) :=
  [ (mk_field "_id" dt_string, ["c"; "d"]); (mk_field "n" dt_string, ["x"; "3"]) ].
Definition old_fixed1 : Table (coldata := cells) :=
  [ (mk_field "_id" dt_string, ["a"; "b"]); (mk_field "n" dt_string, ["1"; "0"]) ].

Definition bucket_before : gcsfs (coldata := cells) :=
  mk_gcsfs (<[part1 := Parquet table1]>
              (<[part2 := Parquet table2]>
                 (<[fixed1 := Parquet old_fixed1]> ∅)))
           0 [].

Definition cast_cells (_ : DataType) (d : cells) : outcome cells := Returned d.

Definition listing (pattern : string) : list string :=
  if String.eqb pattern "bkt/exports/run/**/*.parquet" then [part2; part1] else [].

Definition no_fault (_ : nat) : fault := Works.
Definition draws (_ : nat) : Q := (1 # 2)%Q.

Definition run_args (resume : bool) : arguments :=
  mk_arguments "bkt" "exports/run" "fixed/run" 300 resume 200 "" "" false.

Definition run (resume : bool) : option (run_report * gcsfs) :=
  main cast_cells listing no_fault draws (run_args resume) bucket_before.

End DriftScenario.

(** ** Export orchestrator ([export_to_gcs]) *)
Module Orchestrator.
Import Py Pandas Checkpoint.

(** The environment variables, as read at start; [LOG_LEVEL] is the
    number [getattr(logging, LOG_LEVEL, logging.INFO)] gives: 10 for
    [DEBUG], 20 for [INFO] and for a name that is no level, 30 for
    [WARNING], 40 for [ERROR]. *)
Record config := mk_config {
  MONGO_DB : string;
  MONGO_COLLECTION : string;
  SORT_FIELD : string;
  BATCH_SIZE : Z;
  MAX_DOCS : Z;
  LOCAL_TMP_DIR : string;
  LOG_LEVEL : Z;
  GCS_BUCKET : string;
  GCS_PREFIX : string;
  RUN_ID : string }.

(** The collaborators of one run: the collection, listed in ascending
    order of the sort field, the server's [$gt] on two values, whether
    [os.remove] succeeds on a path, and the clock by the number of the
    reading. *)
Record environment := mk_environment {
  collection : list pydict;
  bson_gt : pyval -> pyval -> bool;
  can_remove : string -> bool;
  clock : nat -> datetime }.

(** A blob of the bucket: a parquet file, or the JSON text of a dict. *)
Inductive blob :=
| ParquetBlob (df : frame)
| JsonBlob (d : pydict).

(** A record of the log, by the call of [logging] that makes it, with
    the values its message is formatted from.  The file handler writes
    each record on a line of its own, after the time of the call and the
    name of the level; the same lines go to standard output. *)
Inductive log_record :=
| LogFile (log_path : string)
| LogRunId (run_id : string)
| LogTarget (bucket run_prefix : string)
| LogSettings (batch_size max_docs : Z) (sort_field : string)
| LogConnectingGCS
| LogResume (chunk_idx exported_docs : Z) (last_sort_value : pyval)
| LogConnectingMongo
| LogPingOK
| LogReachedMax (max_docs : Z)
| LogNoMore
| LogSkip (blob_path : string)
| LogUploading (chunk_idx rows : Z) (blob_path : string)
| LogProgress (chunk_idx exported_docs : Z)
| LogDone (chunks docs : Z) (manifest_blob : string)
| LogClosed.

(** [logging.WARNING] for the one call of [logging.warning],
    [logging.INFO] for the others. *)
Definition levelno (r : log_record) : Z :=
  match r with
  | LogReachedMax _ => 30
  | _ => 20
  end.

(** The bucket, the parquet files and the log files of the local file
    system, and the number of readings of the clock so far. *)
Record world := mk_world {
  gcs : gmap string blob;
  local_files : gmap string frame;
  log_files : gmap string (list log_record);
  clock_reads : nat }.

Inductive event :=
| LoadCheckpoint (path : string)
| Find (last_sort_value : pyval) (batch : list pydict)
| BlobExists (path : string) (found : bool)
| WriteLocal (path : string) (df : frame)
| Upload (blob_path local_path : string)
| RemoveLocal (path : string) (removed : bool)
| SaveCheckpoint (path : string) (ckpt : pydict)
| WriteManifest (path : string) (manifest : pydict).

(** What an event does to the bucket, the staged parquet files and the
    clock. *)
Definition apply_event (w : world) (ev : event) : world :=
  match ev with
  | LoadCheckpoint _ | Find _ _ | BlobExists _ _ => w
  | WriteLocal path df =>
      mk_world (gcs w) (<[path := df]> (local_files w)) (log_files w) (clock_reads w)
  | Upload blob_path local_path =>
      match local_files w !! local_path with
      | Some df => mk_world (<[blob_path := ParquetBlob df]> (gcs w))
                            (local_files w) (log_files w) (clock_reads w)
      | None => w
      end
  | RemoveLocal path removed =>
      if removed
      then mk_world (gcs w) (delete path (local_files w)) (log_files w) (clock_reads w)
      else w
  | SaveCheckpoint path d | WriteManifest path d =>
      mk_world (<[path := JsonBlob d]> (gcs w)) (local_files w) (log_files w)
               (S (clock_reads w))
  end.

Definition apply_events (w : world) (evs : list event) : world :=
  foldl apply_event w evs.

(** [logging.FileHandler(log_path, mode="a")] and the records it
    appends: the file is created when absent, also when no record
    follows. *)
Definition append_log (log_path : string) (records : list log_record) (w : world)
  : world :=
  mk_world (gcs w) (local_files w)
           (<[log_path := (default [] (log_files w !! log_path) ++ records)%list]>
              (log_files w))
           (clock_reads w).

(** [int(x)] on what a checkpoint holds; a value it does not take over
    is [None]. *)
Definition py_int (x : pyval) : option Z :=
  match x with
  | VInt z => Some z
  | VBool b => Some (if b then 1 else 0)
  | _ => None
  end.

(** [d.get(k, default)] *)
Definition get_default (d : pydict) (k : string) (default : pyval) : pyval :=
  match dict_get d k with
  | Some v => v
  | None => default
  end.

(** [s.rstrip("/")] *)
Definition rstrip_slash (s : string) : string :=
  Text.rstrip_by (fun c => Ascii.eqb c "/") s.

(** [f"{n:06d}"] *)
Definition format_06d (n : Z) : string :=
  if (n <? 0)%Z then "-" ++ pad0 5 (- n) else pad0 6 n.

(** [os.path.join(d, name)] *)
Definition path_join (d name : string) : string :=
  if String.eqb d "" then name
  else if Text.endswith d "/" then d ++ name
  else d ++ "/" ++ name.

Record loop_state := mk_state {
  chunk_idx : Z;
  exported_docs : Z;
  last_sort_value : pyval }.

(** One turn of [while True]: the state it started from, what it did,
    and the state it went on with ([None]: it left the loop). *)
Record turn := mk_turn {
  before : loop_state;
  effects : list event;
  after : option loop_state }.

Inductive ending :=
| Finished
| StillRunning
| Failed (why : string).

(** What a run did: the state it resumed from, the turns of its loop,
    the manifest upload, how it ended, and the file and the records of
    its log. *)
Record run := mk_run {
  loaded : option loop_state;
  turns : list turn;
  manifest_written : list event;
  ended : ending;
  log_file : string;
  logged : list log_record }.

Section WithConfig.
Context {rt : PyRuntime} (cfg : config) (env : environment).

Definition run_prefix : string :=
  rstrip_slash (GCS_PREFIX cfg) ++ "/run_id=" ++ RUN_ID cfg ++ "/db=" ++ MONGO_DB cfg
  ++ "/collection=" ++ MONGO_COLLECTION cfg.

Definition checkpoint_blob_path : string := run_prefix ++ "/_checkpoint.json".
Definition manifest_blob : string := run_prefix ++ "/manifest.json".
Definition part_name (idx : Z) : string := "part-" ++ format_06d idx ++ ".parquet".
Definition part_blob_path (idx : Z) : string := run_prefix ++ "/" ++ part_name idx.
Definition part_local_path (idx : Z) : string :=
  path_join (LOCAL_TMP_DIR cfg) (part_name idx).

Definition blob_exists (w : world) (blob_path : string) : bool :=
  bool_decide (is_Some (gcs w !! blob_path)).

(** [None]: the blob is no JSON object. *)
Definition load_checkpoint (w : world) : option pydict :=
  match gcs w !! checkpoint_blob_path with
  | None =>
      Some [ ("chunk_idx", VInt 0); ("exported_docs", VInt 0);
             ("last_sort_value", VDict (encode_sort_value VNone)) ]
  | Some (JsonBlob d) => Some d
  | Some (ParquetBlob _) => None
  end.

(** The three values read off the checkpoint; [None]: one of the
    conversions raises. *)
Definition resume_state (ckpt : pydict) : option loop_state :=
  match py_int (get_default ckpt "chunk_idx" (VInt 0)),
        py_int (get_default ckpt "exported_docs" (VInt 0)),
        get_default ckpt "last_sort_value" (VDict (encode_sort_value VNone)) with
  | Some idx, Some n, VDict payload =>
      match decode_sort_value payload with
      | Some v => Some (mk_state idx n v)
      | None => None
      end
  | _, _, _ => None
  end.

(** [cursor.limit(n)]: zero is no limit, a negative bound counts as its
    absolute value. *)
Definition limit (n : Z) (l : list pydict) : list pydict :=
  if (n =? 0)%Z then l else firstn (Z.abs_nat n) l.

(** [list(col.find(query).sort(SORT_FIELD, 1).limit(BATCH_SIZE))] with
    [query] being [{SORT_FIELD: {"$gt": last}}], or [{}] when [last] is
    [None]. *)
Definition find (last : pyval) : list pydict :=
  limit (BATCH_SIZE cfg)
    (match last with
     | VNone => collection env
     | _ => List.filter (fun d => bson_gt env (get d (SORT_FIELD cfg)) last)
                        (collection env)
     end).

Definition checkpoint_dict (st : loop_state) (now : datetime) : pydict :=
  [ ("chunk_idx", VInt (chunk_idx st));
    ("exported_docs", VInt (exported_docs st));
    ("last_sort_value", VDict (encode_sort_value (last_sort_value st)));
    ("updated_utc", VStr (isoformat now)) ].

(** [MAX_DOCS and exported_docs >= MAX_DOCS] *)
Definition cap_reached (st : loop_state) : bool :=
  negb (MAX_DOCS cfg =? 0)%Z && (MAX_DOCS cfg <=? exported_docs st)%Z.

(** [batch[-1].get(SORT_FIELD)] *)
Definition last_key (batch : list pydict) : pyval :=
  get (List.last batch []) (SORT_FIELD cfg).

(** The state the loop goes on with after exporting [batch]. *)
Definition advance (st : loop_state) (batch : list pydict) : loop_state :=
  mk_state (chunk_idx st + 1)
           (exported_docs st + Z.of_nat (List.length batch))
           (last_key batch).

(** The body of the loop, run in the world [w]. *)
Definition iteration (st : loop_state) (w : world) : turn :=
  if cap_reached st then mk_turn st [] None
  else
    let batch := find (last_sort_value st) in
    let query := Find (last_sort_value st) batch in
    match batch with
    | [] => mk_turn st [query] None
    | _ :: _ =>
        let st' := advance st batch in
        let blob_path := part_blob_path (chunk_idx st') in
        let local_path := part_local_path (chunk_idx st') in
        let save :=
          SaveCheckpoint checkpoint_blob_path
                         (checkpoint_dict st' (clock env (clock_reads w))) in
        if blob_exists w blob_path then
          mk_turn st [query; BlobExists blob_path true; save] (Some st')
        else
          mk_turn st
            [ query; BlobExists blob_path false;
              WriteLocal local_path (fst (Normalizer.write_parquet_chunk batch));
              Upload blob_path local_path;
              RemoveLocal local_path (can_remove env local_path);
              save ]
            (Some st')
    end.

(** The calls of [logging] in the body of the loop, by the branch it
    takes: the warning at the cap, the end of the documents, the skip of
    an existing part, or the upload, with the progress line after every
    tenth chunk. *)
Definition iteration_log (st : loop_state) (w : world) : list log_record :=
  if cap_reached st then [LogReachedMax (MAX_DOCS cfg)]
  else
    let batch := find (last_sort_value st) in
    match batch with
    | [] => [LogNoMore]
    | _ :: _ =>
        let st' := advance st batch in
        let blob_path := part_blob_path (chunk_idx st') in
        if blob_exists w blob_path then [LogSkip blob_path]
        else
          LogUploading (chunk_idx st') (snd (Normalizer.write_parquet_chunk batch)) blob_path
          :: (if (chunk_idx st' mod 10 =? 0)%Z
              then [LogProgress (chunk_idx st') (exported_docs st')]
              else [])
    end.

(** The loop, observed for at most [fuel] turns: the turns taken and
    whether the loop was left. *)
Fixpoint export_loop (fuel : nat) (st : loop_state) (w : world) : list turn * bool :=
  match fuel with
  | O => ([], false)
  | S fuel' =>
      let t := iteration st w in
      match after t with
      | None => ([t], true)
      | Some st' =>
          let (ts, left) := export_loop fuel' st' (apply_events w (effects t)) in
          (t :: ts, left)
      end
  end.

(** What the turns of [export_loop] log. *)
Fixpoint export_loop_log (fuel : nat) (st : loop_state) (w : world) : list log_record :=
  match fuel with
  | O => []
  | S fuel' =>
      let t := iteration st w in
      (iteration_log st w
       ++ match after t with
          | None => []
          | Some st' => export_loop_log fuel' st' (apply_events w (effects t))
          end)%list
  end.

Definition trace_of (ts : list turn) : list event := concat (map effects ts).

(** The state the loop was left in, or is in. *)
Definition final_state (st : loop_state) (ts : list turn) : loop_state :=
  foldl (fun s t => match after t with Some s' => s' | None => s end) st ts.

Definition manifest_dict (st : loop_state) (started ended : datetime) : pydict :=
  [ ("run_id", VStr (RUN_ID cfg));
    ("db", VStr (MONGO_DB cfg));
    ("collection", VStr (MONGO_COLLECTION cfg));
    ("chunks", VInt (chunk_idx st));
    ("exported_docs", VInt (exported_docs st));
    ("batch_size", VInt (BATCH_SIZE cfg));
    ("max_docs", VInt (MAX_DOCS cfg));
    ("sort_field", VStr (SORT_FIELD cfg));
    ("started_utc", VStr (isoformat started));
    ("ended_utc", VStr (isoformat ended)) ].

(** [start_ts = time.time()]: one reading of the clock before the loop. *)
Definition start_clock (w : world) : world :=
  mk_world (gcs w) (local_files w) (log_files w) (S (clock_reads w)).

(** [setup_logging()]: the log file of the run, in the staging
    directory, and the first record. *)
Definition log_path : string := path_join (LOCAL_TMP_DIR cfg) "export_to_gcs.log".

Definition setup_logging : list log_record := [LogFile log_path].

(** The records that pass the level of the root logger. *)
Definition emitted (records : list log_record) : list log_record :=
  List.filter (fun r => (LOG_LEVEL cfg <=? levelno r)%Z) records.

Definition export_to_gcs (fuel : nat) (w : world) : run :=
  let log0 := setup_logging in
  if String.eqb (GCS_BUCKET cfg) "" then
    mk_run None [] [] (Failed "ERROR: Set env var GCS_BUCKET.") log_path (emitted log0)
  else
    let log1 :=
      (log0 ++ [ LogRunId (RUN_ID cfg); LogTarget (GCS_BUCKET cfg) run_prefix;
                 LogSettings (BATCH_SIZE cfg) (MAX_DOCS cfg) (SORT_FIELD cfg);
                 LogConnectingGCS ])%list in
    match load_checkpoint w with
    | None =>
        mk_run None [] [] (Failed "checkpoint is not a JSON object") log_path (emitted log1)
    | Some ckpt =>
        match resume_state ckpt with
        | None =>
            mk_run None [] [] (Failed "checkpoint cannot be read") log_path (emitted log1)
        | Some st =>
            let log2 :=
              (log1 ++ [ LogResume (chunk_idx st) (exported_docs st) (last_sort_value st);
                         LogConnectingMongo; LogPingOK ])%list in
            let started := clock env (clock_reads w) in
            let w1 := start_clock w in
            let (ts, left) := export_loop fuel st w1 in
            let log3 := (log2 ++ export_loop_log fuel st w1)%list in
            if left then
              let st' := final_state st ts in
              let w2 := apply_events w1 (trace_of ts) in
              mk_run (Some st) ts
                [ WriteManifest manifest_blob
                    (manifest_dict st' started (clock env (clock_reads w2))) ]
                Finished log_path
                (emitted (log3 ++ [ LogDone (chunk_idx st') (exported_docs st') manifest_blob;
                                    LogClosed ])%list)
            else mk_run (Some st) ts [] StillRunning log_path (emitted log3)
        end
    end.

(** Everything a run did, in order. *)
Definition run_trace (r : run) : list event :=
  (LoadCheckpoint checkpoint_blob_path :: trace_of (turns r) ++ manifest_written r)%list.

(** The world a run leaves: what its events did to the bucket and the
    staged files, and its records at the end of its log file. *)
Definition world_after (w : world) (r : run) : world :=
  append_log (log_file r) (logged r)
    (apply_events (start_clock w) (trace_of (turns r) ++ manifest_written r)%list).

(** The chunk index the checkpoint of a world records. *)
Definition checkpoint_index (w : world) : option Z :=
  match load_checkpoint w with
  | Some ckpt => py_int (get_default ckpt "chunk_idx" (VInt 0))
  | None => None
  end.

(** The checkpoint is not ahead of the durable chunks: every index up to
    the recorded one has its blob. *)
Definition durable (w : world) : Prop :=
  forall k, checkpoint_index w = Some k ->
    forall i, 1 <= i <= k -> is_Some (gcs w !! part_blob_path i).

End WithConfig.

End Orchestrator.

(** ** A small collection for the examples of the export

    Five documents with the integers 1 to 5 as [_id], exported in batches
    of two. *)
Module ExportScenario.
Import Py Pandas Orchestrator.

Definition document (k : Z) : pydict := [("_id", VInt k); ("name", VStr "x")].

Definition five_documents : list pydict :=
  [document 1; document 2; document 3; document 4; document 5].

(** [$gt] on two integers; values of other kinds do not compare. *)
Definition int_gt (a b : pyval) : bool :=
  match a, b with
  | VInt x, VInt y => (y <? x)%Z
  | _, _ => false
  end.

(** The clock: the [n]-th reading is [n] seconds past noon. *)
Definition seconds_past_noon (n : nat) : datetime :=
  mk_datetime 2024 3 5 12 0 (Z.of_nat n) 0.

Definition env : environment :=
  mk_environment five_documents int_gt (fun _ => true) seconds_past_noon.

Definition cfg (max_docs : Z) : config :=
  mk_config "countly" "summary" "_id" 2 max_docs "/tmp/mongo_export" 20
            "bkt" "exports/mongo_parquet" "r1".

Definition empty_world : world := mk_world ∅ ∅ ∅ 0.

Definition export (max_docs : Z) (fuel : nat) (w : world) : run :=
  @export_to_gcs Scenario.example_runtime (cfg max_docs) env fuel w.

Definition after_export (max_docs : Z) (fuel : nat) (w : world) : world :=
  world_after w (export max_docs fuel w).

(** The world a crash leaves right after the upload of the first chunk:
    the blob is there, the local file too, the checkpoint is not, and
    the log ends with the record of the upload. *)
Definition crashed_after_first_upload : world :=
  append_log (log_file (export 0 1 empty_world)) (logged (export 0 1 empty_world))
    (apply_events (start_clock empty_world)
       (firstn 4 (trace_of (turns (export 0 1 empty_world))))).

End ExportScenario.

(** ** What a trace shows of the documents *)
Module ExportTrace.
Import Py Orchestrator.

(** The documents the queries of a trace returned, in order. *)
Definition documents_read (evs : list event) : list pydict :=
  concat (map (fun ev => match ev with Find _ batch => batch | _ => [] end) evs).

End ExportTrace.

(** ** Further examples

    For the export: the five documents with a staging directory whose
    files cannot be removed, a collection of two documents that have no
    [_id], and two configurations whose batch size is not positive.  For
    the drift pass: the bucket of the examples once both chunks have
    their copy under [fixed/run/], runs that sample no file, all files
    but the last, or test the progress against zero, and a file system
    that refuses one read. *)
Module EdgeScenario.
Import Py Pandas Retry Drift Orchestrator.

Definition env_keeping_files : environment :=
  mk_environment ExportScenario.five_documents ExportScenario.int_gt (fun _ => false)
                 ExportScenario.seconds_past_noon.

Definition keyless_documents : list pydict :=
  [ [("name", VStr "a")]; [("name", VStr "b")] ].

Definition env_keyless : environment :=
  mk_environment keyless_documents ExportScenario.int_gt (fun _ => true)
                 ExportScenario.seconds_past_noon.

Definition bucket_done : gcsfs (coldata := DriftScenario.cells) :=
  mk_gcsfs (<[DriftScenario.fixed2 := Parquet DriftScenario.table2]>
              (objects DriftScenario.bucket_before))
           0 [].

Definition no_sample_args : arguments :=
  mk_arguments "bkt" "exports/run" "fixed/run" 0 false 200 "n" "" true.

(** The export of the example with [MAX_DOCS=3] and [BATCH_SIZE=0], and
    with [BATCH_SIZE=-2]; a run of either from the empty bucket. *)
Definition cfg_unbatched : config :=
  mk_config "countly" "summary" "_id" 0 3 "/tmp/mongo_export" 20
            "bkt" "exports/mongo_parquet" "r1".

Definition cfg_negative_batch : config :=
  mk_config "countly" "summary" "_id" (-2) 3 "/tmp/mongo_export" 20
            "bkt" "exports/mongo_parquet" "r1".

Definition export_with (cfg : config) : run :=
  @export_to_gcs Scenario.example_runtime cfg ExportScenario.env 10
                 ExportScenario.empty_world.

(** A run with [--log_every 0]. *)
Definition log_every_zero_args : arguments :=
  mk_arguments "bkt" "exports/run" "fixed/run" 300 false 0 "" "" false.

(** A run with [--sample_size -1]. *)
Definition negative_sample_args : arguments :=
  mk_arguments "bkt" "exports/run" "fixed/run" (-1) false 200 "" "" false.

(** A file system whose second operation is refused, with an error that
    [with_retries] does not retry. *)
Definition second_operation_refused (n : nat) : fault :=
  if (n =? 1)%nat then Fails (mk_exception Forbidden "403 Forbidden") else Works.

End EdgeScenario.

(** * Properties *)

(** ** Record Normalizer *)
Module NormalizerFacts.
Import Py Pandas Normalizer.

Lemma text_cells_no_conflict (cells : list pyval) :
  forallb text_or_null cells = true -> no_conflict cells = true.
Proof.
  induction cells as [|x r IH]; simpl; [reflexivity|].
  intros H. apply andb_prop in H as [Hx Hr].
  rewrite (IH Hr), andb_true_r.
  apply forallb_forall. intros y Hy.
  assert (Hty : text_or_null y = true)
    by (rewrite forallb_forall in Hr; apply Hr; exact Hy).
  destruct x; try discriminate Hx; destruct y; try discriminate Hty; reflexivity.
Qed.

Lemma cell_text_or_null (o : option string) : text_or_null (cell o) = true.
Proof. destruct o; reflexivity. Qed.

Section WithRuntime.
Context {rt : PyRuntime}.

Lemma map_column_text (cells : list pyval) :
  text_column (map_column (SObject cells)) = true.
Proof.
  simpl. apply forallb_forall. intros y Hy.
  apply in_map_iff in Hy as [x [<- _]]. apply cell_text_or_null.
Qed.

Lemma _jsonify_scalar_None (x : pyval) :
  _jsonify_scalar x = None <-> x = VNone \/ pd_isna x = Some true.
Proof.
  split.
  - intros H. unfold _jsonify_scalar in H.
    destruct (pd_isna x) as [[|]|] eqn:E; [right; reflexivity | |];
      destruct x; try discriminate H; left; reflexivity.
  - intros [-> | H]; [reflexivity|].
    unfold _jsonify_scalar. rewrite H. destruct x; reflexivity.
Qed.

End WithRuntime.

(** C3 (as amended): [normalize_df_for_parquet] keeps the row count, the
    column names and their order; it leaves every column of a native dtype
    as it is, and maps every column of dtype [object] through
    [_jsonify_scalar], after which each of its cells is text or null; a
    cell becomes null exactly when it was [None] or missing in the sense
    of [pd.isna]; the normalized frame has no type conflict in any
    column. *)
Theorem normalize_df_for_parquet_columns (rt : PyRuntime) (df : frame) :
  let df' := normalize_df_for_parquet df in
  f_len df' = f_len df /\
  map fst (f_columns df') = map fst (f_columns df) /\
  Forall2 (fun c c' : string * series =>
             match snd c with
             | SObject cells =>
                 snd c' = SObject (map (fun x => cell (_jsonify_scalar x)) cells)
                 /\ text_column (snd c') = true
             | s => snd c' = s
             end) (f_columns df) (f_columns df') /\
  (forall x, _jsonify_scalar x = None <-> x = VNone \/ pd_isna x = Some true) /\
  to_parquet_ok df' = true.
Proof.
  destruct df as [n cols]. cbv zeta. unfold normalize_df_for_parquet. simpl.
  split; [reflexivity|].
  split; [|split; [|split; [apply _jsonify_scalar_None|]]].
  - induction cols as [|[name s] r IH]; simpl; [reflexivity|].
    rewrite IH. destruct s; reflexivity.
  - induction cols as [|[name s] r IH]; simpl; constructor; try exact IH.
    destruct s; simpl; try reflexivity.
    split; [reflexivity|]. apply (map_column_text cells).
  - unfold to_parquet_ok. simpl. apply forallb_forall.
    intros c Hc. apply in_map_iff in Hc as [[name s] [<- _]].
    destruct s; simpl; try reflexivity.
    apply text_cells_no_conflict. apply (map_column_text cells).
Qed.

(** Whatever the runtime, a native integer column is left numeric. *)
Lemma native_column_kept (rt : PyRuntime) (n : Z) (name : string) (xs : list Z) :
  normalize_df_for_parquet (mk_frame n [(name, SInt64 xs)])
  = mk_frame n [(name, SInt64 xs)].
Proof. reflexivity. Qed.

(** C3 as stated fails: two records with the integers 1 and 2 under [n]
    give an [int64] column, which the normalizer writes as integers, not
    as text. *)
Lemma integer_column_is_not_text :
  @write_parquet_chunk Scenario.example_runtime Scenario.two_rows
  = (mk_frame 2 [("n", SInt64 [1; 2]); ("tag", SObject [VStr "a"; VStr "b"])], 2)
  /\ forallb (fun c : string * series => text_column (snd c))
       (f_columns (fst (@write_parquet_chunk Scenario.example_runtime Scenario.two_rows)))
     = false.
Proof. split; vm_compute; reflexivity. Qed.

End NormalizerFacts.

(** ** Checkpoint payload *)
Module CheckpointFacts.
Import Py Checkpoint.

Lemma bytes_fromhex_hex_byte (b : byte) (s : string) :
  bytes_fromhex (hex_byte b ++ s) = option_map (cons b) (bytes_fromhex s).
Proof.
  destruct b; reflexivity.
Qed.

Lemma bytes_fromhex_hex (bs : list byte) : bytes_fromhex (bytes_hex bs) = Some bs.
Proof.
  induction bs as [|b r IH]; [reflexivity|].
  cbn [bytes_hex]. rewrite bytes_fromhex_hex_byte, IH. reflexivity.
Qed.

Lemma length_bytes_hex (bs : list byte) :
  String.length (bytes_hex bs) = (2 * List.length bs)%nat.
Proof.
  induction bs as [|b r IH]; [reflexivity|].
  change (String.length (bytes_hex (b :: r)))
    with (S (S (String.length (bytes_hex r)))).
  rewrite IH. cbn [List.length]. lia.
Qed.

Lemma ObjectId_str (oid : list byte) :
  List.length oid = 12%nat -> ObjectId (VStr (str_ObjectId oid)) = Some oid.
Proof.
  intros H. unfold ObjectId, str_ObjectId.
  rewrite length_bytes_hex, H. simpl. apply bytes_fromhex_hex.
Qed.

Lemma restorable_decode_encode (rt : PyRuntime) (v : pyval) :
  restorable v -> decode_sort_value (encode_sort_value v) = Some v.
Proof.
  intros (Hs & Hd & Hw). destruct v; try discriminate Hs; try discriminate Hd;
    try reflexivity.
  simpl in Hw.
  change (decode_sort_value (encode_sort_value (VObjectId oid)))
    with (option_map VObjectId (ObjectId (VStr (str_ObjectId oid)))).
  rewrite (ObjectId_str oid Hw). reflexivity.
Qed.

(** C4 (as amended): for a sort value of a supported kind other than a
    timestamp, decoding its encoded payload gives the value back; for a
    timestamp, decoding gives the ISO-8601 UTC text of it, a string. *)
Theorem decode_encode_sort_value (rt : PyRuntime) (v : pyval) :
  supported v = true -> well_formed v ->
  decode_sort_value (encode_sort_value v)
  = Some (match v with
          | VDatetime d => VStr (isoformat d)
          | _ => v
          end).
Proof.
  intros Hs Hw. destruct v; try discriminate Hs; try reflexivity.
  simpl in Hw.
  change (decode_sort_value (encode_sort_value (VObjectId oid)))
    with (option_map VObjectId (ObjectId (VStr (str_ObjectId oid)))).
  rewrite (ObjectId_str oid Hw). reflexivity.
Qed.

Lemma decode_encode_sort_value_witness :
  supported (VObjectId Scenario.an_oid) = true
  /\ well_formed (VObjectId Scenario.an_oid)
  /\ decode_sort_value (@encode_sort_value Scenario.example_runtime (VObjectId Scenario.an_oid))
     = Some (VObjectId Scenario.an_oid).
Proof.
  split; [reflexivity|]. split; [reflexivity|].
  apply (decode_encode_sort_value Scenario.example_runtime (VObjectId Scenario.an_oid));
    reflexivity.
Defined.

(** Whatever the runtime, a timestamp does not come back. *)
Lemma decode_encode_datetime (rt : PyRuntime) (d : datetime) :
  decode_sort_value (encode_sort_value (VDatetime d)) = Some (VStr (isoformat d)).
Proof. reflexivity. Qed.

(** C4 as stated fails for a timestamp: the payload of 2024-03-05 07:08:09
    UTC decodes to the string ["2024-03-05T07:08:09+00:00"]. *)
Lemma datetime_sort_value_decodes_to_text :
  decode_sort_value
    (@encode_sort_value Scenario.example_runtime (VDatetime Scenario.a_datetime))
  = Some (VStr "2024-03-05T07:08:09+00:00")
  /\ decode_sort_value
       (@encode_sort_value Scenario.example_runtime (VDatetime Scenario.a_datetime))
     <> Some (VDatetime Scenario.a_datetime).
Proof. split; [reflexivity | discriminate]. Qed.

End CheckpointFacts.

(** ** Retries *)
Module RetryFacts.
Import Retry.

Lemma _retry_predicate_classes (e : exception) :
  _retry_predicate e = true <->
  In (exc_type e)
     [ TooManyRequests; ResourceExhausted; ServiceUnavailable; InternalServerError;
       BadGateway; GatewayTimeout; DeadlineExceeded; RequestTimeout ].
Proof.
  destruct e as [c s]. unfold _retry_predicate, isinstance. simpl exc_type.
  split.
  - destruct c; simpl; intros H; try discriminate H; tauto.
  - intros H. simpl in H.
    repeat (destruct H as [<- | H]; [reflexivity|]). destruct H.
Qed.

Section Driver.
Context {A : Type} (p : Retry) (target : nat -> outcome A)
        (uniform clock : nat -> Q) (started : Q).

(** The attempt [j] failed with an error of the predicate and its delay
    ended before the deadline. *)
Definition retried (j : nat) : Prop :=
  exists e, target j = Raised e /\ predicate p e = true
            /\ (clock j + uniform j * delay_bound p j <= started + deadline p)%Q.

Lemma retry_target_calls (observed k : nat) :
  forall j, (k <= j)%nat ->
    (S j < k + calls (retry_target observed p target uniform clock started k))%nat ->
    retried j.
Proof.
  revert k. induction observed as [|n IH]; intros k j Hk Hj; simpl in Hj; [lia|].
  destruct (target k) as [a|e] eqn:Et; simpl in Hj; [lia|].
  destruct (predicate p e) eqn:Ep; simpl in Hj; [|lia].
  destruct (Qlt_le_dec _ _) as [Hd|Hd]; simpl in Hj; [lia|].
  destruct (Nat.eq_dec j k) as [->|Hne].
  - exists e. auto.
  - apply (IH (S k)); lia.
Qed.

Lemma retry_target_last (observed k : nat) (o : outcome A) :
  let r := retry_target observed p target uniform clock started k in
  result r = Some o ->
  (1 <= calls r)%nat /\ target (k + calls r - 1)%nat = o /\
  match o with
  | Returned _ => True
  | Raised e =>
      predicate p e = false \/
      (started + deadline p
       < clock (k + calls r - 1)%nat
         + uniform (k + calls r - 1)%nat * delay_bound p (k + calls r - 1)%nat)%Q
  end.
Proof.
  cbv zeta. revert k. induction observed as [|n IH]; intros k; simpl; [discriminate|].
  destruct (target k) as [a|e] eqn:Et.
  - simpl. intros [= <-]. replace (k + 1 - 1)%nat with k by lia. auto.
  - destruct (predicate p e) eqn:Ep; simpl.
    + destruct (Qlt_le_dec _ _) as [Hd|Hd]; simpl.
      * intros [= <-]. replace (k + 1 - 1)%nat with k by lia. auto.
      * intros H. destruct (IH (S k) H) as (Hc & Ht & Ho).
        replace (k + S (calls (retry_target n p target uniform clock started (S k))) - 1)%nat
          with (S k + calls (retry_target n p target uniform clock started (S k)) - 1)%nat
          by lia.
        split; [lia|]. auto.
    + intros [= <-]. replace (k + 1 - 1)%nat with k by lia. auto.
Qed.

(** No bound on the attempts: while every attempt fails inside the
    predicate and before the deadline, the driver keeps calling. *)
Lemma retry_target_keeps_trying (observed k : nat) :
  (forall j, (k <= j < k + observed)%nat -> retried j) ->
  let r := retry_target observed p target uniform clock started k in
  result r = None /\ calls r = observed.
Proof.
  cbv zeta. revert k. induction observed as [|n IH]; intros k H; simpl; [auto|].
  destruct (H k ltac:(lia)) as (e & Et & Ep & Hd).
  rewrite Et, Ep. simpl.
  destruct (Qlt_le_dec _ _) as [Hd'|Hd'].
  - exfalso. apply (Qlt_not_le _ _ Hd'). exact Hd.
  - simpl. destruct (IH (S k)) as [Hr Hc]; [intros j Hj; apply H; lia|].
    rewrite Hr, Hc. auto.
Qed.

End Driver.

Section WithRetries.
Context {St A : Type} (fn : St -> outcome A * St) (random : nat -> Q)
        (attempts : nat) (base_sleep max_sleep : Q).

Local Notation "'loop'" := (with_retries_loop fn random attempts base_sleep max_sleep).

(** An error that [with_retries] answers with a sleep and another call. *)
Definition retryable (o : outcome A) : Prop :=
  exists e, o = Raised e /\ is_retryable_error e = true.

Lemma with_retries_loop_calls (n a : nat) (s : St) :
  (List.length (outcomes (fst (loop n a s))) <= n)%nat.
Proof.
  revert a s. induction n as [|n IH]; intros a s; simpl; [lia|].
  destruct (fn s) as [[v|e] s1]; simpl; [lia|].
  destruct (negb _ || _); simpl; [lia|].
  specialize (IH (S a) s1). destruct (loop n (S a) s1) as [r s2]. simpl in *. lia.
Qed.

Lemma with_retries_loop_outcomes (n a : nat) (s : St) :
  (a + n = S attempts)%nat -> (1 <= n)%nat ->
  let r := fst (loop n a s) in
  exists retried last,
    outcomes r = (retried ++ [last])%list /\
    Forall retryable retried /\
    (a + List.length retried <= attempts)%nat /\
    match last with
    | Returned v => final r = Returned (Some v)
    | Raised e =>
        final r = Raised e /\
        (is_retryable_error e = false \/ (a + List.length retried)%nat = attempts)
    end.
Proof.
  cbv zeta. revert a s. induction n as [|n IH]; intros a s Han Hn; [lia|]. simpl.
  destruct (fn s) as [[v|e] s1]; simpl.
  - exists [], (Returned v). simpl. repeat split; [constructor | lia].
  - destruct (negb (is_retryable_error e) || (a =? attempts)%nat) eqn:Ec; simpl.
    + exists [], (Raised e). simpl. repeat split; [constructor | lia |].
      apply orb_prop in Ec as [Er|Ea].
      * left. apply negb_true_iff. exact Er.
      * right. apply Nat.eqb_eq in Ea. lia.
    + apply orb_false_elim in Ec as [Er Ea].
      apply negb_false_iff in Er. apply Nat.eqb_neq in Ea.
      destruct (IH (S a) s1 ltac:(lia) ltac:(lia))
        as (retried & last & Ho & Hr & Hl & Hf).
      destruct (loop n (S a) s1) as [r s2]. simpl in *.
      exists (Raised e :: retried), last. simpl.
      split; [rewrite Ho; reflexivity|].
      split; [constructor; [exists e; auto | exact Hr]|].
      split; [lia|].
      destruct last as [v|e']; [exact Hf|].
      destruct Hf as [Hf Hc]. split; [exact Hf|].
      destruct Hc as [Hc|Hc]; [left; exact Hc | right; lia].
Qed.

Lemma with_retries_loop_slept (n a : nat) (s : St) :
  let r := fst (loop n a s) in
  slept r = map (fun j => backoff base_sleep max_sleep j (random j))
                (seq a (List.length (slept r))).
Proof.
  cbv zeta. revert a s. induction n as [|n IH]; intros a s; simpl; [reflexivity|].
  destruct (fn s) as [[v|e] s1]; simpl; [reflexivity|].
  destruct (negb _ || _); simpl; [reflexivity|].
  specialize (IH (S a) s1).
  destruct (loop n (S a) s1) as [r s2]. simpl in *.
  f_equal. exact IH.
Qed.

(** From [a] on with [n] values left up to [attempts], every call but the
    last is followed by one sleep. *)
Lemma with_retries_loop_sleep_count (n a : nat) (s : St) :
  (a + n = S attempts)%nat -> (1 <= n)%nat ->
  let r := fst (loop n a s) in
  S (List.length (slept r)) = List.length (outcomes r).
Proof.
  cbv zeta. revert a s. induction n as [|n IH]; intros a s Han Hn; [lia|]. simpl.
  destruct (fn s) as [[v|e] s1]; simpl; [reflexivity|].
  destruct (negb (is_retryable_error e) || (a =? attempts)%nat) eqn:Ec; simpl;
    [reflexivity|].
  apply orb_false_elim in Ec as [_ Ea]. apply Nat.eqb_neq in Ea.
  specialize (IH (S a) s1 ltac:(lia) ltac:(lia)).
  destruct (loop n (S a) s1) as [r s2]. simpl in *.
  f_equal. exact IH.
Qed.

End WithRetries.

Lemma delay_bound_retry (d : Z) (k : nat) :
  (delay_bound (retry d) k == Qmin (inject_Z (2 ^ Z.of_nat k)) 60)%Q.
Proof.
  induction k as [|k IH].
  - simpl. destruct (Q.min_spec 1 60) as [[_ ->]|[H _]]; [|lra].
    change (inject_Z (2 ^ Z.of_nat 0)) with 1%Q.
    destruct (Q.min_spec 1 60) as [[_ ->]|[H _]]; lra.
  - cbn [delay_bound]. cbn [multiplier maximum retry].
    assert (E : (inject_Z (2 ^ Z.of_nat (S k)) == 2 * inject_Z (2 ^ Z.of_nat k))%Q).
    { rewrite Nat2Z.inj_succ, Z.pow_succ_r by lia. rewrite inject_Z_mult. reflexivity. }
    assert (P : (0 < inject_Z (2 ^ Z.of_nat k))%Q).
    { change 0%Q with (inject_Z 0). rewrite <- Zlt_Qlt. apply Z.pow_pos_nonneg; lia. }
    destruct (Q.min_spec (inject_Z (2 ^ Z.of_nat k)) 60) as [[H1 H2]|[H1 H2]];
    destruct (Q.min_spec (inject_Z (2 ^ Z.of_nat (S k))) 60) as [[H3 H4]|[H3 H4]];
    destruct (Q.min_spec (2 * delay_bound (retry d) k) 60) as [[H5 H6]|[H5 H6]];
    rewrite ?H4, ?H6; rewrite H2 in IH; lra.
Qed.

Lemma backoff_bounds (base_sleep max_sleep random : Q) (a : nat) :
  (0 <= base_sleep)%Q -> (0 <= max_sleep)%Q -> (0 <= random <= 1)%Q ->
  let m := Qmin max_sleep (base_sleep * inject_Z (2 ^ Z.of_nat (a - 1))) in
  ((7 # 10) * m <= backoff base_sleep max_sleep a random <= (13 # 10) * m)%Q.
Proof.
  intros Hb Hm [Hr0 Hr1]. cbv zeta. unfold backoff.
  set (m := Qmin _ _).
  assert (Hm0 : (0 <= m)%Q).
  { unfold m. apply Q.min_glb; [exact Hm|].
    apply Qmult_le_0_compat; [exact Hb|].
    change 0%Q with (inject_Z 0). rewrite <- Zle_Qle. apply Z.pow_nonneg. lia. }
  split; nra.
Qed.

(** C6 (as amended).  Export stage: the upload's policy retries exactly
    the errors of the seven listed classes (with their subclasses), draws
    each delay below a bound that starts at one second, doubles and is
    capped at sixty, retries an attempt only while its delay ends by the
    deadline counted from the first attempt, hands every other error on
    from the attempt that raised it, and has no bound on the number of
    attempts.  Normalization stage: [with_retries] makes between one and
    eight calls, retries only errors whose message contains one of the
    seven fixed substrings, hands on an error outside that list or the
    error of the eighth call at once, and sleeps after the failed call [a]
    for [min(60, 2 * 2^(a-1))] seconds scaled by a factor between 0.7 and
    1.3. *)
Theorem retry_policies (A St : Type) (GCS_RETRY_DEADLINE : Z)
    (target : nat -> outcome A) (uniform clock : nat -> Q)
    (started : Q) (observed : nat)
    (fn : St -> outcome A * St) (random : nat -> Q) (s : St) :
  let p := retry GCS_RETRY_DEADLINE in
  let r := retry_target observed p target uniform clock started 0 in
  let w := fst (with_retries fn random s) in
  (forall e, predicate p e = true <->
             In (exc_type e)
                [ TooManyRequests; ResourceExhausted; ServiceUnavailable;
                  InternalServerError; BadGateway; GatewayTimeout;
                  DeadlineExceeded; RequestTimeout ]) /\
  (forall k, (delay_bound p k == Qmin (inject_Z (2 ^ Z.of_nat k)) 60)%Q) /\
  (forall j, (S j < calls r)%nat -> retried p target uniform clock started j) /\
  (forall e, result r = Some (Raised e) ->
             target (calls r - 1)%nat = Raised e /\
             (predicate p e = false \/
              (started + inject_Z GCS_RETRY_DEADLINE
               < clock (calls r - 1)%nat
                 + uniform (calls r - 1)%nat * delay_bound p (calls r - 1)%nat)%Q)) /\
  ((forall j, (j < observed)%nat -> retried p target uniform clock started j) ->
   result r = None /\ calls r = observed) /\
  (exists tried last,
     outcomes w = (tried ++ [last])%list /\
     Forall retryable tried /\
     (List.length tried < 8)%nat /\
     match last with
     | Returned v => final w = Returned (Some v)
     | Raised e =>
         final w = Raised e /\
         (is_retryable_error e = false \/ List.length tried = 7%nat)
     end) /\
  slept w = map (fun a => backoff 2 60 a (random a))
                (seq 1 (List.length (outcomes w) - 1)) /\
  (forall a, (0 <= random a <= 1)%Q ->
     let m := Qmin 60 (2 * inject_Z (2 ^ Z.of_nat (a - 1))) in
     ((7 # 10) * m <= backoff 2 60 a (random a) <= (13 # 10) * m)%Q).
Proof.
  cbv zeta.
  split; [intros e; apply _retry_predicate_classes|].
  split; [intros k; apply delay_bound_retry|].
  split.
  { intros j Hj.
    apply (retry_target_calls (retry GCS_RETRY_DEADLINE) target uniform clock started
             observed 0 j); lia. }
  split.
  { intros e He.
    pose proof (retry_target_last (retry GCS_RETRY_DEADLINE) target uniform clock started
                  observed 0 (Raised e)) as L.
    cbv zeta in L. destruct (L He) as (Hc & Ht & Ho).
    replace (0 + calls (retry_target observed (retry GCS_RETRY_DEADLINE) target uniform
                          clock started 0) - 1)%nat
      with (calls (retry_target observed (retry GCS_RETRY_DEADLINE) target uniform
                          clock started 0) - 1)%nat in * by lia.
    split; [exact Ht | exact Ho]. }
  split.
  { intros H.
    apply (retry_target_keeps_trying (retry GCS_RETRY_DEADLINE) target uniform clock
             started observed 0).
    intros j Hj. apply H. lia. }
  split.
  { destruct (with_retries_loop_outcomes fn random 8 2 60 8 1 s eq_refl ltac:(lia))
      as (tried & last & Ho & Hr & Hl & Hf).
    exists tried, last. unfold with_retries.
    split; [exact Ho|]. split; [exact Hr|]. split; [lia|].
    destruct last as [v|e]; [exact Hf|].
    destruct Hf as [Hf Hc]. split; [exact Hf|].
    destruct Hc as [Hc|Hc]; [left; exact Hc | right; lia]. }
  split.
  { pose proof (with_retries_loop_slept fn random 8 2 60 8 1 s) as Hs.
    pose proof (with_retries_loop_sleep_count fn random 8 2 60 8 1 s eq_refl ltac:(lia))
      as Hc.
    cbv zeta in Hs, Hc. unfold with_retries.
    rewrite Hs at 1. rewrite <- Hc. simpl. rewrite Nat.sub_0_r. reflexivity. }
  intros a Ha. apply backoff_bounds; [lra | lra | exact Ha].
Qed.

(** C6 as stated fails in the normalization stage: a call that fails with
    ["Read timed out"] every time is given up after the eighth attempt,
    with less than four minutes slept and no deadline consulted, and an
    error whose only text is ["503 Service Unavailable"] is handed on
    from the first attempt although the condition is on the claim's
    list. *)
Lemma with_retries_counts_attempts :
  let timeout := mk_exception OSError "HTTPSConnectionPool: Read timed out." in
  let unavailable := mk_exception ServiceUnavailable "503 Service Unavailable" in
  let w := fst (with_retries (scripted (fun _ => @Raised unit timeout))
                  (fun _ => (1 # 2)%Q) 1%nat) in
  let u := fst (with_retries (scripted (fun _ => @Raised unit unavailable))
                  (fun _ => (1 # 2)%Q) 1%nat) in
  final w = Raised timeout /\ List.length (outcomes w) = 8%nat /\
  Qle_bool (fold_right Qplus 0%Q (slept w)) 240 = true /\
  _retry_predicate unavailable = true /\
  is_retryable_error unavailable = false /\
  final u = Raised unavailable /\ List.length (outcomes u) = 1%nat.
Proof. cbv zeta. repeat split; vm_compute; reflexivity. Qed.

End RetryFacts.

(** ** Schema drift detection and the rewrite pass *)
Module DriftFacts.
Import Retry RetryFacts Text Drift.
#[local] Set Warnings "-clear-no-such-hyp".

Lemma insert_sorted_perm x l : Permutation (x :: l) (insert_sorted x l).
Proof.
  induction l as [|y r IH]; simpl; [reflexivity|].
  destruct (String.leb x y); [reflexivity|].
  rewrite perm_swap. constructor. exact IH.
Qed.

Lemma sorted_perm l : Permutation l (sorted l).
Proof.
  induction l as [|x r IH]; simpl; [constructor|].
  rewrite <- insert_sorted_perm. constructor. exact IH.
Qed.

Lemma insert_sorted_Sorted x l : Sorted str_le l -> Sorted str_le (insert_sorted x l).
Proof.
  induction 1 as [|y r Hr IH Hy]; simpl; [repeat constructor|].
  destruct (String.leb x y) eqn:E.
  - constructor; [constructor; assumption | constructor; exact E].
  - constructor; [exact IH|].
    assert (Hyx : str_le y x).
    { destruct (String.leb_total x y) as [H|H]; [congruence | exact H]. }
    destruct r as [|z r']; simpl; [constructor; exact Hyx|].
    destruct (String.leb x z); constructor; [exact Hyx|].
    inversion Hy; assumption.
Qed.

Lemma sorted_Sorted l : Sorted str_le (sorted l).
Proof. induction l; simpl; [constructor | apply insert_sorted_Sorted; assumption]. Qed.

Lemma observe_all_concat excl schemas acc :
  foldl (fun observed sch => foldl (observe excl) observed sch) acc schemas
  = foldl (observe excl) acc (concat schemas).
Proof.
  revert acc. induction schemas as [|s r IH]; intros acc; simpl; [reflexivity|].
  rewrite IH. rewrite foldl_app. reflexivity.
Qed.

Lemma signatures_among_cons c f r :
  signatures_among c (f :: r)
  = if String.eqb (field_name f) c
    then {[arrow_type_key (field_type f)]} ∪ signatures_among c r
    else signatures_among c r.
Proof.
  unfold signatures_among. simpl. destruct (String.eqb (field_name f) c); reflexivity.
Qed.

Lemma observe_fold excl (fields : list field) (acc : gmap string (gset string)) (c : string) :
  foldl (observe excl) acc fields !! c
  = if decide (c ∈ excl) then acc !! c
    else if decide (signatures_among c fields = ∅ ) then acc !! c
    else Some (default ∅ (acc !! c) ∪ signatures_among c fields).
Proof.
  revert acc. induction fields as [|f r IH]; intros acc; simpl.
  - destruct (decide (c ∈ excl)); [reflexivity|].
    unfold signatures_among. simpl. rewrite decide_True by reflexivity. reflexivity.
  - rewrite IH, signatures_among_cons. destruct (decide (c ∈ excl)) as [Hc|Hc].
    + unfold observe. destruct (decide (field_name f ∈ excl)); [reflexivity|].
      rewrite lookup_insert_ne; [reflexivity|]. intros E. subst c. contradiction.
    + unfold observe.
      destruct (String.eqb_spec (field_name f) c) as [E|Hne].
      * subst c. rewrite (decide_False (P := field_name f ∈ excl)) by assumption.
        rewrite lookup_insert_eq. simpl.
        destruct (decide (signatures_among (field_name f) r = ∅)) as [E|E].
        -- rewrite E. rewrite decide_False by set_solver. f_equal. set_solver.
        -- rewrite decide_False by set_solver. f_equal. set_solver.
      * destruct (decide (field_name f ∈ excl)); [reflexivity|].
        rewrite lookup_insert_ne by assumption. reflexivity.
Qed.

Section Rel.
Context {St A : Type} (fn fn' : St -> outcome A * St) (random : nat -> Q)
        (attempts : nat) (base_sleep max_sleep : Q) (R : St -> St -> Prop).
Hypothesis fn_R : forall s s', R s s' ->
  fst (fn s) = fst (fn' s') /\ R (snd (fn s)) (snd (fn' s')).

Lemma with_retries_loop_rel (n a : nat) (s s' : St) :
  R s s' ->
  fst (with_retries_loop fn random attempts base_sleep max_sleep n a s)
  = fst (with_retries_loop fn' random attempts base_sleep max_sleep n a s')
  /\ R (snd (with_retries_loop fn random attempts base_sleep max_sleep n a s))
       (snd (with_retries_loop fn' random attempts base_sleep max_sleep n a s')).
Proof.
  revert a s s'. induction n as [|n IH]; intros a s s' H; simpl; [auto|].
  destruct (fn_R s s' H) as [Ho Hs].
  destruct (fn s) as [o s1], (fn' s') as [o' s1']. simpl in Ho, Hs. subst o'.
  destruct o as [v|e]; simpl; [auto|].
  destruct (negb _ || _); simpl; [auto|].
  destruct (IH (S a) s1 s1' Hs) as [Hr Hs2].
  destruct (with_retries_loop fn _ _ _ _ n (S a) s1) as [r s2],
           (with_retries_loop fn' _ _ _ _ n (S a) s1') as [r' s2'].
  simpl in *. subst r'. auto.
Qed.
End Rel.

Section Inv.
Context {St A : Type} (fn : St -> outcome A * St) (random : nat -> Q)
        (attempts : nat) (base_sleep max_sleep : Q) (I : St -> Prop).
Hypothesis fn_I : forall s, I s -> I (snd (fn s)).

Lemma with_retries_loop_inv (n a : nat) (s : St) :
  I s -> I (snd (with_retries_loop fn random attempts base_sleep max_sleep n a s)).
Proof.
  revert a s. induction n as [|n IH]; intros a s H; simpl; [auto|].
  pose proof (fn_I s H) as H1.
  destruct (fn s) as [[v|e] s1]; simpl in *; [auto|].
  destruct (negb _ || _); simpl; [auto|].
  specialize (IH (S a) s1 H1).
  destruct (with_retries_loop fn _ _ _ _ n (S a) s1) as [r s2]. simpl in *. auto.
Qed.

Lemma with_retries_loop_from (n a : nat) (s : St) :
  I s ->
  Forall (fun o => exists s', I s' /\ fst (fn s') = o)
         (outcomes (fst (with_retries_loop fn random attempts base_sleep max_sleep n a s))).
Proof.
  revert a s. induction n as [|n IH]; intros a s H; simpl; [constructor|].
  pose proof (fn_I s H) as H1.
  destruct (fn s) as [[v|e] s1] eqn:E; simpl in *.
  - constructor; [|constructor]. exists s. rewrite E. auto.
  - destruct (negb _ || _); simpl.
    + constructor; [|constructor]. exists s. rewrite E. auto.
    + specialize (IH (S a) s1 H1).
      destruct (with_retries_loop fn _ _ _ _ n (S a) s1) as [r s2]. simpl in *.
      constructor; [|exact IH]. exists s. rewrite E. auto.
Qed.
End Inv.

Section Arrow.
Context {coldata : Type} (cast_string : DataType -> coldata -> outcome coldata).
Context (glob : string -> list string) (faults : nat -> fault) (random : nat -> Q).

Lemma _read_agree (paths : list string) (p : string) (fs fs' : gcsfs (coldata:=coldata)) :
  In p paths -> agree paths fs fs' ->
  fst (_read faults p fs) = fst (_read faults p fs')
  /\ agree paths (snd (_read faults p fs)) (snd (_read faults p fs')).
Proof.
  intros Hp [Ho Hobj]. unfold _read, open_parquet. rewrite <- Ho, <- (Hobj p Hp).
  assert (Ha : agree paths (record (EvReadSchema p) fs) (record (EvReadSchema p) fs')).
  { split; simpl; [congruence | exact Hobj]. }
  destruct (faults (operations fs)); [|auto..].
  destruct (objects fs !! p) as [[t|]|]; auto.
Qed.

Lemma read_schema_agree (paths : list string) (p : string) (fs fs' : gcsfs (coldata:=coldata)) :
  In p paths -> agree paths fs fs' ->
  fst (read_schema faults random p fs) = fst (read_schema faults random p fs')
  /\ agree paths (snd (read_schema faults random p fs)) (snd (read_schema faults random p fs')).
Proof.
  intros Hp Ha. unfold read_schema, with_retries.
  destruct (with_retries_loop_rel (_read faults p) (_read faults p) random 8 2 60
              (agree paths) (fun s s' H => _read_agree paths p s s' Hp H) 8 1 fs fs' Ha)
    as [Hr Hs].
  destruct (with_retries_loop (_read faults p) _ _ _ _ 8 1 fs) as [r s2],
           (with_retries_loop (_read faults p) _ _ _ _ 8 1 fs') as [r' s2'].
  simpl in *. subst r'. auto.
Qed.

Lemma read_schemas_agree (paths sample : list string) (fs fs' : gcsfs (coldata:=coldata)) :
  incl sample paths -> agree paths fs fs' ->
  fst (read_schemas faults random sample fs) = fst (read_schemas faults random sample fs')
  /\ agree paths (snd (read_schemas faults random sample fs))
           (snd (read_schemas faults random sample fs')).
Proof.
  revert fs fs'. induction sample as [|p r IH]; intros fs fs' Hi Ha; simpl; [auto|].
  destruct (read_schema_agree paths p fs fs' (Hi p (or_introl eq_refl)) Ha) as [Hr Hs].
  destruct (read_schema faults random p fs) as [o fs1],
           (read_schema faults random p fs') as [o' fs1'].
  simpl in Hr, Hs. subst o'.
  assert (Hi' : incl r paths) by (intros x Hx; apply Hi; right; exact Hx).
  destruct (IH fs1 fs1' Hi' Hs) as [Hr' Hs'].
  destruct (read_schemas faults random r fs1) as [schs fs2],
           (read_schemas faults random r fs1') as [schs' fs2'].
  simpl in Hr', Hs'. subst schs'.
  destruct o as [[sch|]|e]; simpl; auto.
Qed.


Hypothesis no_fault : forall n, faults n = Works.

Lemma _read_works (p : string) (fs : gcsfs (coldata:=coldata)) :
  fst (_read faults p fs)
  = match stored_schema fs p with
    | Some sch => Returned sch
    | None => match objects fs !! p with
              | Some _ => Raised (invalid_file p)
              | None => Raised (not_found p)
              end
    end
  /\ objects (snd (_read faults p fs)) = objects fs.
Proof.
  unfold _read, open_parquet, stored_schema. rewrite no_fault.
  destruct (objects fs !! p) as [[t|]|]; simpl; auto.
Qed.

Lemma read_schema_works (p : string) (fs : gcsfs (coldata:=coldata)) :
  match fst (read_schema faults random p fs) with
  | Returned (Some sch) => stored_schema fs p = Some sch
  | _ => stored_schema fs p = None
  end
  /\ objects (snd (read_schema faults random p fs)) = objects fs.
Proof.
  unfold read_schema, with_retries.
  pose proof (with_retries_loop_outcomes (_read faults p) random 8 2 60 8 1 fs
                eq_refl ltac:(lia)) as Ho.
  pose proof (with_retries_loop_inv (_read faults p) random 8 2 60
                (fun s => objects s = objects fs)
                (fun s H => eq_trans (proj2 (_read_works p s)) H) 8 1 fs eq_refl) as Hi.
  pose proof (with_retries_loop_from (_read faults p) random 8 2 60
                (fun s => objects s = objects fs)
                (fun s H => eq_trans (proj2 (_read_works p s)) H) 8 1 fs eq_refl) as Hf.
  cbv zeta in Ho. destruct (with_retries_loop _ _ _ _ _ 8 1 fs) as [r s2].
  simpl in *. split; [|exact Hi].
  destruct Ho as (tried & last & Hout & _ & _ & Hlast).
  assert (Hin : In last (outcomes r)) by (rewrite Hout; apply in_or_app; right; left; reflexivity).
  rewrite List.Forall_forall in Hf. destruct (Hf last Hin) as (s & Hs & Hl).
  destruct (_read_works p s) as [Hr _]. rewrite Hl in Hr.
  unfold stored_schema in *. rewrite Hs in Hr.
  destruct last as [v|e].
  - rewrite Hlast. destruct (objects fs !! p) as [[t|]|]; simpl in *; congruence.
  - destruct Hlast as [-> _]. destruct (objects fs !! p) as [[t|]|]; simpl in *; congruence.
Qed.


Lemma stored_schemas_objects (fs fs' : gcsfs (coldata:=coldata)) (paths : list string) :
  objects fs' = objects fs -> stored_schemas fs' paths = stored_schemas fs paths.
Proof.
  intros Ho. induction paths as [|q r IH]; simpl; [reflexivity|].
  unfold stored_schema. rewrite Ho, IH. reflexivity.
Qed.

Lemma read_schemas_works (sample : list string) (fs : gcsfs (coldata:=coldata)) :
  fst (read_schemas faults random sample fs) = stored_schemas fs sample
  /\ objects (snd (read_schemas faults random sample fs)) = objects fs.
Proof.
  revert fs. induction sample as [|p r IH]; intros fs; simpl; [auto|].
  destruct (read_schema_works p fs) as [Hr Ho].
  destruct (read_schema faults random p fs) as [o fs1]. simpl in Hr, Ho.
  destruct (IH fs1) as [Hr' Ho'].
  rewrite (stored_schemas_objects fs fs1 r Ho) in Hr'.
  destruct (read_schemas faults random r fs1) as [schs fs2]. simpl in Hr', Ho'.
  subst schs.
  destruct o as [[sch|]|e]; simpl in Hr |- *; rewrite Hr;
    (split; [reflexivity | congruence]).
Qed.

End Arrow.

Lemma detect_drifty_columns_lookup (schemas : list Schema) (excl : gset string)
    (c : string) (T : gset string) :
  detect_drifty_columns schemas excl !! c = Some T
  <-> ((c ∉ excl) /\ T = signatures c schemas /\ (1 < size T)%nat).
Proof.
  unfold detect_drifty_columns, observe_all, signatures.
  rewrite map_lookup_filter_Some, observe_all_concat, observe_fold, lookup_empty. simpl.
  destruct (decide (c ∈ excl)) as [Hc|Hc]; [split; [intros [? _]; discriminate | tauto]|].
  destruct (decide (signatures_among c (concat schemas) = ∅)) as [E|E].
  - split; [intros [? _]; discriminate|].
    intros (_ & -> & Hs). rewrite E, size_empty in Hs. lia.
  - rewrite (left_id_L ∅ (∪)). split.
    + intros [[= <-] Hs]. auto.
    + intros (_ & -> & Hs). auto.
Qed.

Section Report.
Context {coldata : Type} (cast_string : DataType -> coldata -> outcome coldata).
Context (glob : string -> list string) (faults : nat -> fault) (random : nat -> Q).

Lemma main_report (args : arguments) (fs fs2 : gcsfs (coldata:=coldata)) (rep : run_report) :
  main cast_string glob faults random args fs = Some (rep, fs2) ->
  let files := list_parquet_paths glob (bucket args) (ensure_trailing_slash (src_prefix args)) in
  let fs1 := snd (read_schemas faults random (sample_files args files) fs) in
  let rw := rewrite_files cast_string faults random args
              (ensure_trailing_slash (src_prefix args))
              (ensure_trailing_slash (dst_prefix args))
              (columns_cast rep) files fs1 in
  files <> [] /\
  sampled rep = sample_files args files /\
  schemas_read rep = fst (read_schemas faults random (sampled rep) fs) /\
  drifty_columns rep
  = detect_drifty_columns (schemas_read rep) (parse_csv_set (exclude_cols args)) /\
  columns_cast rep = cast_columns args (schemas_read rep) /\
  totals rep = fst rw /\ fs2 = snd rw.
Proof.
  cbv zeta. unfold main.
  destruct (list_parquet_paths glob (bucket args) (ensure_trailing_slash (src_prefix args)))
    as [|f files] eqn:Ef; [discriminate|].
  destruct (read_schemas faults random (sample_files args (f :: files)) fs) as [schs fs1] eqn:Es.
  destruct (rewrite_files _ _ _ _ _ _ _ _ fs1) as [sm fs2'] eqn:Er.
  intros [= <- <-]. simpl. rewrite Es. simpl. rewrite Er.
  repeat split; discriminate || reflexivity.
Qed.

Lemma sample_files_firstn (args : arguments) (files : list string) :
  (0 <= sample_size args)%Z ->
  sample_files args files
  = firstn (Z.to_nat (Z.min (sample_size args) (Z.of_nat (List.length files)))) files.
Proof.
  intros H. unfold sample_files, slice_to.
  destruct (Z.leb_spec 0 (Z.min (sample_size args) (Z.of_nat (List.length files))));
    [reflexivity | lia].
Qed.

Lemma sample_files_slice (args : arguments) (files : list string) :
  sample_files args files
  = if (0 <=? sample_size args)%Z
    then firstn (Z.to_nat (Z.min (sample_size args) (Z.of_nat (List.length files)))) files
    else firstn (List.length files - Z.to_nat (- sample_size args)) files.
Proof.
  unfold sample_files, slice_to.
  destruct (Z.leb_spec 0 (sample_size args)) as [H|H];
    destruct (Z.leb_spec 0 (Z.min (sample_size args) (Z.of_nat (List.length files))));
    try lia; [reflexivity|].
  f_equal. lia.
Qed.

(** C8: when the script reaches its report, the file list is sorted; the
    sample is the first [min(sample_size, N)] files of it when the sample
    size is not negative, and all but the last [-sample_size] files when
    it is; a column is reported as drifting, with its set of type
    signatures, exactly when it is outside the exclusion set and the
    signatures seen for it in the schemas that could be read from the
    sample are more than one; when no operation of the file system fails,
    the schemas read are those the sampled files hold; and a second run
    that meets the same faults, on a store that holds the same sampled
    files, gives the same sample, the same schemas and the same report. *)
Theorem drift_report_of_sorted_sample (args : arguments)
    (fs fs1 : gcsfs (coldata:=coldata)) (rep : run_report) :
  main cast_string glob faults random args fs = Some (rep, fs1) ->
  let files := list_parquet_paths glob (bucket args) (ensure_trailing_slash (src_prefix args)) in
  let excl := parse_csv_set (exclude_cols args) in
  Sorted str_le files /\
  sampled rep
  = (if (0 <=? sample_size args)%Z
     then firstn (Z.to_nat (Z.min (sample_size args) (Z.of_nat (List.length files)))) files
     else firstn (List.length files - Z.to_nat (- sample_size args)) files) /\
  (forall c T, drifty_columns rep !! c = Some T
               <-> ((c ∉ excl) /\ T = signatures c (schemas_read rep) /\ (1 < size T)%nat)) /\
  ((forall n, faults n = Works) -> schemas_read rep = stored_schemas fs (sampled rep)) /\
  (forall fs' fs1' rep',
      agree (sampled rep) fs fs' ->
      main cast_string glob faults random args fs' = Some (rep', fs1') ->
      sampled rep' = sampled rep /\ schemas_read rep' = schemas_read rep
      /\ drifty_columns rep' = drifty_columns rep).
Proof.
  intros Hm. cbv zeta.
  destruct (main_report args fs fs1 rep Hm) as (_ & Hs & Hr & Hd & _).
  split; [apply sorted_Sorted|].
  split; [rewrite Hs; apply sample_files_slice|].
  split; [intros c T; rewrite Hd; apply detect_drifty_columns_lookup|].
  split.
  { intros Hw. rewrite Hr. apply (read_schemas_works faults random Hw). }
  intros fs' fs1' rep' Ha Hm'.
  destruct (main_report args fs' fs1' rep' Hm') as (_ & Hs' & Hr' & Hd' & _).
  assert (E : sampled rep' = sampled rep) by congruence.
  split; [exact E|].
  assert (E2 : schemas_read rep' = schemas_read rep).
  { rewrite Hr, Hr', E. symmetry.
    apply (read_schemas_agree faults random (sampled rep) (sampled rep) fs fs');
      [apply incl_refl | exact Ha]. }
  split; [exact E2 | congruence].
Qed.

End Report.

Section Rewrite.
Context {coldata : Type} (cast_string : DataType -> coldata -> outcome coldata).
Context (glob : string -> list string) (faults : nat -> fault) (random : nat -> Q).
Context (fs0 : gcsfs (coldata:=coldata)) (dst_of : string -> string) (files : list string).

(** What an event of a run with [--resume] may be: a full read of a
    listed file whose destination was absent at the start, a write to a
    destination that was absent at the start, an existence check of a
    destination, or a schema read of a listed file. *)
Definition allowed (ev : event) : Prop :=
  match ev with
  | EvReadTable p => In p files /\ objects fs0 !! dst_of p = None
  | EvWriteTable q => objects fs0 !! q = None /\ exists p, In p files /\ q = dst_of p
  | EvExists q => exists p, In p files /\ q = dst_of p
  | EvReadSchema p => In p files
  end.

Definition kept (fs : gcsfs (coldata:=coldata)) : Prop :=
  (exists new, trace fs = (trace fs0 ++ new)%list /\ Forall allowed new)
  /\ forall q, is_Some (objects fs0 !! q) -> objects fs !! q = objects fs0 !! q.

Lemma kept_start : kept fs0.
Proof.
  split; [exists []; split; [rewrite app_nil_r; reflexivity | constructor] | auto].
Qed.

Lemma kept_record (ev : event) (fs : gcsfs) : allowed ev -> kept fs -> kept (record ev fs).
Proof.
  intros Ha [(new & Ht & Hn) Ho]. split; [|exact Ho].
  exists (new ++ [ev])%list. simpl. rewrite Ht, <- app_assoc. split; [reflexivity|].
  apply Forall_app. split; [exact Hn | constructor; [exact Ha | constructor]].
Qed.

Lemma kept_store (q : string) (o : object) (fs : gcsfs) :
  objects fs0 !! q = None -> kept fs -> kept (store q o fs).
Proof.
  intros Hq [Ht Ho]. split; [exact Ht|].
  intros q' Hq'. simpl. rewrite lookup_insert_ne; [apply Ho; exact Hq'|].
  intros <-. rewrite Hq in Hq'. destruct Hq' as [? ?]. discriminate.
Qed.

Lemma kept_absent (q : string) (fs : gcsfs) :
  kept fs -> objects fs !! q = None -> objects fs0 !! q = None.
Proof.
  intros [_ Ho] Hq. destruct (objects fs0 !! q) as [o|] eqn:E; [|reflexivity].
  rewrite (Ho q) in Hq by (rewrite E; eexists; reflexivity). congruence.
Qed.

Lemma kept_open_parquet (ev : event) (p : string) (fs : gcsfs) :
  allowed ev -> kept fs -> kept (snd (open_parquet faults ev p fs)).
Proof.
  intros Ha Hk. unfold open_parquet.
  destruct (faults (operations fs)); [|simpl; apply kept_record; assumption..].
  destruct (objects fs !! p) as [[t|]|]; simpl; apply kept_record; assumption.
Qed.

Lemma kept__read (p : string) (fs : gcsfs) :
  In p files -> kept fs -> kept (snd (_read faults p fs)).
Proof.
  intros Hp Hk. unfold _read.
  pose proof (kept_open_parquet (EvReadSchema p) p fs Hp Hk) as H.
  destruct (open_parquet faults (EvReadSchema p) p fs) as [[t|e] fs']; exact H.
Qed.

Lemma kept_read_schemas (sample : list string) (fs : gcsfs) :
  incl sample files -> kept fs -> kept (snd (read_schemas faults random sample fs)).
Proof.
  revert fs. induction sample as [|p r IH]; intros fs Hi Hk; simpl; [exact Hk|].
  assert (Hp : In p files) by (apply Hi; left; reflexivity).
  assert (Hr : incl r files) by (intros x Hx; apply Hi; right; exact Hx).
  assert (H1 : kept (snd (read_schema faults random p fs))).
  { unfold read_schema, with_retries.
    pose proof (with_retries_loop_inv (_read faults p) random 8 2 60 kept
                  (fun s H => kept__read p s Hp H) 8 1 fs Hk) as H.
    destruct (with_retries_loop _ _ _ _ _ 8 1 fs) as [r0 s2]. exact H. }
  destruct (read_schema faults random p fs) as [o fs1]. simpl in H1.
  specialize (IH fs1 Hr H1).
  destruct (read_schemas faults random r fs1) as [schs fs2]. simpl in IH.
  destruct o as [[sch|]|e]; simpl; exact IH.
Qed.

Lemma kept_process_one (src : string) (cols : gset string) (fs : gcsfs) :
  In src files -> objects fs0 !! dst_of src = None -> kept fs ->
  kept (snd (process_one cast_string faults src (dst_of src) cols fs)).
Proof.
  intros Hs Hd Hk. unfold process_one.
  pose proof (kept_open_parquet (EvReadTable src) src fs (conj Hs Hd) Hk) as H.
  destruct (open_parquet faults (EvReadTable src) src fs) as [[t|e] fs1]; simpl in *;
    [|exact H].
  destruct (cast_selected_to_string cast_string t cols) as [t2|e]; simpl; [|exact H].
  unfold write_table.
  assert (Hw : kept (record (EvWriteTable (dst_of src)) fs1)).
  { apply kept_record; [|exact H]. split; [exact Hd|]. exists src. auto. }
  destruct (faults (operations fs1)); simpl; [| exact Hw |];
    apply kept_store; assumption.
Qed.


Lemma kept_rewrite_one (args : arguments) (src_prefix' dst_prefix' : string)
    (cols : gset string) (src : string) (sm : summary) (fs : gcsfs) :
  resume args = true -> In src files ->
  dst_of = destination args src_prefix' dst_prefix' ->
  kept fs ->
  kept (snd (rewrite_one cast_string faults random args src_prefix' dst_prefix' cols src
               (sm, fs))).
Proof.
  intros Hr Hs Hd Hk. unfold rewrite_one. rewrite Hr, <- Hd.
  assert (Hx : kept (record (EvExists (dst_of src)) fs)).
  { apply kept_record; [|exact Hk]. exists src. auto. }
  unfold fs_exists.
  destruct (faults (operations fs)); [|exact Hx..].
  destruct (bool_decide (is_Some (objects fs !! dst_of src))) eqn:Eb; [exact Hx|].
  apply bool_decide_eq_false in Eb.
  assert (Hn : objects fs0 !! dst_of src = None).
  { apply (kept_absent (dst_of src) fs Hk).
    destruct (objects fs !! dst_of src) eqn:E; [|reflexivity].
    exfalso. apply Eb. eexists; reflexivity. }
  unfold with_retries.
  pose proof (with_retries_loop_inv
                (process_one cast_string faults src (dst_of src) cols) random 8 2 60 kept
                (fun s H => kept_process_one src cols s Hs Hn H) 8 1 _ Hx) as H.
  destruct (with_retries_loop _ _ _ _ _ 8 1 _) as [r s2]. simpl in H.
  destruct (final r); [destruct (progress_test args)|]; exact H.
Qed.

Lemma kept_rewrite_files (args : arguments) (src_prefix' dst_prefix' : string)
    (cols : gset string) (l : list string) (sm : summary) (fs : gcsfs) :
  resume args = true -> incl l files ->
  dst_of = destination args src_prefix' dst_prefix' ->
  kept fs ->
  kept (snd (foldl (fun acc src_path =>
                      rewrite_one cast_string faults random args src_prefix' dst_prefix'
                                  cols src_path acc)
                   (sm, fs) l)).
Proof.
  intros Hr Hi Hd. revert sm fs. induction l as [|src r IH]; intros sm fs Hk;
    cbn [foldl]; [exact Hk|].
  pose proof (kept_rewrite_one args src_prefix' dst_prefix' cols src sm fs Hr
                (Hi src (or_introl eq_refl)) Hd Hk) as H1.
  destruct (rewrite_one _ _ _ _ _ _ _ src (sm, fs)) as [sm1 fs1]. simpl in H1.
  apply IH; [intros x Hx; apply Hi; right; exact Hx | exact H1].
Qed.

End Rewrite.

Lemma firstn_incl {A : Type} (n : nat) (l : list A) : incl (firstn n l) l.
Proof.
  revert n. induction l as [|a l IH]; intros [|n] x Hx; simpl in Hx; try contradiction.
  destruct Hx as [<-|Hx]; [left; reflexivity | right; apply (IH n x Hx)].
Qed.

Lemma slice_to_incl {A : Type} (l : list A) (n : Z) : incl (slice_to l n) l.
Proof.
  unfold slice_to. destruct (0 <=? n)%Z; apply firstn_incl.
Qed.

Section Resume.
Context {coldata : Type} (cast_string : DataType -> coldata -> outcome coldata).
Context (glob : string -> list string) (faults : nat -> fault) (random : nat -> Q).

(** C5 (as amended): in a run with [--resume], a source file whose
    mirrored destination exists at the start is not read in full and its
    destination is not written; every object present at the start is left
    as it was; the files read in full are listed files whose destination
    was missing, and the objects written are destinations that were
    missing. *)
Theorem rewrite_pass_skips_existing (args : arguments)
    (fs fs2 : gcsfs (coldata:=coldata)) (rep : run_report) :
  resume args = true ->
  main cast_string glob faults random args fs = Some (rep, fs2) ->
  let files := list_parquet_paths glob (bucket args) (ensure_trailing_slash (src_prefix args)) in
  let dst_of := destination args (ensure_trailing_slash (src_prefix args))
                            (ensure_trailing_slash (dst_prefix args)) in
  exists new,
    trace fs2 = (trace fs ++ new)%list /\
    (forall src, is_Some (objects fs !! dst_of src) ->
                 ~ In (EvReadTable src) new /\ ~ In (EvWriteTable (dst_of src)) new) /\
    (forall q, is_Some (objects fs !! q) -> objects fs2 !! q = objects fs !! q) /\
    (forall src, In (EvReadTable src) new ->
                 In src files /\ objects fs !! dst_of src = None) /\
    (forall q, In (EvWriteTable q) new ->
               objects fs !! q = None /\ exists src, In src files /\ q = dst_of src).
Proof.
  intros Hr Hm. cbv zeta.
  destruct (main_report cast_string glob faults random args fs fs2 rep Hm)
    as (_ & Hs & _ & _ & _ & _ & Hfs).
  cbv zeta in Hfs.
  set (files := list_parquet_paths glob (bucket args)
                  (ensure_trailing_slash (src_prefix args))) in *.
  set (dst_of := destination args (ensure_trailing_slash (src_prefix args))
                             (ensure_trailing_slash (dst_prefix args))).
  assert (Hk : kept fs dst_of files fs2).
  { rewrite Hfs. unfold rewrite_files.
    apply (kept_rewrite_files cast_string faults random fs dst_of files args
             _ _ _ files _ _ Hr (incl_refl _) eq_refl).
    apply kept_read_schemas; [apply slice_to_incl | apply kept_start]. }
  destruct Hk as [(new & Ht & Hn) Ho].
  rewrite List.Forall_forall in Hn.
  exists new. split; [exact Ht|].
  split.
  { intros src [o Hsrc]. split; intros Hin; apply Hn in Hin; simpl in Hin.
    - destruct Hin as [_ Hin]. congruence.
    - destruct Hin as [Hin _]. congruence. }
  split; [exact Ho|].
  split.
  { intros src Hin. apply Hn in Hin. exact Hin. }
  intros q Hin. apply Hn in Hin. exact Hin.
Qed.

End Resume.

(** The example bucket, with [--resume]: the report names [n] as drifting,
    with the signatures read from the two sampled chunks. *)
Lemma drift_report_of_sorted_sample_witness :
  exists rep fs1,
    DriftScenario.run true = Some (rep, fs1) /\
    sampled rep = [DriftScenario.part1; DriftScenario.part2] /\
    drifty_columns rep !! "n" = Some (signatures "n" (schemas_read rep)).
Proof.
  assert (E : exists rep fs1, DriftScenario.run true = Some (rep, fs1))
    by (vm_compute; eauto).
  destruct E as (rep & fs1 & E). exists rep, fs1.
  destruct (drift_report_of_sorted_sample DriftScenario.cast_cells DriftScenario.listing
              DriftScenario.no_fault DriftScenario.draws (DriftScenario.run_args true)
              DriftScenario.bucket_before fs1 rep E)
    as (_ & Hsample & Hdrift & Hread & _).
  assert (Hs : sampled rep = [DriftScenario.part1; DriftScenario.part2])
    by (rewrite Hsample; vm_compute; reflexivity).
  split; [exact E|]. split; [exact Hs|].
  apply Hdrift. split; [|split; [reflexivity|]].
  - change (parse_csv_set (exclude_cols (DriftScenario.run_args true)))
      with (∅ : gset string).
    apply not_elem_of_empty.
  - rewrite (Hread (fun n => eq_refl)), Hs. vm_compute. constructor.
Defined.

(** C8 as stated fails in two ways on the example bucket, whose two
    chunks hold [n] as [int64] and as [string].  With [--sample_size -1]
    the sample is [files[:-1]], the first chunk alone and not the first
    [min(-1, 2)] files, and no drift is reported.  With the default sample
    size both chunks are sampled, but when the schema read of the second
    is refused the file is left out with a warning: [n] is not reported,
    although the sampled files hold two signatures for it, and the report
    differs from the one of a run on the same files whose reads work. *)
Lemma drift_report_not_of_inputs_alone :
  (exists rep fs1,
      main DriftScenario.cast_cells DriftScenario.listing DriftScenario.no_fault
           DriftScenario.draws EdgeScenario.negative_sample_args DriftScenario.bucket_before
      = Some (rep, fs1)
      /\ sampled rep = [DriftScenario.part1]
      /\ sampled rep
         <> firstn (Z.to_nat (Z.min (-1) 2)) [DriftScenario.part1; DriftScenario.part2]
      /\ drifty_columns rep !! "n" = None)
  /\ (exists rep rep' fs1 fs1',
        main DriftScenario.cast_cells DriftScenario.listing DriftScenario.no_fault
             DriftScenario.draws (DriftScenario.run_args false) DriftScenario.bucket_before
        = Some (rep, fs1)
        /\ main DriftScenario.cast_cells DriftScenario.listing
                EdgeScenario.second_operation_refused
                DriftScenario.draws (DriftScenario.run_args false) DriftScenario.bucket_before
           = Some (rep', fs1')
        /\ sampled rep = [DriftScenario.part1; DriftScenario.part2]
        /\ sampled rep' = [DriftScenario.part1; DriftScenario.part2]
        /\ size (signatures "n" (stored_schemas DriftScenario.bucket_before (sampled rep')))
           = 2%nat
        /\ drifty_columns rep !! "n"
           = Some (signatures "n" (stored_schemas DriftScenario.bucket_before (sampled rep)))
        /\ drifty_columns rep' !! "n" = None).
Proof.
  split.
  - eexists _, _. split; [vm_compute; reflexivity|].
    split; [reflexivity|]. split; [discriminate|]. vm_compute. reflexivity.
  - eexists _, _, _, _. split; [vm_compute; reflexivity|].
    split; [vm_compute; reflexivity|].
    split; [reflexivity|]. split; [reflexivity|].
    split; vm_compute; [reflexivity|]. split; reflexivity.
Qed.

(** The example bucket, with [--resume]: the first chunk, present at the
    destination, is neither read nor written; the second is. *)
Lemma rewrite_pass_skips_existing_witness :
  exists rep fs2 new,
    resume (DriftScenario.run_args true) = true /\
    DriftScenario.run true = Some (rep, fs2) /\
    trace fs2 = (trace DriftScenario.bucket_before ++ new)%list /\
    ~ In (EvReadTable DriftScenario.part1) new /\
    ~ In (EvWriteTable DriftScenario.fixed1) new /\
    objects fs2 !! DriftScenario.fixed1 = Some (Parquet DriftScenario.old_fixed1) /\
    In (EvReadTable DriftScenario.part2) new /\
    In (EvWriteTable DriftScenario.fixed2) new.
Proof.
  assert (E : exists rep fs2,
             DriftScenario.run true = Some (rep, fs2)
             /\ trace fs2
                = [ EvReadSchema DriftScenario.part1; EvReadSchema DriftScenario.part2;
                    EvExists DriftScenario.fixed1; EvExists DriftScenario.fixed2;
                    EvReadTable DriftScenario.part2; EvWriteTable DriftScenario.fixed2 ])
    by (vm_compute; eauto).
  destruct E as (rep & fs2 & E & Htr).
  assert (Hr : resume (DriftScenario.run_args true) = true) by reflexivity.
  destruct (rewrite_pass_skips_existing DriftScenario.cast_cells DriftScenario.listing
              DriftScenario.no_fault DriftScenario.draws (DriftScenario.run_args true)
              DriftScenario.bucket_before fs2 rep Hr E)
    as (new & Ht & Hskip & Hkeep & _ & _).
  exists rep, fs2, new.
  assert (Hex : is_Some (objects DriftScenario.bucket_before !! DriftScenario.fixed1))
    by (vm_compute; eauto).
  destruct (Hskip DriftScenario.part1 Hex) as [Hnr Hnw].
  assert (Hnew : new = trace fs2) by (rewrite Ht; reflexivity).
  split; [exact Hr|]. split; [exact E|]. split; [exact Ht|].
  split; [exact Hnr|]. split; [exact Hnw|].
  split; [rewrite (Hkeep _ Hex); vm_compute; reflexivity|].
  rewrite Hnew, Htr. split; [do 4 right; left | do 5 right; left]; reflexivity.
Defined.

(** C5 as stated fails without [--resume]: the example bucket holds a copy
    of the first chunk at the destination, and the run reads the first
    chunk in full and writes its destination again, with other cells. *)
Lemma rewrite_without_resume_rewrites_existing :
  DriftScenario.bucket_before.(objects) !! DriftScenario.fixed1
  = Some (Parquet DriftScenario.old_fixed1)
  /\ option_map (fun r : run_report * gcsfs =>
                   (trace (snd r), totals (fst r),
                    objects (snd r) !! DriftScenario.fixed1))
       (DriftScenario.run false)
     = Some ([ EvReadSchema DriftScenario.part1; EvReadSchema DriftScenario.part2;
               EvReadTable DriftScenario.part1; EvWriteTable DriftScenario.fixed1;
               EvReadTable DriftScenario.part2; EvWriteTable DriftScenario.fixed2 ],
             mk_summary 2 0 [],
             Some (Parquet [ (mk_field "_id" dt_string, ["a"; "b"]);
                             (mk_field "n" dt_string, ["1"; "2"]) ])).
Proof. split; vm_compute; reflexivity. Qed.

End DriftFacts.

(** ** Export orchestrator *)
Module OrchestratorFacts.
Import Py Pandas Checkpoint Orchestrator.
#[local] Set Warnings "-clear-no-such-hyp".
#[local] Open Scope Z_scope.

(** The log aside, the world a run leaves is the one its events leave. *)
Lemma gcs_world_after (w : world) (r : run) :
  gcs (world_after w r)
  = gcs (apply_events (start_clock w) (trace_of (turns r) ++ manifest_written r)%list).
Proof. reflexivity. Qed.

Lemma local_files_world_after (w : world) (r : run) :
  local_files (world_after w r)
  = local_files (apply_events (start_clock w)
                   (trace_of (turns r) ++ manifest_written r)%list).
Proof. reflexivity. Qed.

Lemma last_In {A : Type} (l : list A) (d : A) : l <> [] -> In (List.last l d) l.
Proof.
  intros H. destruct (exists_last H) as (l' & a & ->).
  rewrite last_last. apply in_or_app. right. left. reflexivity.
Qed.

Section Loop.
Context {rt : PyRuntime} (cfg : config) (env : environment).

Local Notation "'iter'" := (iteration cfg env).
Local Notation "'found'" := (find cfg env).

(** The turns of a loop started in state [st] and world [w]. *)
Inductive chain : loop_state -> world -> list turn -> Prop :=
| chain_nil st w : chain st w []
| chain_stop st w : after (iter st w) = None -> chain st w [iter st w]
| chain_step st w st' ts :
    after (iter st w) = Some st' ->
    chain st' (apply_events w (effects (iter st w))) ts ->
    chain st w (iter st w :: ts).

Lemma export_loop_chain (fuel : nat) (st : loop_state) (w : world) :
  chain st w (fst (export_loop cfg env fuel st w)).
Proof.
  revert st w. induction fuel as [|fuel IH]; intros st w; simpl; [constructor|].
  destruct (after (iter st w)) as [st'|] eqn:E.
  - specialize (IH st' (apply_events w (effects (iter st w)))).
    destruct (export_loop cfg env fuel st' _) as [ts left]. simpl in *.
    apply chain_step with st'; assumption.
  - simpl. apply chain_stop. exact E.
Qed.

Lemma iteration_before (st : loop_state) (w : world) : before (iter st w) = st.
Proof.
  unfold iteration. destruct (cap_reached cfg st); [reflexivity|].
  destruct (found (last_sort_value st)); [reflexivity|].
  destruct (blob_exists w _); reflexivity.
Qed.

Lemma iteration_after (st st' : loop_state) (w : world) :
  after (iter st w) = Some st' ->
  cap_reached cfg st = false /\ found (last_sort_value st) <> []
  /\ st' = advance cfg st (found (last_sort_value st)).
Proof.
  unfold iteration. destruct (cap_reached cfg st); [discriminate|].
  destruct (found (last_sort_value st)) as [|d b] eqn:E; [discriminate|].
  destruct (blob_exists w _); simpl; intros [= <-]; repeat split; discriminate.
Qed.

Lemma iteration_stop (st : loop_state) (w : world) :
  after (iter st w) = None ->
  (cap_reached cfg st = true /\ effects (iter st w) = [])
  \/ (cap_reached cfg st = false /\ found (last_sort_value st) = []
      /\ effects (iter st w) = [Find (last_sort_value st) []]).
Proof.
  unfold iteration. destruct (cap_reached cfg st); [left; auto|].
  destruct (found (last_sort_value st)) as [|d b] eqn:E; [right; auto|].
  destruct (blob_exists w _); discriminate.
Qed.

Lemma apply_events_app (w : world) (a b : list event) :
  apply_events w (a ++ b) = apply_events (apply_events w a) b.
Proof. apply foldl_app. Qed.

Lemma trace_of_cons (t : turn) (ts : list turn) :
  trace_of (t :: ts) = (effects t ++ trace_of ts)%list.
Proof. reflexivity. Qed.

Lemma trace_of_app (a b : list turn) :
  trace_of (a ++ b) = (trace_of a ++ trace_of b)%list.
Proof. unfold trace_of. rewrite map_app, concat_app. reflexivity. Qed.

(** The [n]-th turn of a chain is the body run in the state and the world
    the turns before it left, and every turn before it went on. *)
Lemma chain_split (st : loop_state) (w : world) (pre post : list turn) (t : turn) :
  chain st w (pre ++ t :: post) ->
  t = iter (final_state st pre) (apply_events w (trace_of pre))
  /\ chain (final_state st pre) (apply_events w (trace_of pre)) (t :: post)
  /\ Forall (fun t' => after t' <> None) pre
  /\ chunk_idx (final_state st pre) = chunk_idx st + Z.of_nat (List.length pre)
  /\ exported_docs st <= exported_docs (final_state st pre).
Proof.
  revert st w. induction pre as [|p pre IH]; intros st w H.
  - simpl in *.
    split; [inversion H; reflexivity|]. split; [exact H|].
    split; [constructor|]. split; lia.
  - simpl in H. inversion H as [| st1 w1 Hstop Hl | st1 w1 st' ts Hafter Hrest]; subst.
    + destruct pre; discriminate.
    + destruct (IH st' _ Hrest) as (Ht & Hc & Hf & Hi & He).
      destruct (iteration_after st st' w Hafter) as (_ & _ & Hadv).
      cbn [final_state foldl]. rewrite Hafter. fold (final_state st' pre).
      rewrite trace_of_cons, apply_events_app.
      split; [exact Ht|]. split; [exact Hc|].
      split; [constructor; [congruence | exact Hf]|].
      rewrite Hi. cbn [List.length]. rewrite Nat2Z.inj_succ.
      assert (H1 : chunk_idx st' = chunk_idx st + 1) by (rewrite Hadv; reflexivity).
      assert (H2 : exported_docs st <= exported_docs st') by (rewrite Hadv; simpl; lia).
      split; lia.
Qed.


Lemma export_to_gcs_loaded (fuel : nat) (w : world) (st0 : loop_state) :
  loaded (export_to_gcs cfg env fuel w) = Some st0 ->
  let r := export_to_gcs cfg env fuel w in
  let w1 := start_clock w in
  (exists ckpt, load_checkpoint cfg w = Some ckpt /\ resume_state ckpt = Some st0)
  /\ turns r = fst (export_loop cfg env fuel st0 w1)
  /\ ended r = (if snd (export_loop cfg env fuel st0 w1) then Finished else StillRunning)
  /\ manifest_written r
     = (if snd (export_loop cfg env fuel st0 w1)
        then [ WriteManifest (manifest_blob cfg)
                 (manifest_dict cfg (final_state st0 (turns r))
                    (clock env (clock_reads w))
                    (clock env (clock_reads (apply_events w1 (trace_of (turns r)))))) ]
        else []).
Proof.
  cbv zeta. unfold export_to_gcs.
  destruct (String.eqb (GCS_BUCKET cfg) ""); [discriminate|].
  destruct (load_checkpoint cfg w) as [ckpt|]; [|discriminate].
  destruct (resume_state ckpt) as [st|] eqn:Er; [|discriminate].
  destruct (export_loop cfg env fuel st (start_clock w)) as [ts left] eqn:El.
  destruct left; simpl; intros [= <-]; rewrite El; simpl;
    (split; [exists ckpt; auto|]); auto.
Qed.

Lemma run_chain (fuel : nat) (w : world) (st0 : loop_state) :
  loaded (export_to_gcs cfg env fuel w) = Some st0 ->
  chain st0 (start_clock w) (turns (export_to_gcs cfg env fuel w)).
Proof.
  intros H. destruct (export_to_gcs_loaded fuel w st0 H) as (_ & -> & _).
  apply export_loop_chain.
Qed.

Lemma iteration_skip (st : loop_state) (w : world) :
  cap_reached cfg st = false ->
  found (last_sort_value st) <> [] ->
  blob_exists w (part_blob_path cfg (chunk_idx st + 1)) = true ->
  let st' := advance cfg st (found (last_sort_value st)) in
  iter st w
  = mk_turn st
      [ Find (last_sort_value st) (found (last_sort_value st));
        BlobExists (part_blob_path cfg (chunk_idx st + 1)) true;
        SaveCheckpoint (checkpoint_blob_path cfg)
                       (checkpoint_dict st' (clock env (clock_reads w))) ]
      (Some st').
Proof.
  intros Hcap Hb Hex. cbv zeta. unfold iteration. rewrite Hcap.
  destruct (found (last_sort_value st)) as [|d b] eqn:E; [contradiction|].
  cbn [advance chunk_idx]. rewrite Hex. reflexivity.
Qed.

Lemma iteration_reads_first (st : loop_state) (w : world) :
  effects (iter st w) = []
  \/ exists b, hd_error (effects (iter st w)) = Some (Find (last_sort_value st) b).
Proof.
  unfold iteration. destruct (cap_reached cfg st); [left; reflexivity|]. right.
  destruct (found (last_sort_value st)) eqn:E; [eexists; reflexivity|].
  destruct (blob_exists w _); eexists; reflexivity.
Qed.

(** C1: in every turn of the loop that finds the blob of its chunk in
    the bucket, the effects are the query, the existence check and the
    checkpoint save, with no local write and no upload; the dict saved
    holds, under [chunk_idx], [exported_docs], [last_sort_value] and
    [updated_utc], the advanced index, the count raised by the length of
    the batch just read, the encoded sort value of its last document and
    the time of the save; the loop goes on with these values; the
    checkpoint blob holds the dict when the turn ends, a later
    [load_checkpoint] returns it, and the next turn starts from the
    advanced state with its own query. *)
Theorem existing_chunk_is_skipped (fuel : nat) (w : world) (st0 : loop_state)
    (pre post : list turn) (t : turn) :
  loaded (export_to_gcs cfg env fuel w) = Some st0 ->
  turns (export_to_gcs cfg env fuel w) = (pre ++ t :: post)%list ->
  let w_t := apply_events (start_clock w) (trace_of pre) in
  let batch := found (last_sort_value (before t)) in
  let st' := advance cfg (before t) batch in
  let ckpt := checkpoint_dict st' (clock env (clock_reads w_t)) in
  cap_reached cfg (before t) = false ->
  batch <> [] ->
  blob_exists w_t (part_blob_path cfg (chunk_idx (before t) + 1)) = true ->
  effects t
  = [ Find (last_sort_value (before t)) batch;
      BlobExists (part_blob_path cfg (chunk_idx (before t) + 1)) true;
      SaveCheckpoint (checkpoint_blob_path cfg) ckpt ]
  /\ (forall p df, ~ In (WriteLocal p df) (effects t))
  /\ (forall p l, ~ In (Upload p l) (effects t))
  /\ get ckpt "chunk_idx" = VInt (chunk_idx (before t) + 1)
  /\ get ckpt "exported_docs"
     = VInt (exported_docs (before t) + Z.of_nat (List.length batch))
  /\ get ckpt "last_sort_value"
     = VDict (encode_sort_value (get (List.last batch []) (SORT_FIELD cfg)))
  /\ get ckpt "updated_utc" = VStr (isoformat (clock env (clock_reads w_t)))
  /\ py_int (get_default ckpt "chunk_idx" (VInt 0)) = Some (chunk_idx (before t) + 1)
  /\ py_int (get_default ckpt "exported_docs" (VInt 0))
     = Some (exported_docs (before t) + Z.of_nat (List.length batch))
  /\ after t = Some st'
  /\ chunk_idx st' = chunk_idx (before t) + 1
  /\ exported_docs st' = exported_docs (before t) + Z.of_nat (List.length batch)
  /\ last_sort_value st' = get (List.last batch []) (SORT_FIELD cfg)
  /\ gcs (apply_events w_t (effects t)) !! checkpoint_blob_path cfg = Some (JsonBlob ckpt)
  /\ load_checkpoint cfg (apply_events w_t (effects t)) = Some ckpt
  /\ match post with
     | [] => True
     | next :: _ =>
         before next = st'
         /\ (effects next = []
             \/ exists b, hd_error (effects next) = Some (Find (last_sort_value st') b))
     end.
Proof.
  intros Hl Ht. cbv zeta. intros Hcap Hbatch Hex.
  pose proof (run_chain fuel w st0 Hl) as Hc. rewrite Ht in Hc.
  destruct (chain_split st0 (start_clock w) pre post t Hc) as (Hit & Hrest & _).
  set (w_t := apply_events (start_clock w) (trace_of pre)) in *.
  assert (Hb : before t = final_state st0 pre)
    by (rewrite Hit at 1; apply iteration_before).
  rewrite <- Hb in Hit, Hrest.
  assert (Ht2 : t = mk_turn (before t)
      [ Find (last_sort_value (before t)) (found (last_sort_value (before t)));
        BlobExists (part_blob_path cfg (chunk_idx (before t) + 1)) true;
        SaveCheckpoint (checkpoint_blob_path cfg)
          (checkpoint_dict (advance cfg (before t) (found (last_sort_value (before t))))
             (clock env (clock_reads w_t))) ]
      (Some (advance cfg (before t) (found (last_sort_value (before t))))))
    by (rewrite Hit at 1; apply iteration_skip; assumption).
  assert (Heff : effects t = _ /\ after t = _)
    by (split; [exact (f_equal effects Ht2) | exact (f_equal after Ht2)]).
  cbn [effects after] in Heff.
  destruct Heff as [Heff Haft].
  assert (Hg : gcs (apply_events w_t (effects t)) !! checkpoint_blob_path cfg
               = Some (JsonBlob
                         (checkpoint_dict
                            (advance cfg (before t) (found (last_sort_value (before t))))
                            (clock env (clock_reads w_t)))))
    by (rewrite Heff; simpl; apply lookup_insert_eq).
  split; [exact Heff|].
  split; [intros p df Hin; rewrite Heff in Hin; simpl in Hin;
          destruct Hin as [H|[H|[H|[]]]]; discriminate H|].
  split; [intros p l Hin; rewrite Heff in Hin; simpl in Hin;
          destruct Hin as [H|[H|[H|[]]]]; discriminate H|].
  do 6 (split; [reflexivity|]).
  split; [exact Haft|]. split; [reflexivity|]. split; [reflexivity|].
  split; [reflexivity|].
  split; [exact Hg|].
  split; [unfold load_checkpoint; rewrite Hg; reflexivity|].
  destruct post as [|next post']; [exact I|].
  destruct (chain_split (before t) w_t [t] post' next Hrest) as (Hn & _).
  cbn [final_state foldl] in Hn. rewrite Haft in Hn.
  rewrite Hn. split; [apply iteration_before | apply iteration_reads_first].
Qed.


Lemma limit_incl (n : Z) (l : list pydict) : incl (limit n l) l.
Proof.
  unfold limit. destruct (n =? 0); [apply incl_refl | apply DriftFacts.firstn_incl].
Qed.

Lemma limit_length (n : Z) (l : list pydict) :
  0 < n -> Z.of_nat (List.length (limit n l)) <= n.
Proof.
  intros Hn. unfold limit. destruct (Z.eqb_spec n 0) as [->|_]; [lia|].
  rewrite length_firstn. lia.
Qed.

Lemma find_gt (last : pyval) (d : pydict) :
  last <> VNone -> In d (found last) ->
  bson_gt env (get d (SORT_FIELD cfg)) last = true.
Proof.
  intros Hl Hd. unfold find in Hd. apply limit_incl in Hd.
  destruct last; try contradiction; apply filter_In in Hd as [_ Hd]; exact Hd.
Qed.

Lemma find_length (last : pyval) :
  0 < BATCH_SIZE cfg -> Z.of_nat (List.length (found last)) <= BATCH_SIZE cfg.
Proof. intros H. unfold find. apply limit_length. exact H. Qed.

Lemma find_in_collection (last : pyval) : incl (found last) (collection env).
Proof.
  unfold find. intros d Hd. apply limit_incl in Hd.
  destruct last; try exact Hd; apply filter_In in Hd as [Hd _]; exact Hd.
Qed.

Lemma iteration_handles (st st' : loop_state) (w : world) :
  after (iter st w) = Some st' ->
  (exists there,
      In (BlobExists (part_blob_path cfg (chunk_idx st')) there) (effects (iter st w))
      /\ (there = false ->
          In (Upload (part_blob_path cfg (chunk_idx st')) (part_local_path cfg (chunk_idx st')))
             (effects (iter st w))))
  /\ List.last (effects (iter st w)) (LoadCheckpoint "")
     = SaveCheckpoint (checkpoint_blob_path cfg)
                      (checkpoint_dict st' (clock env (clock_reads w))).
Proof.
  unfold iteration. destruct (cap_reached cfg st); [discriminate|].
  destruct (found (last_sort_value st)) as [|d b] eqn:E; [discriminate|].
  destruct (blob_exists w _) eqn:Ex; simpl; intros [= <-]; (split; [|reflexivity]).
  - exists true. split; [right; left; reflexivity | discriminate].
  - exists false. split; [right; left; reflexivity|].
    intros _. do 3 right. left. reflexivity.
Qed.

(** C9: the turn number [n] of a run (counted from zero) starts at the
    loaded chunk index plus [n]; when it goes on, it handles the chunk of
    the next index (its blob is checked, and uploaded when absent), the
    count grows by the length of the batch, which is at least one, and
    the sort value moves to a greater one in the order of the store,
    unless there was none; the next turn starts from that state. *)
Theorem chunk_indices_advance (fuel : nat) (w : world) (st0 : loop_state)
    (pre post : list turn) (t : turn) :
  loaded (export_to_gcs cfg env fuel w) = Some st0 ->
  turns (export_to_gcs cfg env fuel w) = (pre ++ t :: post)%list ->
  chunk_idx (before t) = chunk_idx st0 + Z.of_nat (List.length pre)
  /\ exported_docs st0 <= exported_docs (before t)
  /\ forall st', after t = Some st' ->
       let batch := found (last_sort_value (before t)) in
       chunk_idx st' = chunk_idx st0 + Z.of_nat (List.length pre) + 1
       /\ chunk_idx st' = chunk_idx (before t) + 1
       /\ exported_docs st' = exported_docs (before t) + Z.of_nat (List.length batch)
       /\ exported_docs (before t) < exported_docs st'
       /\ last_sort_value st' = last_key cfg batch
       /\ (last_sort_value (before t) = VNone
           \/ bson_gt env (last_sort_value st') (last_sort_value (before t)) = true)
       /\ (exists there,
              In (BlobExists (part_blob_path cfg (chunk_idx st')) there) (effects t)
              /\ (there = false ->
                  In (Upload (part_blob_path cfg (chunk_idx st'))
                             (part_local_path cfg (chunk_idx st'))) (effects t)))
       /\ match post with
          | [] => True
          | next :: _ => before next = st'
          end.
Proof.
  intros Hl Ht.
  pose proof (run_chain fuel w st0 Hl) as Hc. rewrite Ht in Hc.
  destruct (chain_split st0 (start_clock w) pre post t Hc) as (Hit & Hrest & _ & Hi & He).
  assert (Hb : before t = final_state st0 pre)
    by (rewrite Hit at 1; apply iteration_before).
  rewrite <- Hb in Hit, Hrest, Hi, He.
  split; [exact Hi|]. split; [exact He|].
  intros st' Haft. cbv zeta.
  assert (Haft' := Haft). rewrite Hit in Haft'.
  destruct (iteration_after _ _ _ Haft') as (_ & Hne & Hadv).
  destruct (iteration_handles _ _ _ Haft') as [Hh _]. rewrite <- Hit in Hh.
  assert (Hlen : 1 <= Z.of_nat (List.length (found (last_sort_value (before t))))).
  { destruct (found (last_sort_value (before t))); [contradiction | simpl; lia]. }
  split; [rewrite Hadv; simpl; lia|].
  split; [rewrite Hadv; reflexivity|].
  split; [rewrite Hadv; reflexivity|].
  split; [rewrite Hadv; simpl; lia|].
  split; [rewrite Hadv; reflexivity|].
  split.
  { assert (Hd : last_sort_value (before t) = VNone \/ last_sort_value (before t) <> VNone)
      by (destruct (last_sort_value (before t)); [left; reflexivity | right; discriminate ..]).
    destruct Hd as [Hd|Hd]; [left; exact Hd | right].
    rewrite Hadv. cbn [last_sort_value]. unfold last_key.
    apply find_gt; [exact Hd | apply last_In; exact Hne]. }
  split; [exact Hh|].
  destruct post as [|next post']; [exact I|].
  destruct (chain_split (before t) _ [t] post' next Hrest) as (Hn & _).
  cbn [final_state foldl] in Hn. rewrite Haft in Hn. rewrite Hn. apply iteration_before.
Qed.


Lemma cap_reached_spec (st : loop_state) :
  0 < MAX_DOCS cfg ->
  (cap_reached cfg st = true <-> MAX_DOCS cfg <= exported_docs st).
Proof.
  intros H. unfold cap_reached.
  destruct (Z.eqb_spec (MAX_DOCS cfg) 0) as [E|_]; [lia|]. simpl.
  apply Z.leb_le.
Qed.

Lemma export_loop_left (fuel : nat) (st : loop_state) (w : world) :
  snd (export_loop cfg env fuel st w) = true ->
  exists pre t,
    fst (export_loop cfg env fuel st w) = (pre ++ [t])%list
    /\ after t = None /\ before t = final_state st pre
    /\ final_state st (pre ++ [t]) = final_state st pre.
Proof.
  revert st w. induction fuel as [|fuel IH]; intros st w; simpl; [discriminate|].
  destruct (after (iter st w)) as [st'|] eqn:E.
  - specialize (IH st' (apply_events w (effects (iter st w)))).
    destruct (export_loop cfg env fuel st' _) as [ts left]. simpl in *.
    intros Hl. destruct (IH Hl) as (pre & t & -> & Ha & Hb & Hf).
    exists (iter st w :: pre), t. cbn [final_state foldl app]. rewrite E.
    fold (final_state st' pre). fold (final_state st' (pre ++ [t])).
    auto.
  - simpl. intros _. exists [], (iter st w). simpl. rewrite E.
    split; [reflexivity|]. split; [reflexivity|]. split; [apply iteration_before | reflexivity].
Qed.

Lemma export_loop_ends (fuel : nat) (st : loop_state) (w : world) :
  0 < MAX_DOCS cfg ->
  (Z.to_nat (MAX_DOCS cfg - exported_docs st) < fuel)%nat ->
  snd (export_loop cfg env fuel st w) = true.
Proof.
  intros Hm. revert st w. induction fuel as [|fuel IH]; intros st w Hf; [lia|]. simpl.
  destruct (after (iter st w)) as [st'|] eqn:E; [|reflexivity].
  destruct (iteration_after st st' w E) as (Hcap & Hne & Hadv).
  assert (Hlt : exported_docs st < MAX_DOCS cfg).
  { destruct (Z.lt_ge_cases (exported_docs st) (MAX_DOCS cfg)) as [H|H]; [exact H|].
    apply (cap_reached_spec st Hm) in H. congruence. }
  assert (Hstep : exported_docs st + 1 <= exported_docs st').
  { rewrite Hadv. simpl. destruct (found (last_sort_value st)); [contradiction|].
    simpl. lia. }
  specialize (IH st' (apply_events w (effects (iter st w))) ltac:(lia)).
  destruct (export_loop cfg env fuel st' _) as [ts left]. simpl in *. exact IH.
Qed.

Lemma iteration_first_read (st : loop_state) (w : world) :
  cap_reached cfg st = false ->
  hd_error (effects (iter st w))
  = Some (Find (last_sort_value st) (found (last_sort_value st))).
Proof.
  intros Hcap. unfold iteration. rewrite Hcap.
  destruct (found (last_sort_value st)); [reflexivity|].
  destruct (blob_exists _ _); reflexivity.
Qed.

(** C10: with a positive cap and a positive batch size: a turn that
    starts at or above the cap does nothing and ends the loop, without a
    query; a turn below the cap starts with the query, whose batch has at
    most the batch size, and adds the whole batch to the count, which is
    then below cap plus batch size; so the count stays below cap plus
    batch size in a run that was resumed below it, while a run resumed at
    or above the cap has the one idle turn and keeps the count it was
    resumed with; a finished run stopped at the cap or on an empty batch
    and its manifest records the count reached; and the run finishes
    when observed for more turns than the cap leaves room for. *)
Theorem cap_checked_between_batches (fuel : nat) (w : world) (st0 : loop_state) :
  0 < MAX_DOCS cfg -> 0 < BATCH_SIZE cfg ->
  loaded (export_to_gcs cfg env fuel w) = Some st0 ->
  let r := export_to_gcs cfg env fuel w in
  let bound := Z.max (MAX_DOCS cfg + BATCH_SIZE cfg) (exported_docs st0 + 1) in
  (forall pre t post, turns r = (pre ++ t :: post)%list ->
     let batch := found (last_sort_value (before t)) in
     exported_docs (before t) < bound
     /\ (MAX_DOCS cfg <= exported_docs (before t) -> effects t = [] /\ after t = None)
     /\ (exported_docs (before t) < MAX_DOCS cfg ->
         hd_error (effects t) = Some (Find (last_sort_value (before t)) batch)
         /\ Z.of_nat (List.length batch) <= BATCH_SIZE cfg
         /\ forall st', after t = Some st' ->
              exported_docs st'
              = exported_docs (before t) + Z.of_nat (List.length batch)
              /\ exported_docs st' < MAX_DOCS cfg + BATCH_SIZE cfg)
     /\ (MAX_DOCS cfg <= exported_docs st0 ->
         pre = [] /\ post = [] /\ t = mk_turn st0 [] None))
  /\ (ended r = Finished ->
      let final := final_state st0 (turns r) in
      exported_docs final < bound
      /\ (exported_docs st0 < MAX_DOCS cfg + BATCH_SIZE cfg ->
          exported_docs final < MAX_DOCS cfg + BATCH_SIZE cfg)
      /\ (MAX_DOCS cfg <= exported_docs st0 -> final = st0)
      /\ (MAX_DOCS cfg <= exported_docs final \/ found (last_sort_value final) = [])
      /\ exists started finished,
           manifest_written r
           = [WriteManifest (manifest_blob cfg) (manifest_dict cfg final started finished)]
           /\ get (manifest_dict cfg final started finished) "exported_docs"
              = VInt (exported_docs final))
  /\ ((Z.to_nat (MAX_DOCS cfg - exported_docs st0) < fuel)%nat -> ended r = Finished).
Proof.
  intros Hm Hb Hl. cbv zeta.
  destruct (export_to_gcs_loaded fuel w st0 Hl) as (_ & Hts & Hend & Hman).
  pose proof (run_chain fuel w st0 Hl) as Hc.
  assert (Hturn : forall pre t post,
             turns (export_to_gcs cfg env fuel w) = (pre ++ t :: post)%list ->
             t = iter (before t) (apply_events (start_clock w) (trace_of pre))
             /\ before t = final_state st0 pre
             /\ exported_docs (before t)
                < Z.max (MAX_DOCS cfg + BATCH_SIZE cfg) (exported_docs st0 + 1)
             /\ (MAX_DOCS cfg <= exported_docs st0 -> pre = [])).
  { intros pre. induction pre as [|p pre IH] using rev_ind; intros t post Ht.
    - rewrite Ht in Hc. destruct (chain_split st0 _ [] post t Hc) as (Hit & _).
      simpl in Hit. assert (Hbt : before t = st0) by (rewrite Hit; apply iteration_before).
      rewrite Hbt. split; [exact Hit|]. split; [reflexivity|]. split; [lia | reflexivity].
    - rewrite <- app_assoc in Ht. simpl in Ht.
      destruct (IH p (t :: post) Ht) as (Hp & Hbp & Hep & Hpre).
      rewrite Ht in Hc.
      destruct (chain_split st0 _ pre (t :: post) p Hc) as (_ & Hrest & _).
      rewrite <- Hbp in Hrest.
      destruct (chain_split (before p) _ [p] post t Hrest) as (Hit & _ & Hf & _).
      pose proof (List.Forall_inv Hf) as Hpa. simpl in Hpa.
      destruct (after p) as [sp|] eqn:Ea; [|congruence].
      assert (Ea' := Ea). rewrite Hp in Ea'.
      destruct (iteration_after _ _ _ Ea') as (Hcap & _ & Hadv).
      cbn [final_state foldl] in Hit. rewrite Ea in Hit.
      assert (Hbt : before t = sp) by (rewrite Hit; apply iteration_before).
      assert (Hlt : exported_docs (before p) < MAX_DOCS cfg).
      { destruct (Z.lt_ge_cases (exported_docs (before p)) (MAX_DOCS cfg)) as [Hx|Hx];
          [exact Hx|]. apply (cap_reached_spec _ Hm) in Hx. congruence. }
      rewrite trace_of_app, apply_events_app. rewrite Hbt.
      split; [rewrite Hit at 1; f_equal; rewrite <- apply_events_app; simpl;
              rewrite app_nil_r; reflexivity|].
      split.
      + unfold final_state. rewrite foldl_app. simpl. rewrite Ea.
        fold (final_state st0 pre). reflexivity.
      + split.
        * rewrite Hadv. simpl.
          pose proof (find_length (last_sort_value (before p)) Hb) as Hlen. lia.
        * intros Hge. specialize (Hpre Hge). subst pre.
          simpl in Hbp. rewrite Hbp in Hlt. lia. }
  split.
  { intros pre t post Ht. destruct (Hturn pre t post Ht) as (Hit & Hbt & Het & Hpre).
    split; [exact Het|]. split.
    - intros Hge. apply (cap_reached_spec _ Hm) in Hge.
      rewrite Hit. unfold iteration. rewrite Hge. auto.
    - split.
      + intros Hlt.
        assert (Hcap : cap_reached cfg (before t) = false).
        { destruct (cap_reached cfg (before t)) eqn:E; [|reflexivity].
          apply (cap_reached_spec _ Hm) in E. lia. }
        pose proof (find_length (last_sort_value (before t)) Hb) as Hlen.
        split.
        * replace (effects t)
            with (effects (iter (before t) (apply_events (start_clock w) (trace_of pre))))
            by (rewrite <- Hit; reflexivity).
          apply iteration_first_read. exact Hcap.
        * split; [exact Hlen|]. intros st' Haft. rewrite Hit in Haft.
          destruct (iteration_after _ _ _ Haft) as (_ & _ & ->). simpl. lia.
      + intros Hge. specialize (Hpre Hge). subst pre. simpl in Hbt.
        assert (Hcap : cap_reached cfg st0 = true) by (apply (cap_reached_spec _ Hm); exact Hge).
        assert (Et : t = mk_turn st0 [] None).
        { rewrite Hit, Hbt. unfold iteration. rewrite Hcap. reflexivity. }
        split; [reflexivity|]. split; [|exact Et].
        rewrite Ht in Hc. simpl in Hc.
        inversion Hc as [| s1 w1 Hstop Hs Hw1 | s1 w1 s' ts Hafter Hrest Hs Hw1];
          [reflexivity|].
        exfalso. unfold iteration in Hafter. rewrite Hcap in Hafter. discriminate Hafter. }
  split.
  { intros He. rewrite Hend in He.
    destruct (snd (export_loop cfg env fuel st0 (start_clock w))) eqn:El;
      [|discriminate].
    destruct (export_loop_left fuel st0 (start_clock w) El) as (pre & t & Hp & Ha & Hbt & Hf).
    rewrite <- Hts in Hp. rewrite Hp, Hf.
    destruct (Hturn pre t [] Hp) as (Hit & _ & Het & Hpre). rewrite <- Hbt.
    split; [exact Het|]. split; [lia|]. split.
    { intros Hge. specialize (Hpre Hge). subst pre. exact Hbt. }
    split.
    - rewrite Hit in Ha. destruct (iteration_stop _ _ Ha) as [[Hc1 _]|(_ & Hc2 & _)].
      + left. apply (cap_reached_spec _ Hm). exact Hc1.
      + right. exact Hc2.
    - rewrite Hman. rewrite Hp, Hf, <- Hbt. eexists _, _. split; reflexivity. }
  intros Hf. rewrite Hend. rewrite (export_loop_ends fuel st0 (start_clock w) Hm Hf).
  reflexivity.
Qed.

End Loop.

(** ** The checkpoint never runs ahead of the bucket *)
Section Durability.
Context {rt : PyRuntime} (cfg : config) (env : environment).

Local Notation "'iter'" := (iteration cfg env).
Local Notation "'found'" := (find cfg env).
Local Notation "'part'" := (part_blob_path cfg).
Local Notation "'checkpoint_path'" := (checkpoint_blob_path cfg).

Lemma manifest_is_not_checkpoint : manifest_blob cfg <> checkpoint_path.
Proof.
  unfold manifest_blob, checkpoint_blob_path. intros H.
  apply (inj (String.app (run_prefix cfg))) in H. discriminate H.
Qed.

(** The chunks up to the index of [st] have their blobs. *)
Definition covered (w : world) (st : loop_state) : Prop :=
  forall i, 1 <= i <= chunk_idx st -> is_Some (gcs w !! part i).

(** An event that cannot put the checkpoint ahead of the chunks: a
    checkpoint saved at its path records an index whose chunks are all
    in the bucket, and a manifest goes to another path. *)
Definition sound (w : world) (ev : event) : Prop :=
  match ev with
  | SaveCheckpoint path d =>
      path = checkpoint_path
      /\ forall k, py_int (get_default d "chunk_idx" (VInt 0)) = Some k ->
           forall i, 1 <= i <= k -> is_Some (gcs w !! part i)
  | WriteManifest path _ => path <> checkpoint_path
  | _ => True
  end.

Fixpoint sound_trace (w : world) (evs : list event) : Prop :=
  match evs with
  | [] => True
  | ev :: r => sound w ev /\ sound_trace (apply_event w ev) r
  end.

Lemma checkpoint_index_gcs (w w' : world) :
  gcs w' !! checkpoint_path = gcs w !! checkpoint_path ->
  checkpoint_index cfg w' = checkpoint_index cfg w.
Proof.
  intros H. unfold checkpoint_index, load_checkpoint. rewrite H. reflexivity.
Qed.

Lemma durable_insert (w w' : world) (path : string) (b : blob) :
  gcs w' = <[path := b]> (gcs w) ->
  (forall k, checkpoint_index cfg w' = Some k ->
     forall i, 1 <= i <= k -> is_Some (gcs w !! part i)) ->
  durable cfg w'.
Proof.
  intros Hg H k Hk i Hi. rewrite Hg.
  destruct (decide (path = part i)) as [->|Hne].
  - rewrite lookup_insert_eq. eexists; reflexivity.
  - rewrite lookup_insert_ne by exact Hne. apply (H k Hk i Hi).
Qed.

Lemma durable_apply_event (w : world) (ev : event) :
  durable cfg w -> sound w ev -> durable cfg (apply_event w ev).
Proof.
  intros Hd Hs. destruct ev as [p|l b|p f|p df|bp lp|p r|p d|p d]; simpl; try exact Hd.
  - (* Upload *)
    destruct (local_files w !! lp) as [df|]; [|exact Hd].
    refine (durable_insert w _ bp (ParquetBlob df) _ _); [reflexivity|].
    intros k Hk. apply Hd. rewrite <- Hk. symmetry.
    destruct (decide (bp = checkpoint_path)) as [->|Hne].
    + unfold checkpoint_index, load_checkpoint in Hk. simpl in Hk.
      rewrite lookup_insert_eq in Hk. discriminate Hk.
    + apply checkpoint_index_gcs. simpl. apply lookup_insert_ne. exact Hne.
  - (* RemoveLocal *) destruct r; exact Hd.
  - (* SaveCheckpoint *)
    destruct Hs as [-> Hs].
    refine (durable_insert w _ checkpoint_path (JsonBlob d) _ _); [reflexivity|].
    intros k Hk. apply Hs.
    unfold checkpoint_index, load_checkpoint in Hk. simpl in Hk.
    rewrite lookup_insert_eq in Hk. exact Hk.
  - (* WriteManifest *)
    refine (durable_insert w _ p (JsonBlob d) _ _); [reflexivity|].
    intros k Hk. apply Hd. rewrite <- Hk. symmetry.
    apply checkpoint_index_gcs. simpl. apply lookup_insert_ne. exact Hs.
Qed.

Lemma sound_trace_app (w : world) (a b : list event) :
  sound_trace w (a ++ b) <-> sound_trace w a /\ sound_trace (apply_events w a) b.
Proof.
  revert w. induction a as [|e a IH]; intros w; simpl; [tauto|].
  rewrite IH. unfold apply_events. tauto.
Qed.

Lemma durable_prefix (w : world) (evs p q : list event) :
  durable cfg w -> sound_trace w evs -> evs = (p ++ q)%list ->
  durable cfg (apply_events w p).
Proof.
  intros Hd Hs ->. apply sound_trace_app in Hs as [Hs _]. clear q.
  revert w Hd Hs. induction p as [|e p IH]; intros w Hd Hs; simpl; [exact Hd|].
  destruct Hs as [He Hp]. apply IH; [apply durable_apply_event; assumption | exact Hp].
Qed.

Lemma covered_insert (w w' : world) (st : loop_state) (path : string) (b : blob) :
  gcs w' = <[path := b]> (gcs w) -> covered w st -> covered w' st.
Proof.
  intros Hg Hc i Hi. rewrite Hg.
  destruct (decide (path = part i)) as [->|Hne].
  - rewrite lookup_insert_eq. eexists; reflexivity.
  - rewrite lookup_insert_ne by exact Hne. apply (Hc i Hi).
Qed.

Lemma covered_advance (w : world) (st : loop_state) (batch : list pydict) :
  covered w st -> is_Some (gcs w !! part (chunk_idx st + 1)) ->
  covered w (advance cfg st batch).
Proof.
  intros Hc Hn i Hi. simpl in Hi.
  destruct (Z.eq_dec i (chunk_idx st + 1)) as [->|Hne]; [exact Hn | apply Hc; lia].
Qed.

Lemma py_int_checkpoint_dict (st : loop_state) (now : datetime) :
  py_int (get_default (checkpoint_dict st now) "chunk_idx" (VInt 0)) = Some (chunk_idx st).
Proof. reflexivity. Qed.

Definition quiet (ev : event) : Prop :=
  match ev with
  | SaveCheckpoint _ _ | WriteManifest _ _ => False
  | _ => True
  end.

Lemma sound_trace_quiet (w : world) (evs : list event) :
  Forall quiet evs -> sound_trace w evs.
Proof.
  intros H. revert w. induction H as [|ev r Hq _ IH]; intros w; simpl; [exact I|].
  split; [destruct ev; simpl in *; tauto | apply IH].
Qed.

Lemma gcs_after_upload (w : world) (l : pyval) (b : list pydict) (p bp lp : string)
    (there removed : bool) (df : frame) :
  gcs (apply_events w [ Find l b; BlobExists p there; WriteLocal lp df; Upload bp lp;
                        RemoveLocal lp removed ])
  = <[bp := ParquetBlob df]> (gcs w).
Proof.
  unfold apply_events. cbn [foldl apply_event gcs local_files].
  rewrite lookup_insert_eq. destruct removed; reflexivity.
Qed.

Lemma gcs_after_save (w : world) (path : string) (d : pydict) :
  gcs (apply_event w (SaveCheckpoint path d)) = <[path := JsonBlob d]> (gcs w).
Proof. reflexivity. Qed.

(** A turn run where the chunks so far are covered is sound, and leaves
    the chunks of the state it goes on with covered. *)
Lemma iteration_sound (st : loop_state) (w : world) :
  covered w st ->
  sound_trace w (effects (iter st w))
  /\ forall st', after (iter st w) = Some st' ->
       covered (apply_events w (effects (iter st w))) st'.
Proof.
  intros Hc. unfold iteration.
  destruct (cap_reached cfg st); [simpl; split; [exact I | discriminate]|].
  destruct (found (last_sort_value st)) as [|d b] eqn:E;
    [simpl; split; [tauto | discriminate]|].
  set (batch := d :: b). set (st1 := advance cfg st batch).
  destruct (blob_exists w (part (chunk_idx st1))) eqn:Ex; cbn [effects after].
  - apply bool_decide_eq_true in Ex.
    assert (Hc' : covered w st1) by (apply covered_advance; assumption).
    split.
    + cbn [sound_trace sound]. repeat split. intros k Hk i Hi.
      rewrite py_int_checkpoint_dict in Hk. injection Hk as <-. apply Hc'. exact Hi.
    + intros st' [= <-]. unfold apply_events. cbn [foldl].
      eapply covered_insert; [apply gcs_after_save | exact Hc'].
  - match goal with
    | |- context [ [?e1; ?e2; ?e3; ?e4; ?e5; ?e6] ] =>
        change [e1; e2; e3; e4; e5; e6] with ([e1; e2; e3; e4; e5] ++ [e6])%list;
        set (quiet_part := [e1; e2; e3; e4; e5]); set (save := e6)
    end.
    assert (Hg : gcs (apply_events w quiet_part)
                 = <[part (chunk_idx st1) :=
                       ParquetBlob (fst (Normalizer.write_parquet_chunk batch))]> (gcs w))
      by apply gcs_after_upload.
    assert (Hc3 : covered (apply_events w quiet_part) st1).
    { apply covered_advance.
      - eapply covered_insert; [exact Hg | exact Hc].
      - rewrite Hg. rewrite lookup_insert_eq. eexists; reflexivity. }
    split.
    + apply sound_trace_app. split.
      * apply sound_trace_quiet. repeat constructor.
      * cbn [sound_trace sound]. repeat split. intros k Hk i Hi.
        rewrite py_int_checkpoint_dict in Hk. injection Hk as <-. apply Hc3. exact Hi.
    + intros st' [= <-]. rewrite apply_events_app. unfold apply_events at 1. cbn [foldl].
      eapply covered_insert; [apply gcs_after_save | exact Hc3].
Qed.

Lemma chain_sound (st : loop_state) (w : world) (ts : list turn) :
  chain cfg env st w ts -> covered w st -> sound_trace w (trace_of ts).
Proof.
  induction 1 as [st w | st w Hstop | st w st' ts Hafter Hrest IH]; intros Hc.
  - exact I.
  - unfold trace_of. simpl. rewrite app_nil_r. apply iteration_sound. exact Hc.
  - rewrite trace_of_cons. apply sound_trace_app.
    destruct (iteration_sound st w Hc) as [Hs Hn].
    split; [exact Hs | apply IH; apply Hn; exact Hafter].
Qed.


(** In a turn the checkpoint save comes last: after the existence check
    that found the blob, or after the local write, the upload and the
    removal attempt. *)
Lemma iteration_save_last (st : loop_state) (w : world)
    (a b : list event) (path : string) (ckpt : pydict) :
  effects (iter st w) = (a ++ SaveCheckpoint path ckpt :: b)%list ->
  b = [] /\ path = checkpoint_path
  /\ exists st', after (iter st w) = Some st'
       /\ ckpt = checkpoint_dict st' (clock env (clock_reads w))
       /\ is_Some (gcs (apply_events w a) !! part (chunk_idx st'))
       /\ (a = [ Find (last_sort_value st) (found (last_sort_value st));
                 BlobExists (part (chunk_idx st')) true ]
           \/ exists df removed,
                a = [ Find (last_sort_value st) (found (last_sort_value st));
                      BlobExists (part (chunk_idx st')) false;
                      WriteLocal (part_local_path cfg (chunk_idx st')) df;
                      Upload (part (chunk_idx st')) (part_local_path cfg (chunk_idx st'));
                      RemoveLocal (part_local_path cfg (chunk_idx st')) removed ]).
Proof.
  unfold iteration. destruct (cap_reached cfg st); cbn [effects after].
  { intros H. destruct a; discriminate H. }
  destruct (found (last_sort_value st)) as [|d l] eqn:E; cbn [effects after].
  { intros H. destruct a as [|? a]; [discriminate H|]. destruct a; discriminate H. }
  set (batch := d :: l). set (st1 := advance cfg st batch).
  destruct (blob_exists w (part (chunk_idx st1))) eqn:Ex; cbn [effects after]; intros H.
  - do 3 (destruct a as [|? a]; [try discriminate H | injection H as ? H]).
    + injection H as <- <- <-. subst.
      split; [reflexivity|]. split; [reflexivity|].
      exists st1. split; [reflexivity|]. split; [reflexivity|].
      split; [apply bool_decide_eq_true in Ex; exact Ex | left; reflexivity].
    + destruct a; discriminate H.
  - do 6 (destruct a as [|? a]; [try discriminate H | injection H as ? H]).
    + injection H as <- <- <-. subst.
      split; [reflexivity|]. split; [reflexivity|].
      exists st1. split; [reflexivity|]. split; [reflexivity|].
      split; [rewrite gcs_after_upload, lookup_insert_eq; eexists; reflexivity|].
      right. eexists _, _. reflexivity.
    + destruct a; discriminate H.
Qed.

(** C2: from a world whose checkpoint is not ahead of the chunk blobs,
    every prefix of what a run does, up to and including the manifest,
    leaves such a world, so a crash at any point does; and in every turn
    a checkpoint save is the last effect: it comes right after the check
    that found the blob of the chunk in the bucket, or after the local
    write, the upload and the attempt to remove the local file, in that
    order; the index it records is the one of the turn's chunk, whose
    blob is in the bucket when the save starts. *)
Theorem checkpoint_follows_upload (fuel : nat) (w : world) (st0 : loop_state) :
  durable cfg w ->
  loaded (export_to_gcs cfg env fuel w) = Some st0 ->
  let r := export_to_gcs cfg env fuel w in
  (forall p q, (trace_of (turns r) ++ manifest_written r)%list = (p ++ q)%list ->
               durable cfg (apply_events (start_clock w) p))
  /\ (forall pre t post, turns r = (pre ++ t :: post)%list ->
      forall a b path ckpt, effects t = (a ++ SaveCheckpoint path ckpt :: b)%list ->
        let w_t := apply_events (start_clock w) (trace_of pre) in
        b = [] /\ path = checkpoint_path
        /\ exists st',
             after t = Some st'
             /\ py_int (get_default ckpt "chunk_idx" (VInt 0)) = Some (chunk_idx st')
             /\ is_Some (gcs (apply_events w_t a) !! part (chunk_idx st'))
             /\ (a = [ Find (last_sort_value (before t))
                            (found (last_sort_value (before t)));
                       BlobExists (part (chunk_idx st')) true ]
                 \/ exists df removed,
                      a = [ Find (last_sort_value (before t))
                                 (found (last_sort_value (before t)));
                            BlobExists (part (chunk_idx st')) false;
                            WriteLocal (part_local_path cfg (chunk_idx st')) df;
                            Upload (part (chunk_idx st'))
                                   (part_local_path cfg (chunk_idx st'));
                            RemoveLocal (part_local_path cfg (chunk_idx st')) removed ])).
Proof.
  intros Hd Hl. cbv zeta.
  destruct (export_to_gcs_loaded cfg env fuel w st0 Hl) as ((ck & Hck & Hres) & Hts & Hend & Hman).
  pose proof (run_chain cfg env fuel w st0 Hl) as Hc.
  assert (Hcov : covered (start_clock w) st0).
  { intros i Hi. apply (Hd (chunk_idx st0)); [|exact Hi].
    unfold checkpoint_index. rewrite Hck.
    unfold resume_state in Hres.
    destruct (py_int (get_default ck "chunk_idx" (VInt 0))) as [idx|]; [|discriminate].
    destruct (py_int (get_default ck "exported_docs" (VInt 0))); [|discriminate].
    destruct (get_default ck "last_sort_value" _); try discriminate.
    destruct (decode_sort_value kvs); [|discriminate].
    injection Hres as <-. reflexivity. }
  pose proof (chain_sound _ _ _ Hc Hcov) as Hs.
  split.
  { intros p q Hpq.
    refine (durable_prefix (start_clock w) _ p q Hd _ Hpq).
    apply sound_trace_app. split; [exact Hs|].
    rewrite Hman. destruct (snd (export_loop cfg env fuel st0 (start_clock w)));
      [|exact I].
    simpl. split; [apply manifest_is_not_checkpoint | exact I]. }
  intros pre t post Ht a b path ckpt He.
  rewrite Ht in Hc.
  destruct (chain_split cfg env st0 (start_clock w) pre post t Hc) as (Hit & _ & _).
  set (w_t := apply_events (start_clock w) (trace_of pre)) in *.
  assert (Hb : before t = final_state st0 pre)
    by (rewrite Hit at 1; apply iteration_before).
  rewrite <- Hb in Hit.
  assert (He' : effects (iter (before t) w_t) = (a ++ SaveCheckpoint path ckpt :: b)%list)
    by (rewrite <- Hit; exact He).
  destruct (iteration_save_last (before t) w_t a b path ckpt He')
    as (Hb0 & Hp & st' & Haft & Hckpt & Hblob & Hshape).
  split; [exact Hb0|]. split; [exact Hp|].
  exists st'. split; [rewrite Hit; exact Haft|].
  split; [rewrite Hckpt; reflexivity|].
  split; [exact Hblob | exact Hshape].
Qed.


Lemma iteration_stop_any (st : loop_state) (w w' : world) :
  after (iter st w) = None -> iter st w' = iter st w.
Proof.
  unfold iteration. destruct (cap_reached cfg st); [reflexivity|].
  destruct (found (last_sort_value st)); [reflexivity|].
  destruct (blob_exists w _); discriminate.
Qed.

Lemma iteration_stop_world (st : loop_state) (w : world) :
  after (iter st w) = None -> apply_events w (effects (iter st w)) = w.
Proof.
  intros H. destruct (iteration_stop cfg env st w H) as [[_ ->]|(_ & _ & ->)]; reflexivity.
Qed.

Lemma iteration_saves (st st' : loop_state) (w : world) :
  after (iter st w) = Some st' ->
  gcs (apply_events w (effects (iter st w))) !! checkpoint_path
  = Some (JsonBlob (checkpoint_dict st' (clock env (clock_reads w)))).
Proof.
  unfold iteration. destruct (cap_reached cfg st); [discriminate|].
  destruct (found (last_sort_value st)) as [|d l]; [discriminate|].
  destruct (blob_exists w _); cbn [effects after]; intros [= <-].
  - unfold apply_events. cbn [foldl]. rewrite gcs_after_save. apply lookup_insert_eq.
  - match goal with
    | |- context [ [?e1; ?e2; ?e3; ?e4; ?e5; ?e6] ] =>
        change [e1; e2; e3; e4; e5; e6] with ([e1; e2; e3; e4; e5] ++ [e6])%list
    end.
    rewrite apply_events_app. unfold apply_events at 1. cbn [foldl].
    rewrite gcs_after_save. apply lookup_insert_eq.
Qed.

(** The checkpoint blob holds the state [st], saved at some time. *)
Definition checkpointed (w : world) (st : loop_state) : Prop :=
  exists now, gcs w !! checkpoint_path = Some (JsonBlob (checkpoint_dict st now)).

(** The sort value of [st] is that of a document of the collection. *)
Definition from_collection (st : loop_state) : Prop :=
  exists d, In d (collection env) /\ last_sort_value st = get d (SORT_FIELD cfg).

(** After the turns of a chain either no turn went on and the bucket is
    as it was, or the checkpoint blob holds the state reached. *)
Lemma chain_checkpoint (st : loop_state) (w : world) (ts : list turn) :
  chain cfg env st w ts ->
  (final_state st ts = st /\ apply_events w (trace_of ts) = w)
  \/ (checkpointed (apply_events w (trace_of ts)) (final_state st ts)
      /\ from_collection (final_state st ts)).
Proof.
  induction 1 as [st w | st w Hstop | st w st' ts Hafter Hrest IH].
  - left. auto.
  - left. unfold trace_of. cbn [final_state foldl map concat]. rewrite Hstop, app_nil_r.
    split; [reflexivity | apply iteration_stop_world; exact Hstop].
  - right. rewrite trace_of_cons, apply_events_app.
    cbn [final_state foldl]. rewrite Hafter. fold (final_state st' ts).
    destruct IH as [[-> ->]|IH]; [|exact IH].
    split.
    + eexists. apply iteration_saves. exact Hafter.
    + destruct (iteration_after cfg env st st' w Hafter) as (_ & Hne & ->).
      exists (List.last (found (last_sort_value st)) []). split; [|reflexivity].
      apply (find_in_collection cfg env (last_sort_value st)).
      apply last_In. exact Hne.
Qed.

Lemma resume_state_checkpoint_dict (st : loop_state) (now : datetime) :
  decode_sort_value (encode_sort_value (last_sort_value st)) = Some (last_sort_value st) ->
  resume_state (checkpoint_dict st now) = Some st.
Proof.
  intros H. unfold resume_state, checkpoint_dict. cbn [get_default dict_get String.eqb Ascii.eqb Bool.eqb py_int].
  rewrite H. destruct st; reflexivity.
Qed.

End Durability.

(** ** A second run after a finished one *)
Section Rerun.
Context {rt : PyRuntime} (cfg : config) (env : environment).

Local Notation "'iter'" := (iteration cfg env).
Local Notation "'found'" := (find cfg env).
Local Notation "'checkpoint_path'" := (checkpoint_blob_path cfg).

Lemma export_to_gcs_finished (fuel : nat) (w : world) :
  ended (export_to_gcs cfg env fuel w) = Finished ->
  exists st0,
    loaded (export_to_gcs cfg env fuel w) = Some st0
    /\ String.eqb (GCS_BUCKET cfg) "" = false
    /\ snd (export_loop cfg env fuel st0 (start_clock w)) = true.
Proof.
  unfold export_to_gcs.
  destruct (String.eqb (GCS_BUCKET cfg) ""); [discriminate|].
  destruct (load_checkpoint cfg w) as [ckpt|]; [|discriminate].
  destruct (resume_state ckpt) as [st|]; [|discriminate].
  destruct (export_loop cfg env fuel st (start_clock w)) as [ts left] eqn:El.
  destruct left; [|discriminate]. intros _. exists st. simpl. rewrite El. auto.
Qed.

Lemma load_checkpoint_gcs (w w' : world) :
  gcs w' !! checkpoint_path = gcs w !! checkpoint_path ->
  load_checkpoint cfg w' = load_checkpoint cfg w.
Proof. unfold load_checkpoint. intros ->. reflexivity. Qed.

Lemma gcs_after_manifest (w : world) (path : string) (d : pydict) :
  gcs (apply_events w [WriteManifest path d]) = <[path := JsonBlob d]> (gcs w).
Proof. reflexivity. Qed.

(** A loop that was left leaves in the bucket a checkpoint from which
    the state it was left in is read again. *)
Lemma finished_run_checkpoint (fuel : nat) (w : world) (st0 : loop_state) :
  Forall (fun d => restorable (get d (SORT_FIELD cfg))) (collection env) ->
  loaded (export_to_gcs cfg env fuel w) = Some st0 ->
  let r := export_to_gcs cfg env fuel w in
  exists ckpt,
    load_checkpoint cfg (apply_events (start_clock w) (trace_of (turns r))) = Some ckpt
    /\ resume_state ckpt = Some (final_state st0 (turns r)).
Proof.
  intros Hrt Hl. cbv zeta.
  destruct (export_to_gcs_loaded cfg env fuel w st0 Hl) as ((ck & Hck & Hres) & _).
  pose proof (run_chain cfg env fuel w st0 Hl) as Hc.
  destruct (chain_checkpoint cfg env _ _ _ Hc) as [[-> ->]|[[now Hnow] (d & Hd & Hlast)]].
  - exists ck. split; [|exact Hres]. rewrite <- Hck. apply load_checkpoint_gcs. reflexivity.
  - eexists. split.
    + unfold load_checkpoint. rewrite Hnow. reflexivity.
    + apply resume_state_checkpoint_dict. rewrite Hlast.
      apply CheckpointFacts.restorable_decode_encode.
      rewrite List.Forall_forall in Hrt. apply Hrt. exact Hd.
Qed.

(** No event of the loop touches a log file. *)
Lemma log_files_apply_events (w : world) (evs : list event) :
  log_files (apply_events w evs) = log_files w.
Proof.
  revert w. induction evs as [|ev evs IH]; intros w; [reflexivity|].
  unfold apply_events. cbn [foldl]. fold (apply_events (apply_event w ev) evs).
  rewrite IH. destruct ev; try reflexivity; cbn [apply_event].
  - destruct (local_files w !! local_path); reflexivity.
  - destruct removed; reflexivity.
Qed.

Lemma durable_append_log (path : string) (records : list log_record) (w : world) :
  durable cfg w -> durable cfg (append_log path records w).
Proof. intros H. exact H. Qed.

Lemma log_files_world_after (w : world) (r : run) :
  log_files (world_after w r)
  = <[log_file r := (default [] (log_files w !! log_file r) ++ logged r)%list]>
      (log_files w).
Proof.
  unfold world_after, append_log. cbn [log_files].
  rewrite log_files_apply_events. reflexivity.
Qed.

(** What a run reads from a checkpoint saved for the state [st]: the
    two counters of [st], and the sort value as [decode_sort_value] gives
    it back. *)
Lemma resume_state_saved (st : loop_state) (now : datetime) :
  well_formed (last_sort_value st) ->
  exists v,
    decode_sort_value (encode_sort_value (last_sort_value st)) = Some v
    /\ resume_state (checkpoint_dict st now)
       = Some (mk_state (chunk_idx st) (exported_docs st) v).
Proof.
  destruct st as [idx n last]. cbn [last_sort_value chunk_idx exported_docs].
  intros Hw.
  assert (Hd : exists v, decode_sort_value (encode_sort_value last) = Some v).
  { destruct last; try (eexists; reflexivity).
    exists (VObjectId oid). apply CheckpointFacts.restorable_decode_encode.
    repeat split. exact Hw. }
  destruct Hd as [v Hv]. exists v. split; [exact Hv|].
  unfold resume_state, checkpoint_dict. cbn [chunk_idx exported_docs last_sort_value].
  change (get_default _ "chunk_idx" (VInt 0)) with (VInt idx).
  change (get_default _ "exported_docs" (VInt 0)) with (VInt n).
  change (get_default _ "last_sort_value" _) with (VDict (encode_sort_value last)).
  cbn [py_int]. rewrite Hv. reflexivity.
Qed.

(** The records of a run that leaves the loop in its first turn. *)
Definition idle_log (st : loop_state) : list log_record :=
  [ LogFile (log_path cfg); LogRunId (RUN_ID cfg);
    LogTarget (GCS_BUCKET cfg) (run_prefix cfg);
    LogSettings (BATCH_SIZE cfg) (MAX_DOCS cfg) (SORT_FIELD cfg);
    LogConnectingGCS;
    LogResume (chunk_idx st) (exported_docs st) (last_sort_value st);
    LogConnectingMongo; LogPingOK;
    if cap_reached cfg st then LogReachedMax (MAX_DOCS cfg) else LogNoMore;
    LogDone (chunk_idx st) (exported_docs st) (manifest_blob cfg);
    LogClosed ].

(** A run resumed in a state at the cap, or whose query returns nothing,
    takes one turn and writes the manifest. *)
Lemma export_to_gcs_idle (fuel : nat) (w : world) (ck : pydict) (st : loop_state) :
  String.eqb (GCS_BUCKET cfg) "" = false ->
  load_checkpoint cfg w = Some ck -> resume_state ck = Some st ->
  cap_reached cfg st = true \/ found (last_sort_value st) = [] ->
  exists t,
    export_to_gcs cfg env (S fuel) w
    = mk_run (Some st) [t]
        [ WriteManifest (manifest_blob cfg)
            (manifest_dict cfg st (clock env (clock_reads w))
               (clock env (S (clock_reads w)))) ]
        Finished (log_path cfg) (emitted cfg (idle_log st))
    /\ before t = st /\ after t = None
    /\ effects t = (if cap_reached cfg st then [] else [Find (last_sort_value st) []]).
Proof.
  intros Hbucket Hck Hres Hq.
  assert (Hit : (cap_reached cfg st = true
                 /\ iter st (start_clock w) = mk_turn st [] None
                 /\ iteration_log cfg env st (start_clock w) = [LogReachedMax (MAX_DOCS cfg)])
                \/ (cap_reached cfg st = false
                    /\ iter st (start_clock w) = mk_turn st [Find (last_sort_value st) []] None
                    /\ iteration_log cfg env st (start_clock w) = [LogNoMore])).
  { unfold iteration, iteration_log. destruct (cap_reached cfg st); [left; auto|].
    right. destruct Hq as [Hq|Hq]; [discriminate Hq|]. rewrite Hq. auto. }
  exists (iter st (start_clock w)).
  unfold export_to_gcs, idle_log, setup_logging. rewrite Hbucket, Hck, Hres.
  cbn [export_loop export_loop_log].
  destruct Hit as [(Hc & -> & ->)|(Hc & -> & ->)]; rewrite Hc; cbn [after before effects];
    (split; [reflexivity|]); auto.
Qed.

(** C7 (as amended): after a run that finished, a second run with the
    same configuration and the same collection reads the checkpoint the
    first run left: the chunk index and the count the first run ended
    with, and its last sort value as [decode_sort_value] gives it back,
    which is the value itself when it is of a kind that is restored
    unchanged.  When the cap is reached in that state or the query from
    that sort value returns nothing, as is the case whenever the state is
    the one the first run ended in, the second run takes one turn, which
    leaves the loop, without a query at the cap and otherwise after the
    empty batch: it uploads no chunk, saves no checkpoint and stages no
    file.  It does write: every second run that finishes writes the
    manifest again, over the one that was there, so that the bucket it
    leaves is the one it found with the manifest blob replaced; and it
    appends its records to the log file of the staging directory, eleven
    of them when the level is [INFO] or lower. *)
Theorem second_run_rewrites_manifest (fuel1 fuel2 : nat) (w0 : world) :
  Forall (fun d => well_formed (get d (SORT_FIELD cfg))) (collection env) ->
  ended (export_to_gcs cfg env fuel1 w0) = Finished ->
  let r1 := export_to_gcs cfg env fuel1 w0 in
  let w1 := world_after w0 r1 in
  let r2 := export_to_gcs cfg env (S fuel2) w1 in
  exists st0 m1 st2,
    let stf := final_state st0 (turns r1) in
    loaded r1 = Some st0
    /\ manifest_written r1 = [WriteManifest (manifest_blob cfg) m1]
    /\ gcs w1 !! manifest_blob cfg = Some (JsonBlob m1)
    /\ loaded r2 = Some st2
    /\ chunk_idx st2 = chunk_idx stf
    /\ exported_docs st2 = exported_docs stf
    /\ (st2 = stf
        \/ decode_sort_value (encode_sort_value (last_sort_value stf))
           = Some (last_sort_value st2))
    /\ (restorable (last_sort_value stf) -> st2 = stf)
    /\ (st2 = stf -> cap_reached cfg st2 = true \/ found (last_sort_value st2) = [])
    /\ (cap_reached cfg st2 = true \/ found (last_sort_value st2) = [] ->
        exists t,
          turns r2 = [t] /\ before t = st2 /\ after t = None
          /\ effects t
             = (if cap_reached cfg st2 then [] else [Find (last_sort_value st2) []])
          /\ ended r2 = Finished
          /\ gcs (world_after w1 r2)
             = <[manifest_blob cfg :=
                   JsonBlob (manifest_dict cfg st2 (clock env (clock_reads w1))
                               (clock env (S (clock_reads w1))))]> (gcs w1)
          /\ local_files (world_after w1 r2) = local_files w1
          /\ logged r2 = emitted cfg (idle_log st2)
          /\ (LOG_LEVEL cfg <= 20 -> List.length (logged r2) = 11%nat))
    /\ (ended r2 = Finished ->
        exists m2,
          manifest_written r2 = [WriteManifest (manifest_blob cfg) m2]
          /\ gcs (world_after w1 r2) !! manifest_blob cfg = Some (JsonBlob m2))
    /\ log_file r2 = log_path cfg
    /\ log_files (world_after w1 r2)
       = <[log_path cfg := (default [] (log_files w1 !! log_path cfg) ++ logged r2)%list]>
           (log_files w1).
Proof.
  intros Hwf Hend. cbv zeta.
  destruct (export_to_gcs_finished fuel1 w0 Hend) as (st0 & Hl & Hbucket & Hleft).
  destruct (export_to_gcs_loaded cfg env fuel1 w0 st0 Hl) as ((ck0 & Hck0 & Hres0) & Hts & _ & Hman).
  rewrite Hleft in Hman.
  pose proof (run_chain cfg env fuel1 w0 st0 Hl) as Hc.
  destruct (export_loop_left cfg env fuel1 st0 (start_clock w0) Hleft)
    as (pre & t1 & Hpre & Hafter1 & Hbefore1 & Hfinal).
  rewrite <- Hts in Hpre.
  set (r1 := export_to_gcs cfg env fuel1 w0) in *.
  set (stf := final_state st0 (turns r1)) in *.
  set (W := apply_events (start_clock w0) (trace_of (turns r1))) in *.
  assert (Hstop : cap_reached cfg stf = true \/ found (last_sort_value stf) = []).
  { rewrite Hpre in Hc.
    destruct (chain_split cfg env st0 (start_clock w0) pre [] t1 Hc) as (Hit & _).
    assert (Hs : stf = final_state st0 pre) by (unfold stf; rewrite Hpre; exact Hfinal).
    rewrite <- Hs in Hit. rewrite Hit in Hafter1.
    destruct (iteration_stop cfg env stf _ Hafter1) as [[H _]|(_ & H & _)]; auto. }
  set (w1 := world_after w0 r1) in *.
  assert (Hg1 : gcs w1 = <[manifest_blob cfg :=
                   JsonBlob (manifest_dict cfg stf (clock env (clock_reads w0))
                                           (clock env (clock_reads W)))]> (gcs W)).
  { unfold w1, world_after. rewrite apply_events_app. fold W. rewrite Hman. reflexivity. }
  assert (Hload : load_checkpoint cfg w1 = load_checkpoint cfg W).
  { apply load_checkpoint_gcs. rewrite Hg1.
    apply lookup_insert_ne. apply manifest_is_not_checkpoint. }
  assert (Hst2 : exists ck st2,
             load_checkpoint cfg w1 = Some ck /\ resume_state ck = Some st2
             /\ chunk_idx st2 = chunk_idx stf /\ exported_docs st2 = exported_docs stf
             /\ (st2 = stf
                 \/ decode_sort_value (encode_sort_value (last_sort_value stf))
                    = Some (last_sort_value st2))
             /\ (restorable (last_sort_value stf) -> st2 = stf)).
  { destruct (chain_checkpoint cfg env _ _ _ Hc) as [[Hf HW]|[[now Hnow] (d & Hd & Hlast)]].
    - exists ck0, st0. fold stf in Hf. fold W in HW.
      split; [rewrite Hload, HW, <- Hck0; apply load_checkpoint_gcs; reflexivity|].
      split; [exact Hres0|]. rewrite Hf. auto.
    - fold stf in Hnow, Hlast. fold W in Hnow.
      assert (Hwl : well_formed (last_sort_value stf)).
      { rewrite Hlast. rewrite List.Forall_forall in Hwf. apply Hwf. exact Hd. }
      destruct (resume_state_saved stf now Hwl) as (v & Hv & Hres).
      eexists _, _. split; [rewrite Hload; unfold load_checkpoint; rewrite Hnow; reflexivity|].
      split; [exact Hres|]. cbn [chunk_idx exported_docs last_sort_value].
      split; [reflexivity|]. split; [reflexivity|]. split; [right; exact Hv|].
      intros Hrest.
      rewrite (CheckpointFacts.restorable_decode_encode rt _ Hrest) in Hv.
      injection Hv as <-. destruct stf; reflexivity. }
  destruct Hst2 as (ck & st2 & Hck & Hres & Hidx & Hdocs & Hlast & Hsame).
  assert (Hl2 : loaded (export_to_gcs cfg env (S fuel2) w1) = Some st2).
  { unfold export_to_gcs. rewrite Hbucket, Hck, Hres.
    destruct (export_loop cfg env (S fuel2) st2 (start_clock w1)) as [ts left].
    destruct left; reflexivity. }
  assert (Hlog : log_file (export_to_gcs cfg env (S fuel2) w1) = log_path cfg).
  { unfold export_to_gcs. rewrite Hbucket, Hck, Hres.
    destruct (export_loop cfg env (S fuel2) st2 (start_clock w1)) as [ts left].
    destruct left; reflexivity. }
  eexists st0, _, st2.
  split; [exact Hl|]. split; [exact Hman|].
  split; [rewrite Hg1; apply lookup_insert_eq|].
  split; [exact Hl2|]. split; [exact Hidx|]. split; [exact Hdocs|].
  split; [exact Hlast|]. split; [exact Hsame|].
  split; [intros ->; exact Hstop|].
  split.
  { intros Hq.
    destruct (export_to_gcs_idle fuel2 w1 ck st2 Hbucket Hck Hres Hq)
      as (t & Hr2 & Hb & Ha & He).
    exists t. rewrite Hr2. cbn [turns ended logged].
    split; [reflexivity|]. split; [exact Hb|]. split; [exact Ha|]. split; [exact He|].
    split; [reflexivity|].
    assert (Hquiet : apply_events (start_clock w1) (trace_of [t]) = start_clock w1).
    { unfold trace_of. cbn [map concat]. rewrite app_nil_r, He.
      destruct (cap_reached cfg st2); reflexivity. }
    unfold world_after. cbn [turns manifest_written log_file logged].
    rewrite apply_events_app, Hquiet.
    split; [reflexivity|]. split; [reflexivity|]. split; [reflexivity|].
    intros Hlev. unfold emitted, idle_log.
    assert (Hinfo : (LOG_LEVEL cfg <=? 20) = true) by (apply Z.leb_le; exact Hlev).
    assert (Hwarn : (LOG_LEVEL cfg <=? 30) = true) by (apply Z.leb_le; lia).
    destruct (cap_reached cfg st2); cbn [List.filter levelno];
      rewrite ?Hinfo, ?Hwarn; reflexivity. }
  split.
  { intros He2.
    destruct (export_to_gcs_loaded cfg env (S fuel2) w1 st2 Hl2) as (_ & _ & Hend2 & Hman2).
    rewrite Hend2 in He2.
    destruct (snd (export_loop cfg env (S fuel2) st2 (start_clock w1))); [|discriminate].
    eexists. split; [exact Hman2|].
    unfold world_after. rewrite Hman2, apply_events_app. apply lookup_insert_eq. }
  split; [exact Hlog|].
  rewrite log_files_world_after, Hlog. reflexivity.
Qed.

End Rerun.

(** The resumed run of the example after a crash between the upload of
    the first chunk and its checkpoint: the first turn skips, and the
    checkpoint it saves records chunk one, two documents and the sort
    value two. *)
Lemma existing_chunk_is_skipped_witness :
  exists st0 t post,
    loaded (ExportScenario.export 0 10 ExportScenario.crashed_after_first_upload) = Some st0
    /\ turns (ExportScenario.export 0 10 ExportScenario.crashed_after_first_upload)
       = ([] ++ t :: post)%list
    /\ (exists ckpt,
          List.last (effects t) (LoadCheckpoint "")
          = SaveCheckpoint
              "exports/mongo_parquet/run_id=r1/db=countly/collection=summary/_checkpoint.json"
              ckpt
          /\ get ckpt "chunk_idx" = VInt 1
          /\ get ckpt "exported_docs" = VInt 2
          /\ get ckpt "last_sort_value" = VDict [("type", VStr "int"); ("value", VInt 2)])
    /\ after t = Some (mk_state 1 2 (VInt 2))
    /\ (forall p l, ~ In (Upload p l) (effects t)).
Proof.
  assert (E : exists st0 t post,
             loaded (ExportScenario.export 0 10 ExportScenario.crashed_after_first_upload)
             = Some st0
             /\ turns (ExportScenario.export 0 10 ExportScenario.crashed_after_first_upload)
                = ([] ++ t :: post)%list
             /\ before t = mk_state 0 0 VNone)
    by (vm_compute; repeat eexists).
  destruct E as (st0 & t & post & Hl & Ht & Hb).
  exists st0, t, post.
  destruct (existing_chunk_is_skipped (ExportScenario.cfg 0) ExportScenario.env 10
              ExportScenario.crashed_after_first_upload st0 [] post t Hl Ht)
    as (Heff & _ & Hup & Hci & Hed & Hls & _ & _ & _ & Haft & _).
  - rewrite Hb. vm_compute. reflexivity.
  - rewrite Hb. vm_compute. discriminate.
  - rewrite Hb. vm_compute. reflexivity.
  - split; [exact Hl|]. split; [exact Ht|]. split.
    + eexists. split; [rewrite Heff; reflexivity|].
      split; [rewrite Hci, Hb; reflexivity|].
      split; [rewrite Hed, Hb; vm_compute; reflexivity|].
      rewrite Hls, Hb. vm_compute. reflexivity.
    + split; [|exact Hup]. rewrite Haft, Hb. vm_compute. reflexivity.
Defined.

(** The second turn of the example run starts at index one and goes on
    to index two with four documents exported. *)
Lemma chunk_indices_advance_witness :
  exists st0 first second post,
    loaded (ExportScenario.export 0 10 ExportScenario.empty_world) = Some st0
    /\ turns (ExportScenario.export 0 10 ExportScenario.empty_world)
       = ([first] ++ second :: post)%list
    /\ chunk_idx (before second) = chunk_idx st0 + 1
    /\ after second = Some (mk_state 2 4 (VInt 4)).
Proof.
  assert (E : exists st0 first second post,
             loaded (ExportScenario.export 0 10 ExportScenario.empty_world) = Some st0
             /\ turns (ExportScenario.export 0 10 ExportScenario.empty_world)
                = ([first] ++ second :: post)%list
             /\ after second = Some (mk_state 2 4 (VInt 4)))
    by (vm_compute; repeat eexists).
  destruct E as (st0 & first & second & post & Hl & Ht & Ha).
  exists st0, first, second, post.
  destruct (chunk_indices_advance (ExportScenario.cfg 0) ExportScenario.env 10
              ExportScenario.empty_world st0 [first] post second Hl Ht)
    as (Hidx & _).
  split; [exact Hl|]. split; [exact Ht|]. split; [exact Hidx | exact Ha].
Defined.

(** The example with a cap of three and batches of two: the run ends
    with four documents exported, one more than the cap. *)
Lemma cap_checked_between_batches_witness :
  exists st0,
    0 < MAX_DOCS (ExportScenario.cfg 3) /\ 0 < BATCH_SIZE (ExportScenario.cfg 3)
    /\ loaded (ExportScenario.export 3 10 ExportScenario.empty_world) = Some st0
    /\ ended (ExportScenario.export 3 10 ExportScenario.empty_world) = Finished
    /\ exported_docs
         (final_state st0 (turns (ExportScenario.export 3 10 ExportScenario.empty_world)))
       = 4
    /\ exported_docs
         (final_state st0 (turns (ExportScenario.export 3 10 ExportScenario.empty_world)))
       < 3 + 2.
Proof.
  assert (E : exists st0,
             loaded (ExportScenario.export 3 10 ExportScenario.empty_world) = Some st0
             /\ st0 = mk_state 0 0 VNone
             /\ exported_docs
                  (final_state st0
                     (turns (ExportScenario.export 3 10 ExportScenario.empty_world)))
                = 4)
    by (vm_compute; repeat eexists).
  destruct E as (st0 & Hl & Hst & Hfinal).
  exists st0.
  assert (Hm : 0 < MAX_DOCS (ExportScenario.cfg 3)) by (vm_compute; reflexivity).
  assert (Hb : 0 < BATCH_SIZE (ExportScenario.cfg 3)) by (vm_compute; reflexivity).
  destruct (cap_checked_between_batches (ExportScenario.cfg 3) ExportScenario.env 10
              ExportScenario.empty_world st0 Hm Hb Hl)
    as (_ & Hfin & Hend).
  assert (He : ended (ExportScenario.export 3 10 ExportScenario.empty_world) = Finished)
    by (apply Hend; rewrite Hst; vm_compute; lia).
  split; [exact Hm|]. split; [exact Hb|]. split; [exact Hl|].
  split; [exact He|]. split; [exact Hfinal|].
  destruct (Hfin He) as (_ & Hlt & _).
  apply Hlt. rewrite Hst. vm_compute. reflexivity.
Defined.

(** C10 as stated fails when the run is resumed above the cap, and when
    the batch size is not positive.  After a run of the example with a
    cap of four has stopped at four documents, the fifth left unread, a
    run with the same identifier and a cap of one reads the count four
    from the checkpoint, leaves the loop at once and records four in the
    manifest, which is not below cap plus batch size.  With
    [BATCH_SIZE=0], which [limit] takes as no limit, the one batch of a
    run with a cap of three holds the five documents, and the cap check
    of the next turn stops the run at five.  With [BATCH_SIZE=-2] the
    batches hold two documents and the run stops at four, with the fifth
    document unread and cap plus batch size being one. *)
Lemma count_beyond_cap_plus_batch :
  (loaded (ExportScenario.export 1 10 (ExportScenario.after_export 4 10 ExportScenario.empty_world))
   = Some (mk_state 2 4 (VInt 4))
   /\ turns (ExportScenario.export 1 10
               (ExportScenario.after_export 4 10 ExportScenario.empty_world))
      = [mk_turn (mk_state 2 4 (VInt 4)) [] None]
   /\ ended (ExportScenario.export 1 10
               (ExportScenario.after_export 4 10 ExportScenario.empty_world))
      = Finished
   /\ (exists m,
         manifest_written (ExportScenario.export 1 10
                             (ExportScenario.after_export 4 10 ExportScenario.empty_world))
         = [WriteManifest (manifest_blob (ExportScenario.cfg 1)) m]
         /\ get m "exported_docs" = VInt 4 /\ get m "max_docs" = VInt 1
         /\ get m "batch_size" = VInt 2)
   /\ ~ 4 < MAX_DOCS (ExportScenario.cfg 1) + BATCH_SIZE (ExportScenario.cfg 1))
  /\ (loaded (EdgeScenario.export_with EdgeScenario.cfg_unbatched) = Some (mk_state 0 0 VNone)
      /\ ended (EdgeScenario.export_with EdgeScenario.cfg_unbatched) = Finished
      /\ map after (turns (EdgeScenario.export_with EdgeScenario.cfg_unbatched))
         = [Some (mk_state 1 5 (VInt 5)); None]
      /\ List.last (turns (EdgeScenario.export_with EdgeScenario.cfg_unbatched))
                   (mk_turn (mk_state 0 0 VNone) [] None)
         = mk_turn (mk_state 1 5 (VInt 5)) [] None
      /\ (exists m,
            manifest_written (EdgeScenario.export_with EdgeScenario.cfg_unbatched)
            = [WriteManifest (manifest_blob EdgeScenario.cfg_unbatched) m]
            /\ get m "exported_docs" = VInt 5)
      /\ ~ 5 < MAX_DOCS EdgeScenario.cfg_unbatched + BATCH_SIZE EdgeScenario.cfg_unbatched)
  /\ (loaded (EdgeScenario.export_with EdgeScenario.cfg_negative_batch)
      = Some (mk_state 0 0 VNone)
      /\ ended (EdgeScenario.export_with EdgeScenario.cfg_negative_batch) = Finished
      /\ map after (turns (EdgeScenario.export_with EdgeScenario.cfg_negative_batch))
         = [Some (mk_state 1 2 (VInt 2)); Some (mk_state 2 4 (VInt 4)); None]
      /\ List.last (turns (EdgeScenario.export_with EdgeScenario.cfg_negative_batch))
                   (mk_turn (mk_state 0 0 VNone) [] None)
         = mk_turn (mk_state 2 4 (VInt 4)) [] None
      /\ (exists m,
            manifest_written (EdgeScenario.export_with EdgeScenario.cfg_negative_batch)
            = [WriteManifest (manifest_blob EdgeScenario.cfg_negative_batch) m]
            /\ get m "exported_docs" = VInt 4)
      /\ ~ 4 < MAX_DOCS EdgeScenario.cfg_negative_batch
               + BATCH_SIZE EdgeScenario.cfg_negative_batch).
Proof.
  split; [|split].
  - split; [vm_compute; reflexivity|]. split; [vm_compute; reflexivity|].
    split; [vm_compute; reflexivity|].
    split; [eexists; split; [vm_compute; reflexivity | repeat split; reflexivity]|].
    vm_compute. intros H. discriminate H.
  - split; [vm_compute; reflexivity|]. split; [vm_compute; reflexivity|].
    split; [vm_compute; reflexivity|]. split; [vm_compute; reflexivity|].
    split; [eexists; split; [vm_compute; reflexivity | reflexivity]|].
    vm_compute. intros H. discriminate H.
  - split; [vm_compute; reflexivity|]. split; [vm_compute; reflexivity|].
    split; [vm_compute; reflexivity|]. split; [vm_compute; reflexivity|].
    split; [eexists; split; [vm_compute; reflexivity | reflexivity]|].
    vm_compute. intros H. discriminate H.
Qed.

(** The second run of the example: it resumes at chunk three, five
    documents and the sort value five, takes one turn with an empty
    batch, writes the manifest over the one the first run left, stages
    no file and logs eleven records. *)
Lemma second_run_rewrites_manifest_witness :
  Forall (fun d => well_formed (get d (SORT_FIELD (ExportScenario.cfg 0))))
         (collection ExportScenario.env)
  /\ ended (ExportScenario.export 0 10 ExportScenario.empty_world) = Finished
  /\ exists t,
       loaded (ExportScenario.export 0 1
                 (ExportScenario.after_export 0 10 ExportScenario.empty_world))
       = Some (mk_state 3 5 (VInt 5))
       /\ turns (ExportScenario.export 0 1
                   (ExportScenario.after_export 0 10 ExportScenario.empty_world)) = [t]
       /\ effects t = [Find (VInt 5) []]
       /\ after t = None
       /\ gcs (ExportScenario.after_export 0 1
                 (ExportScenario.after_export 0 10 ExportScenario.empty_world))
          = <[manifest_blob (ExportScenario.cfg 0) :=
                JsonBlob
                  (manifest_dict (ExportScenario.cfg 0)
                     (mk_state 3 5 (VInt 5))
                     (ExportScenario.seconds_past_noon 5)
                     (ExportScenario.seconds_past_noon 6))]>
              (gcs (ExportScenario.after_export 0 10 ExportScenario.empty_world))
       /\ local_files (ExportScenario.after_export 0 1
                         (ExportScenario.after_export 0 10 ExportScenario.empty_world))
          = local_files (ExportScenario.after_export 0 10 ExportScenario.empty_world)
       /\ List.length
            (logged (ExportScenario.export 0 1
                       (ExportScenario.after_export 0 10 ExportScenario.empty_world)))
          = 11%nat.
Proof.
  assert (Hwf : Forall (fun d => well_formed (get d (SORT_FIELD (ExportScenario.cfg 0))))
                       (collection ExportScenario.env))
    by (repeat constructor).
  assert (Hend : ended (ExportScenario.export 0 10 ExportScenario.empty_world) = Finished)
    by (vm_compute; reflexivity).
  assert (Est : loaded (ExportScenario.export 0 1
                          (ExportScenario.after_export 0 10 ExportScenario.empty_world))
                = Some (mk_state 3 5 (VInt 5)))
    by (vm_compute; reflexivity).
  assert (Eclock : clock_reads (ExportScenario.after_export 0 10 ExportScenario.empty_world)
                   = 5%nat)
    by (vm_compute; reflexivity).
  split; [exact Hwf|]. split; [exact Hend|].
  destruct (@second_run_rewrites_manifest Scenario.example_runtime (ExportScenario.cfg 0)
              ExportScenario.env 10 0 ExportScenario.empty_world Hwf Hend)
    as (st0 & m1 & st2 & _ & _ & _ & Hl2 & _ & _ & _ & _ & _ & Hidle & _).
  assert (E2 : st2 = mk_state 3 5 (VInt 5)).
  { change (loaded (ExportScenario.export 0 1
                      (ExportScenario.after_export 0 10 ExportScenario.empty_world))
            = Some st2) in Hl2.
    rewrite Est in Hl2. injection Hl2 as <-. reflexivity. }
  subst st2.
  destruct Hidle as (t & Ht & _ & Ha & He & _ & Hg & Hlf & _ & Hlen);
    [right; vm_compute; reflexivity|].
  exists t. split; [exact Est|]. split; [exact Ht|]. split; [exact He|].
  split; [exact Ha|]. split.
  { etransitivity; [exact Hg|].
    change (world_after ExportScenario.empty_world
              (@export_to_gcs Scenario.example_runtime (ExportScenario.cfg 0)
                 ExportScenario.env 10 ExportScenario.empty_world))
      with (ExportScenario.after_export 0 10 ExportScenario.empty_world).
    rewrite Eclock. reflexivity. }
  split; [exact Hlf|]. apply Hlen. vm_compute. discriminate.
Defined.

(** C7 as stated fails: after the run of the example has finished, a
    second run with the same identifier and the same five documents
    reads the checkpoint, gets an empty batch for the keys above 5 and
    writes [manifest.json] again, over the manifest of the first run and
    with other timestamps. *)
Lemma second_run_writes_manifest_again :
  gcs (ExportScenario.after_export 0 10 ExportScenario.empty_world)
    !! manifest_blob (ExportScenario.cfg 0)
  = Some (JsonBlob
            [("run_id", VStr "r1"); ("db", VStr "countly");
             ("collection", VStr "summary"); ("chunks", VInt 3);
             ("exported_docs", VInt 5); ("batch_size", VInt 2);
             ("max_docs", VInt 0); ("sort_field", VStr "_id");
             ("started_utc", VStr "2024-03-05T12:00:00+00:00");
             ("ended_utc", VStr "2024-03-05T12:00:04+00:00")])
  /\ run_trace (ExportScenario.cfg 0)
       (ExportScenario.export 0 10
          (ExportScenario.after_export 0 10 ExportScenario.empty_world))
     = [ LoadCheckpoint
           "exports/mongo_parquet/run_id=r1/db=countly/collection=summary/_checkpoint.json";
         Find (VInt 5) [];
         WriteManifest
           "exports/mongo_parquet/run_id=r1/db=countly/collection=summary/manifest.json"
           [("run_id", VStr "r1"); ("db", VStr "countly");
            ("collection", VStr "summary"); ("chunks", VInt 3);
            ("exported_docs", VInt 5); ("batch_size", VInt 2);
            ("max_docs", VInt 0); ("sort_field", VStr "_id");
            ("started_utc", VStr "2024-03-05T12:00:05+00:00");
            ("ended_utc", VStr "2024-03-05T12:00:06+00:00")] ]
  /\ gcs (ExportScenario.after_export 0 10
            (ExportScenario.after_export 0 10 ExportScenario.empty_world))
     <> gcs (ExportScenario.after_export 0 10 ExportScenario.empty_world).
Proof.
  split; [vm_compute; reflexivity|]. split; [vm_compute; reflexivity|].
  intros H.
  apply (f_equal (fun m => m !! manifest_blob (ExportScenario.cfg 0))) in H.
  vm_compute in H. discriminate H.
Qed.

(** The run of the example resumed after the crash between the first
    upload and its checkpoint: the world it starts in and the world it
    leaves both have every chunk the checkpoint counts. *)
Lemma checkpoint_follows_upload_witness :
  @durable Scenario.example_runtime (ExportScenario.cfg 0)
     ExportScenario.crashed_after_first_upload
  /\ exists st0,
       loaded (ExportScenario.export 0 10 ExportScenario.crashed_after_first_upload)
       = Some st0
       /\ @durable Scenario.example_runtime (ExportScenario.cfg 0)
            (ExportScenario.after_export 0 10 ExportScenario.crashed_after_first_upload).
Proof.
  assert (Hd : @durable Scenario.example_runtime (ExportScenario.cfg 0)
                 ExportScenario.crashed_after_first_upload).
  { intros k Hk i Hi.
    assert (E : @checkpoint_index Scenario.example_runtime (ExportScenario.cfg 0)
                  ExportScenario.crashed_after_first_upload = Some 0)
      by (vm_compute; reflexivity).
    rewrite E in Hk. injection Hk as <-. lia. }
  split; [exact Hd|].
  assert (E : exists st0,
             loaded (ExportScenario.export 0 10 ExportScenario.crashed_after_first_upload)
             = Some st0)
    by (vm_compute; eexists; reflexivity).
  destruct E as (st0 & Hl). exists st0. split; [exact Hl|].
  destruct (@checkpoint_follows_upload Scenario.example_runtime (ExportScenario.cfg 0)
              ExportScenario.env 10 ExportScenario.crashed_after_first_upload st0 Hd Hl)
    as (Hp & _).
  unfold ExportScenario.after_export, world_after. apply durable_append_log.
  refine (Hp _ [] _). rewrite app_nil_r. reflexivity.
Defined.

End OrchestratorFacts.

(** ** Cells of the Record Normalizer, once more *)
Module CellFacts.
Import Py Pandas Normalizer.

Lemma cell_fixed (rt : PyRuntime) (x : pyval) :
  cell (_jsonify_scalar (cell (_jsonify_scalar x))) = cell (_jsonify_scalar x).
Proof. destruct (_jsonify_scalar x); reflexivity. Qed.

(** X1: normalizing a frame a second time changes nothing: every cell
    [_jsonify_scalar] produced, a text or a null, is mapped to itself. *)
Theorem normalize_df_for_parquet_idempotent (rt : PyRuntime) (df : frame) :
  normalize_df_for_parquet (normalize_df_for_parquet df) = normalize_df_for_parquet df.
Proof.
  unfold normalize_df_for_parquet. cbn [f_len f_columns]. f_equal.
  rewrite map_map. apply map_ext. intros [name s].
  destruct s; cbn [snd fst series_dtype dtype_eqb map_column]; try reflexivity.
  f_equal. f_equal. rewrite map_map. apply map_ext. intros x. apply cell_fixed.
Qed.

(** X2: a [bytes] value is never written as null; its text is the UTF-8
    decoding when the bytes are valid UTF-8, from which the bytes are
    obtained again by encoding, and otherwise the hexadecimal text of
    two digits a byte, from which [bytes.fromhex] gives the bytes again. *)
Theorem _jsonify_scalar_bytes (rt : PyRuntime) (bs : list byte) :
  exists s,
    _jsonify_scalar (VBytes bs) = Some s
    /\ ((decode_utf8 bs = Some s /\ list_byte_of_string s = bs)
        \/ (decode_utf8 bs = None /\ s = bytes_hex bs
            /\ bytes_fromhex s = Some bs
            /\ String.length s = (2 * List.length bs)%nat)).
Proof.
  change (_jsonify_scalar (VBytes bs))
    with (Some (match decode_utf8 bs with Some s => s | None => bytes_hex bs end)).
  destruct (decode_utf8 bs) as [s|] eqn:E.
  - exists s. split; [reflexivity|]. left. split; [reflexivity|].
    unfold decode_utf8 in E. destruct (utf8_valid_N _); [|discriminate].
    injection E as <-. apply list_byte_of_string_of_list_byte.
  - exists (bytes_hex bs). split; [reflexivity|]. right.
    split; [reflexivity|]. split; [reflexivity|].
    split; [apply CheckpointFacts.bytes_fromhex_hex | apply CheckpointFacts.length_bytes_hex].
Qed.

End CellFacts.

(** ** What a run of the export does to the bucket and the staging
    directory *)
Module RunFacts.
Import Py Pandas Checkpoint Orchestrator OrchestratorFacts.
#[local] Set Warnings "-clear-no-such-hyp".

Section Run.
Context {rt : PyRuntime} (cfg : config) (env : environment).

Local Notation "'iter'" := (iteration cfg env).
Local Notation "'found'" := (find cfg env).
Local Notation "'part'" := (part_blob_path cfg).
Local Notation "'staged'" := (part_local_path cfg).
Local Notation "'checkpoint_path'" := (checkpoint_blob_path cfg).

Lemma part_is_not_checkpoint (idx : Z) : part idx <> checkpoint_path.
Proof.
  unfold part_blob_path, checkpoint_blob_path, part_name. intros H.
  apply (inj (String.app (run_prefix cfg))) in H. discriminate H.
Qed.

Lemma part_is_not_manifest (idx : Z) : part idx <> manifest_blob cfg.
Proof.
  unfold part_blob_path, manifest_blob, part_name. intros H.
  apply (inj (String.app (run_prefix cfg))) in H. discriminate H.
Qed.

(** The world a turn leaves, in closed form. *)
Lemma iteration_world (st : loop_state) (w : world) :
  apply_events w (effects (iter st w))
  = match after (iter st w) with
    | None => w
    | Some st' =>
        let ckpt := checkpoint_dict st' (clock env (clock_reads w)) in
        if blob_exists w (part (chunk_idx st')) then
          mk_world (<[checkpoint_path := JsonBlob ckpt]> (gcs w))
                   (local_files w) (log_files w) (S (clock_reads w))
        else
          let df := fst (Normalizer.write_parquet_chunk (found (last_sort_value st))) in
          mk_world (<[checkpoint_path := JsonBlob ckpt]>
                      (<[part (chunk_idx st') := ParquetBlob df]> (gcs w)))
                   (if can_remove env (staged (chunk_idx st'))
                    then delete (staged (chunk_idx st'))
                                (<[staged (chunk_idx st') := df]> (local_files w))
                    else <[staged (chunk_idx st') := df]> (local_files w))
                   (log_files w) (S (clock_reads w))
    end.
Proof.
  unfold iteration. destruct (cap_reached cfg st); [reflexivity|].
  destruct (found (last_sort_value st)) as [|d b] eqn:E; [reflexivity|].
  cbv zeta.
  destruct (blob_exists w (part (chunk_idx (advance cfg st (d :: b))))) eqn:Ex;
    cbn [effects after]; rewrite Ex; [reflexivity|].
  unfold apply_events. cbn [foldl apply_event gcs local_files clock_reads].
  rewrite lookup_insert_eq.
  destruct (can_remove env _); reflexivity.
Qed.


Lemma iteration_write (st : loop_state) (w : world) :
  cap_reached cfg st = false ->
  found (last_sort_value st) <> [] ->
  blob_exists w (part (chunk_idx st + 1)) = false ->
  let batch := found (last_sort_value st) in
  let st' := advance cfg st batch in
  iter st w
  = mk_turn st
      [ Find (last_sort_value st) batch;
        BlobExists (part (chunk_idx st + 1)) false;
        WriteLocal (staged (chunk_idx st + 1)) (fst (Normalizer.write_parquet_chunk batch));
        Upload (part (chunk_idx st + 1)) (staged (chunk_idx st + 1));
        RemoveLocal (staged (chunk_idx st + 1)) (can_remove env (staged (chunk_idx st + 1)));
        SaveCheckpoint checkpoint_path (checkpoint_dict st' (clock env (clock_reads w))) ]
      (Some st').
Proof.
  intros Hcap Hb Hex. cbv zeta. unfold iteration. rewrite Hcap.
  destruct (found (last_sort_value st)) as [|d b] eqn:E; [contradiction|].
  cbn [advance chunk_idx]. rewrite Hex. reflexivity.
Qed.

Lemma run_started (fuel : nat) (w : world) :
  (turns (export_to_gcs cfg env fuel w) = []
   /\ manifest_written (export_to_gcs cfg env fuel w) = [])
  \/ exists st0, loaded (export_to_gcs cfg env fuel w) = Some st0.
Proof.
  unfold export_to_gcs. destruct (String.eqb _ _); [left; auto|].
  destruct (load_checkpoint cfg w); [|left; auto].
  destruct (resume_state _) as [st|]; [|left; auto].
  right. exists st.
  destruct (export_loop _ _ _ _ _) as [ts left]. destruct left; reflexivity.
Qed.

Lemma manifest_written_shape (fuel : nat) (w : world) :
  manifest_written (export_to_gcs cfg env fuel w) = []
  \/ exists m, manifest_written (export_to_gcs cfg env fuel w)
               = [WriteManifest (manifest_blob cfg) m].
Proof.
  unfold export_to_gcs. destruct (String.eqb _ _); [left; auto|].
  destruct (load_checkpoint cfg w); [|left; auto].
  destruct (resume_state _) as [st|]; [|left; auto].
  destruct (export_loop _ _ _ _ _) as [ts left].
  destruct left; [right; eexists; reflexivity | left; reflexivity].
Qed.

Lemma run_turns_chain (fuel : nat) (w : world) :
  exists st, chain cfg env st (start_clock w) (turns (export_to_gcs cfg env fuel w)).
Proof.
  destruct (run_started fuel w) as [[-> _]|[st0 Hl]].
  - exists (mk_state 0 0 VNone). constructor.
  - exists st0. apply run_chain. exact Hl.
Qed.

(** *** What a run leaves alone *)

Lemma iteration_keeps (st : loop_state) (w : world) (p : string) :
  p <> checkpoint_path ->
  (forall idx, p = part idx -> is_Some (gcs w !! p)) ->
  gcs (apply_events w (effects (iter st w))) !! p = gcs w !! p.
Proof.
  intros Hck Hpart. rewrite iteration_world.
  destruct (after (iter st w)) as [st'|]; [|reflexivity]. cbv zeta.
  destruct (blob_exists w (part (chunk_idx st'))) eqn:Ex; cbn [gcs].
  - apply lookup_insert_ne. congruence.
  - rewrite lookup_insert_ne by congruence.
    apply lookup_insert_ne. intros E.
    apply bool_decide_eq_false in Ex. apply Ex. rewrite E.
    apply (Hpart (chunk_idx st')). symmetry. exact E.
Qed.

Lemma chain_keeps (st : loop_state) (w : world) (ts : list turn) (p : string) :
  chain cfg env st w ts ->
  p <> checkpoint_path ->
  (forall idx, p = part idx -> is_Some (gcs w !! p)) ->
  gcs (apply_events w (trace_of ts)) !! p = gcs w !! p.
Proof.
  intros Hc Hck. induction Hc as [st w | st w Hstop | st w st' ts Hafter Hrest IH];
    intros Hpart.
  - reflexivity.
  - unfold trace_of. cbn [map concat]. rewrite app_nil_r.
    apply iteration_keeps; assumption.
  - rewrite trace_of_cons, apply_events_app.
    pose proof (iteration_keeps st w p Hck Hpart) as Hk.
    rewrite IH; [exact Hk|].
    intros idx Hidx. rewrite Hk. apply (Hpart idx Hidx).
Qed.

(** X3: a run changes no blob other than the checkpoint, the manifest and
    part blobs that were absent when it started; in particular a chunk
    that is already in the bucket is never uploaded again. *)
Theorem run_leaves_other_blobs (fuel : nat) (w : world) (p : string) :
  p <> checkpoint_blob_path cfg ->
  p <> manifest_blob cfg ->
  (forall idx, p = part_blob_path cfg idx -> is_Some (gcs w !! p)) ->
  gcs (world_after w (export_to_gcs cfg env fuel w)) !! p = gcs w !! p.
Proof.
  intros Hck Hman Hpart. rewrite gcs_world_after, apply_events_app.
  destruct (run_turns_chain fuel w) as [st Hc].
  pose proof (chain_keeps st (start_clock w) _ p Hc Hck Hpart) as Hk.
  destruct (manifest_written_shape fuel w) as [->|[m ->]]; [exact Hk|].
  rewrite gcs_after_manifest, lookup_insert_ne by congruence. exact Hk.
Qed.

(** *** The staging directory *)

Definition staged_leftover (w0 : world) (w : world) : Prop :=
  forall p f, local_files w !! p = Some f ->
    local_files w0 !! p = Some f
    \/ exists idx, p = staged idx /\ can_remove env p = false.

Lemma iteration_staging (w0 : world) (st : loop_state) (w : world) :
  staged_leftover w0 w -> staged_leftover w0 (apply_events w (effects (iter st w))).
Proof.
  intros H. rewrite iteration_world.
  destruct (after (iter st w)) as [st'|]; [|exact H]. cbv zeta.
  destruct (blob_exists w (part (chunk_idx st'))); [exact H|].
  intros p f. cbn [local_files].
  destruct (decide (p = staged (chunk_idx st'))) as [->|Hp].
  - destruct (can_remove env (staged (chunk_idx st'))) eqn:Er.
    + rewrite lookup_delete_eq. discriminate.
    + intros _. right. exists (chunk_idx st'). auto.
  - destruct (can_remove env (staged (chunk_idx st')));
      rewrite ?lookup_delete_ne, lookup_insert_ne by congruence; apply H.
Qed.

Lemma chain_staging (w0 : world) (st : loop_state) (w : world) (ts : list turn) :
  chain cfg env st w ts ->
  staged_leftover w0 w -> staged_leftover w0 (apply_events w (trace_of ts)).
Proof.
  induction 1 as [st w | st w Hstop | st w st' ts Hafter Hrest IH]; intros H.
  - exact H.
  - unfold trace_of. cbn [map concat]. rewrite app_nil_r. apply iteration_staging. exact H.
  - rewrite trace_of_cons, apply_events_app. apply IH. apply iteration_staging. exact H.
Qed.

Lemma log_file_export_to_gcs (fuel : nat) (w : world) :
  log_file (export_to_gcs cfg env fuel w) = log_path cfg.
Proof.
  unfold export_to_gcs. destruct (String.eqb _ _); [reflexivity|].
  destruct (load_checkpoint cfg w); [|reflexivity].
  destruct (resume_state _) as [st|]; [|reflexivity].
  destruct (export_loop _ _ _ _ _) as [ts left]. destruct left; reflexivity.
Qed.

(** The first call of [logging] is the one of [setup_logging]. *)
Lemma logged_first (fuel : nat) (w : world) :
  LOG_LEVEL cfg <= 20 ->
  hd_error (logged (export_to_gcs cfg env fuel w)) = Some (LogFile (log_path cfg)).
Proof.
  intros Hlev.
  assert (Hinfo : (LOG_LEVEL cfg <=? 20)%Z = true) by (apply Z.leb_le; exact Hlev).
  unfold export_to_gcs, setup_logging, emitted.
  destruct (String.eqb _ _); [cbn [logged List.filter levelno]; rewrite Hinfo; reflexivity|].
  destruct (load_checkpoint cfg w);
    [|cbn [logged app List.filter levelno]; rewrite Hinfo; reflexivity].
  destruct (resume_state _) as [st|];
    [|cbn [logged app List.filter levelno]; rewrite Hinfo; reflexivity].
  destruct (export_loop _ _ _ _ _) as [ts left].
  destruct left; cbn [logged app List.filter levelno]; rewrite Hinfo; reflexivity.
Qed.

Lemma log_path_is_not_part (idx : Z) : log_path cfg <> staged idx.
Proof.
  unfold log_path, part_local_path, path_join, part_name. intros H.
  destruct (String.eqb (LOCAL_TMP_DIR cfg) ""); [discriminate H|].
  destruct (Text.endswith (LOCAL_TMP_DIR cfg) "/").
  - apply (inj (String.app (LOCAL_TMP_DIR cfg))) in H. discriminate H.
  - apply (inj (String.app (LOCAL_TMP_DIR cfg))) in H.
    apply (inj (String.app "/")) in H. discriminate H.
Qed.

(** X4: the staging directory after a run.  A parquet file found there
    was there before with the same content, or it is a part file that
    [os.remove] failed to remove.  The log file of the run,
    [export_to_gcs.log] in [LOCAL_TMP_DIR], is there: it holds what it
    held before, or nothing when it was absent, followed by the records
    of the run, the first of which names the log file when the level is
    [INFO] or lower.  The log file is none of the part files, and every
    other log file is as it was. *)
Theorem run_cleans_staging (fuel : nat) (w : world) :
  let r := export_to_gcs cfg env fuel w in
  (forall p f, local_files (world_after w r) !! p = Some f ->
     local_files w !! p = Some f
     \/ exists idx, p = part_local_path cfg idx /\ can_remove env p = false)
  /\ log_files (world_after w r) !! log_path cfg
     = Some (default [] (log_files w !! log_path cfg) ++ logged r)%list
  /\ (forall p, p <> log_path cfg -> log_files (world_after w r) !! p = log_files w !! p)
  /\ (LOG_LEVEL cfg <= 20 -> hd_error (logged r) = Some (LogFile (log_path cfg)))
  /\ (forall idx, log_path cfg <> part_local_path cfg idx).
Proof.
  cbv zeta. split.
  { intros p f. rewrite local_files_world_after, apply_events_app.
    destruct (run_turns_chain fuel w) as [st Hc].
    assert (H0 : staged_leftover w (start_clock w)) by (intros q g Hq; left; exact Hq).
    pose proof (chain_staging w st (start_clock w) _ Hc H0) as Hk.
    destruct (manifest_written_shape fuel w) as [->|[m ->]]; apply Hk. }
  rewrite log_files_world_after, log_file_export_to_gcs.
  split; [apply lookup_insert_eq|].
  split; [intros p Hp; apply lookup_insert_ne; congruence|].
  split; [apply logged_first | apply log_path_is_not_part].
Qed.


(** *** The write path *)

(** X5: in a turn that does not find the blob of its chunk, the effects
    are the query, the existence check, the local write of the
    normalized frame of the batch, the upload, the removal attempt and
    the checkpoint save, in that order; when the turn ends the part blob
    holds that frame, the staged file is gone if the removal succeeded
    and still holds the frame if it did not, and the checkpoint blob
    holds the advanced state: the dict saved has the advanced index, the
    count raised by the length of the batch and the encoded sort value
    of its last document. *)
Theorem missing_chunk_is_written (fuel : nat) (w : world) (st0 : loop_state)
    (pre post : list turn) (t : turn) :
  loaded (export_to_gcs cfg env fuel w) = Some st0 ->
  turns (export_to_gcs cfg env fuel w) = (pre ++ t :: post)%list ->
  let w_t := apply_events (start_clock w) (trace_of pre) in
  let batch := found (last_sort_value (before t)) in
  let st' := advance cfg (before t) batch in
  let blob_path := part_blob_path cfg (chunk_idx (before t) + 1) in
  let local_path := part_local_path cfg (chunk_idx (before t) + 1) in
  let df := Normalizer.normalize_df_for_parquet (DataFrame batch) in
  cap_reached cfg (before t) = false ->
  batch <> [] ->
  blob_exists w_t blob_path = false ->
  effects t
  = [ Find (last_sort_value (before t)) batch;
      BlobExists blob_path false;
      WriteLocal local_path df;
      Upload blob_path local_path;
      RemoveLocal local_path (can_remove env local_path);
      SaveCheckpoint (checkpoint_blob_path cfg)
                     (checkpoint_dict st' (clock env (clock_reads w_t))) ]
  /\ after t = Some st'
  /\ gcs (apply_events w_t (effects t)) !! blob_path = Some (ParquetBlob df)
  /\ local_files (apply_events w_t (effects t)) !! local_path
     = (if can_remove env local_path then None else Some df)
  /\ gcs (apply_events w_t (effects t)) !! checkpoint_blob_path cfg
     = Some (JsonBlob (checkpoint_dict st' (clock env (clock_reads w_t))))
  /\ get (checkpoint_dict st' (clock env (clock_reads w_t))) "chunk_idx"
     = VInt (chunk_idx (before t) + 1)
  /\ get (checkpoint_dict st' (clock env (clock_reads w_t))) "exported_docs"
     = VInt (exported_docs (before t) + Z.of_nat (List.length batch))
  /\ get (checkpoint_dict st' (clock env (clock_reads w_t))) "last_sort_value"
     = VDict (encode_sort_value (get (List.last batch []) (SORT_FIELD cfg))).
Proof.
  intros Hl Ht. cbv zeta. intros Hcap Hbatch Hex.
  assert (Hfields :
            get (checkpoint_dict (advance cfg (before t) (found (last_sort_value (before t))))
                   (clock env (clock_reads (apply_events (start_clock w) (trace_of pre)))))
                "chunk_idx"
            = VInt (chunk_idx (before t) + 1)
            /\ get (checkpoint_dict
                      (advance cfg (before t) (found (last_sort_value (before t))))
                      (clock env (clock_reads (apply_events (start_clock w) (trace_of pre)))))
                   "exported_docs"
               = VInt (exported_docs (before t)
                       + Z.of_nat (List.length (found (last_sort_value (before t)))))
            /\ get (checkpoint_dict
                      (advance cfg (before t) (found (last_sort_value (before t))))
                      (clock env (clock_reads (apply_events (start_clock w) (trace_of pre)))))
                   "last_sort_value"
               = VDict (encode_sort_value
                          (get (List.last (found (last_sort_value (before t))) [])
                               (SORT_FIELD cfg))))
    by (repeat split; reflexivity).
  pose proof (run_chain cfg env fuel w st0 Hl) as Hc. rewrite Ht in Hc.
  destruct (chain_split cfg env st0 (start_clock w) pre post t Hc) as (Hit & _).
  set (w_t := apply_events (start_clock w) (trace_of pre)) in *.
  assert (Hb : before t = final_state st0 pre)
    by (rewrite Hit at 1; apply iteration_before).
  rewrite <- Hb in Hit.
  pose proof (iteration_write (before t) w_t Hcap Hbatch Hex) as Hw. cbv zeta in Hw.
  rewrite <- Hit in Hw.
  assert (He : effects t = effects (iter (before t) w_t)) by (rewrite <- Hit; reflexivity).
  assert (Ha : after t = Some (advance cfg (before t) (found (last_sort_value (before t)))))
    by (rewrite Hw at 1; reflexivity).
  split; [rewrite Hw at 1; reflexivity|].
  split; [exact Ha|].
  match goal with
  | |- ?A /\ ?B /\ ?C /\ _ => assert (Hworld : A /\ B /\ C)
  end.
  { rewrite He, iteration_world, <- Hit, Ha. cbv zeta.
    cbn [advance chunk_idx]. rewrite Hex. cbn [gcs local_files].
    split; [rewrite lookup_insert_ne by (apply not_eq_sym, part_is_not_checkpoint);
            apply lookup_insert_eq|].
    split; [|apply lookup_insert_eq].
    destruct (can_remove env _); [apply lookup_delete_eq | apply lookup_insert_eq]. }
  destruct Hworld as (H1 & H2 & H3). destruct Hfields as (F1 & F2 & F3).
  split; [exact H1|]. split; [exact H2|]. split; [exact H3|].
  split; [exact F1|]. split; [exact F2 | exact F3].
Qed.

(** *** The manifest and the checkpoint *)

Lemma resume_state_fields (ckpt : pydict) (st : loop_state) :
  resume_state ckpt = Some st ->
  py_int (get_default ckpt "chunk_idx" (VInt 0)) = Some (chunk_idx st)
  /\ py_int (get_default ckpt "exported_docs" (VInt 0)) = Some (exported_docs st).
Proof.
  unfold resume_state.
  destruct (py_int (get_default ckpt "chunk_idx" (VInt 0))) as [idx|]; [|discriminate].
  destruct (py_int (get_default ckpt "exported_docs" (VInt 0))) as [n|]; [|discriminate].
  destruct (get_default ckpt "last_sort_value" _); try discriminate.
  destruct (decode_sort_value kvs); [|discriminate].
  intros [= <-]. auto.
Qed.

(** X6: when a run has finished, the manifest is in the bucket and its
    [chunks] and [exported_docs] are the [chunk_idx] and [exported_docs]
    read from the checkpoint the run leaves (the defaults when there is
    no checkpoint blob). *)
Theorem manifest_agrees_with_checkpoint (fuel : nat) (w : world) :
  ended (export_to_gcs cfg env fuel w) = Finished ->
  let r := export_to_gcs cfg env fuel w in
  exists m ckpt chunks docs,
    manifest_written r = [WriteManifest (manifest_blob cfg) m]
    /\ gcs (world_after w r) !! manifest_blob cfg = Some (JsonBlob m)
    /\ load_checkpoint cfg (world_after w r) = Some ckpt
    /\ py_int (get_default ckpt "chunk_idx" (VInt 0)) = Some chunks
    /\ py_int (get_default ckpt "exported_docs" (VInt 0)) = Some docs
    /\ get m "chunks" = VInt chunks
    /\ get m "exported_docs" = VInt docs.
Proof.
  intros Hend. cbv zeta.
  destruct (export_to_gcs_finished cfg env fuel w Hend) as (st0 & Hl & _ & Hleft).
  destruct (export_to_gcs_loaded cfg env fuel w st0 Hl) as ((ck & Hck & Hres) & _ & _ & Hman).
  rewrite Hleft in Hman.
  pose proof (run_chain cfg env fuel w st0 Hl) as Hc.
  set (r := export_to_gcs cfg env fuel w) in *.
  set (W := apply_events (start_clock w) (trace_of (turns r))) in *.
  assert (Hg : gcs (world_after w r)
               = <[manifest_blob cfg :=
                     JsonBlob (manifest_dict cfg (final_state st0 (turns r))
                                 (clock env (clock_reads w)) (clock env (clock_reads W)))]>
                   (gcs W)).
  { unfold world_after. rewrite apply_events_app, Hman. apply gcs_after_manifest. }
  assert (Hload : load_checkpoint cfg (world_after w r) = load_checkpoint cfg W).
  { apply load_checkpoint_gcs. rewrite Hg. apply lookup_insert_ne.
    apply manifest_is_not_checkpoint. }
  assert (Hstate : exists ckpt, load_checkpoint cfg W = Some ckpt
                     /\ resume_state ckpt = Some (final_state st0 (turns r))
                        \/ load_checkpoint cfg W = Some ckpt
                           /\ exists now, ckpt = checkpoint_dict (final_state st0 (turns r)) now).
  { destruct (chain_checkpoint cfg env _ _ _ Hc) as [[Hf Hw]|[[now Hnow] _]].
    - exists ck. left. fold W in Hw. rewrite Hw, Hf. split; [|exact Hres].
      rewrite <- Hck. apply load_checkpoint_gcs. reflexivity.
    - eexists. right. split; [|exists now; reflexivity].
      unfold load_checkpoint. fold W in Hnow. rewrite Hnow. reflexivity. }
  destruct Hstate as [ckpt Hstate].
  exists (manifest_dict cfg (final_state st0 (turns r))
            (clock env (clock_reads w)) (clock env (clock_reads W))),
         ckpt, (chunk_idx (final_state st0 (turns r))),
         (exported_docs (final_state st0 (turns r))).
  split; [exact Hman|].
  split; [rewrite Hg; apply lookup_insert_eq|].
  rewrite Hload.
  destruct Hstate as [[Hc1 Hr1]|[Hc1 [now ->]]].
  - destruct (resume_state_fields ckpt _ Hr1) as [H1 H2].
    repeat split; assumption || reflexivity.
  - repeat split; try assumption; reflexivity.
Qed.

(** *** Edge values of the cap *)

(** X7: with a negative [MAX_DOCS] and a count that is not negative, the
    first turn leaves the loop without a query, and the run only loads
    the checkpoint and writes the manifest. *)
Theorem negative_cap_exports_nothing (fuel : nat) (w : world) (st0 : loop_state) :
  MAX_DOCS cfg < 0 ->
  loaded (export_to_gcs cfg env (S fuel) w) = Some st0 ->
  0 <= exported_docs st0 ->
  let r := export_to_gcs cfg env (S fuel) w in
  turns r = [mk_turn st0 [] None]
  /\ ended r = Finished
  /\ exists m, run_trace cfg r
               = [ LoadCheckpoint (checkpoint_blob_path cfg);
                   WriteManifest (manifest_blob cfg) m ].
Proof.
  intros Hmax Hl H0. cbv zeta.
  destruct (export_to_gcs_loaded cfg env (S fuel) w st0 Hl) as (_ & Hts & Hend & Hman).
  assert (Hcap : cap_reached cfg st0 = true).
  { unfold cap_reached. apply andb_true_iff. split.
    - apply negb_true_iff, Z.eqb_neq. lia.
    - apply Z.leb_le. lia. }
  assert (Hit : iter st0 (start_clock w) = mk_turn st0 [] None)
    by (unfold iteration; rewrite Hcap; reflexivity).
  assert (Hloop : export_loop cfg env (S fuel) st0 (start_clock w)
                  = ([mk_turn st0 [] None], true))
    by (cbn [export_loop]; rewrite Hit; reflexivity).
  rewrite Hloop in Hts, Hend, Hman. cbn [fst snd] in *.
  split; [exact Hts|]. split; [exact Hend|].
  unfold run_trace. rewrite Hts, Hman. eexists. reflexivity.
Qed.


(** *** Saving and loading the checkpoint *)

(** X8: after [save_checkpoint] of the dict built for a state,
    [load_checkpoint] returns that dict, and the state read from it has
    the same chunk index and count; the sort value comes back as it was
    when it is [None], an identifier of twelve bytes, an int, a float, a
    bool or a str, as its ISO text when it is a timestamp, and as
    [str(v)] for any other kind. *)
Theorem checkpoint_save_then_load (w : world) (st : loop_state) (now : datetime) :
  well_formed (last_sort_value st) ->
  let ckpt := checkpoint_dict st now in
  let w' := apply_event w (SaveCheckpoint (checkpoint_blob_path cfg) ckpt) in
  load_checkpoint cfg w' = Some ckpt
  /\ resume_state ckpt
     = Some (mk_state (chunk_idx st) (exported_docs st)
               (match last_sort_value st with
                | VDatetime d => VStr (isoformat d)
                | VBytes _ | VList _ | VDict _ => VStr (py_str (last_sort_value st))
                | v => v
                end)).
Proof.
  intros Hw. cbv zeta. split.
  - unfold load_checkpoint. rewrite gcs_after_save, lookup_insert_eq. reflexivity.
  - destruct st as [idx n last]. cbn [last_sort_value chunk_idx exported_docs] in *.
    destruct last; try reflexivity.
    unfold resume_state, checkpoint_dict.
    cbn [chunk_idx exported_docs last_sort_value].
    change (get_default _ "chunk_idx" (VInt 0)) with (VInt idx).
    change (get_default _ "exported_docs" (VInt 0)) with (VInt n).
    change (get_default _ "last_sort_value" _)
      with (VDict (encode_sort_value (VObjectId oid))).
    cbn [py_int].
    rewrite (CheckpointFacts.restorable_decode_encode rt (VObjectId oid)); [reflexivity|].
    repeat split. exact Hw.
Qed.

End Run.

(** A checkpoint for the state after one chunk of two documents, with an
    identifier as sort value, is read back as that state. *)
Lemma checkpoint_save_then_load_witness :
  well_formed (VObjectId Scenario.an_oid)
  /\ @resume_state Scenario.example_runtime
       (@checkpoint_dict Scenario.example_runtime
          (mk_state 1 2 (VObjectId Scenario.an_oid)) Scenario.a_datetime)
     = Some (mk_state 1 2 (VObjectId Scenario.an_oid)).
Proof.
  split; [reflexivity|].
  apply (@checkpoint_save_then_load Scenario.example_runtime (ExportScenario.cfg 0)
           ExportScenario.empty_world (mk_state 1 2 (VObjectId Scenario.an_oid))
           Scenario.a_datetime).
  reflexivity.
Defined.

(** The chunk a crash left in the bucket is still the same blob after
    the resumed run. *)
Lemma run_leaves_other_blobs_witness :
  part_blob_path (ExportScenario.cfg 0) 1 <> checkpoint_blob_path (ExportScenario.cfg 0)
  /\ part_blob_path (ExportScenario.cfg 0) 1 <> manifest_blob (ExportScenario.cfg 0)
  /\ is_Some (gcs ExportScenario.crashed_after_first_upload
                !! part_blob_path (ExportScenario.cfg 0) 1)
  /\ gcs (ExportScenario.after_export 0 10 ExportScenario.crashed_after_first_upload)
       !! part_blob_path (ExportScenario.cfg 0) 1
     = gcs ExportScenario.crashed_after_first_upload
         !! part_blob_path (ExportScenario.cfg 0) 1.
Proof.
  assert (H1 : part_blob_path (ExportScenario.cfg 0) 1
               <> checkpoint_blob_path (ExportScenario.cfg 0))
    by apply part_is_not_checkpoint.
  assert (H2 : part_blob_path (ExportScenario.cfg 0) 1 <> manifest_blob (ExportScenario.cfg 0))
    by apply part_is_not_manifest.
  assert (H3 : is_Some (gcs ExportScenario.crashed_after_first_upload
                          !! part_blob_path (ExportScenario.cfg 0) 1))
    by (vm_compute; eauto).
  split; [exact H1|]. split; [exact H2|]. split; [exact H3|].
  apply (@run_leaves_other_blobs Scenario.example_runtime (ExportScenario.cfg 0)
           ExportScenario.env 10 ExportScenario.crashed_after_first_upload
           (part_blob_path (ExportScenario.cfg 0) 1) H1 H2).
  intros idx _. exact H3.
Defined.

(** Where no staged file can be removed, the first chunk's file is still
    in the staging directory after the run, under its part name, beside
    the log file, which starts with the record of its own path. *)
Lemma run_cleans_staging_witness :
  exists f records,
    local_files
      (world_after ExportScenario.empty_world
         (@export_to_gcs Scenario.example_runtime (ExportScenario.cfg 0)
            EdgeScenario.env_keeping_files 10 ExportScenario.empty_world))
      !! "/tmp/mongo_export/part-000001.parquet" = Some f
    /\ (local_files ExportScenario.empty_world !! "/tmp/mongo_export/part-000001.parquet"
        = Some f
        \/ exists idx,
             "/tmp/mongo_export/part-000001.parquet"
             = part_local_path (ExportScenario.cfg 0) idx
             /\ can_remove EdgeScenario.env_keeping_files
                  "/tmp/mongo_export/part-000001.parquet" = false)
    /\ log_files
         (world_after ExportScenario.empty_world
            (@export_to_gcs Scenario.example_runtime (ExportScenario.cfg 0)
               EdgeScenario.env_keeping_files 10 ExportScenario.empty_world))
         !! "/tmp/mongo_export/export_to_gcs.log"
       = Some (LogFile "/tmp/mongo_export/export_to_gcs.log" :: records).
Proof.
  assert (E : exists f,
             local_files
               (world_after ExportScenario.empty_world
                  (@export_to_gcs Scenario.example_runtime (ExportScenario.cfg 0)
                     EdgeScenario.env_keeping_files 10 ExportScenario.empty_world))
               !! "/tmp/mongo_export/part-000001.parquet" = Some f)
    by (vm_compute; eauto).
  assert (L : exists records,
             logged (@export_to_gcs Scenario.example_runtime (ExportScenario.cfg 0)
                       EdgeScenario.env_keeping_files 10 ExportScenario.empty_world)
             = LogFile "/tmp/mongo_export/export_to_gcs.log" :: records)
    by (vm_compute; eauto).
  destruct E as [f Hf]. destruct L as [records Hr]. exists f, records.
  destruct (@run_cleans_staging Scenario.example_runtime (ExportScenario.cfg 0)
              EdgeScenario.env_keeping_files 10 ExportScenario.empty_world)
    as (Hstaged & Hlog & _).
  split; [exact Hf|]. split; [exact (Hstaged _ f Hf)|].
  etransitivity; [exact Hlog|]. rewrite Hr. reflexivity.
Defined.

(** The first turn of the example run writes chunk one: its blob holds
    the frame of the first two documents and the staged file is gone. *)
Lemma missing_chunk_is_written_witness :
  exists st0 t post,
    loaded (ExportScenario.export 0 10 ExportScenario.empty_world) = Some st0
    /\ turns (ExportScenario.export 0 10 ExportScenario.empty_world) = ([] ++ t :: post)%list
    /\ after t = Some (mk_state 1 2 (VInt 2))
    /\ gcs (apply_events (start_clock ExportScenario.empty_world) (effects t))
         !! part_blob_path (ExportScenario.cfg 0) 1
       = Some (ParquetBlob
                 (mk_frame 2 [("_id", SInt64 [1; 2]); ("name", SObject [VStr "x"; VStr "x"])]))
    /\ local_files (apply_events (start_clock ExportScenario.empty_world) (effects t))
         !! part_local_path (ExportScenario.cfg 0) 1 = None.
Proof.
  assert (E : exists st0 t post,
             loaded (ExportScenario.export 0 10 ExportScenario.empty_world) = Some st0
             /\ turns (ExportScenario.export 0 10 ExportScenario.empty_world)
                = ([] ++ t :: post)%list
             /\ before t = mk_state 0 0 VNone)
    by (vm_compute; repeat eexists).
  destruct E as (st0 & t & post & Hl & Ht & Hb).
  exists st0, t, post.
  destruct (@missing_chunk_is_written Scenario.example_runtime (ExportScenario.cfg 0)
              ExportScenario.env 10 ExportScenario.empty_world st0 [] post t Hl Ht)
    as (_ & Haft & Hblob & Hlocal & _).
  - rewrite Hb. vm_compute. reflexivity.
  - rewrite Hb. vm_compute. discriminate.
  - rewrite Hb. vm_compute. reflexivity.
  - split; [exact Hl|]. split; [exact Ht|].
    split; [rewrite Haft, Hb; vm_compute; reflexivity|].
    rewrite Hb in Hblob, Hlocal.
    split; [etransitivity; [exact Hblob | vm_compute; reflexivity]|].
    etransitivity; [exact Hlocal | vm_compute; reflexivity].
Defined.

(** The example run ends with three chunks and five documents in both
    the manifest and the checkpoint. *)
Lemma manifest_agrees_with_checkpoint_witness :
  ended (ExportScenario.export 0 10 ExportScenario.empty_world) = Finished
  /\ exists m ckpt chunks docs,
       gcs (ExportScenario.after_export 0 10 ExportScenario.empty_world)
         !! manifest_blob (ExportScenario.cfg 0) = Some (JsonBlob m)
       /\ @load_checkpoint Scenario.example_runtime (ExportScenario.cfg 0)
            (ExportScenario.after_export 0 10 ExportScenario.empty_world) = Some ckpt
       /\ py_int (get_default ckpt "chunk_idx" (VInt 0)) = Some chunks
       /\ py_int (get_default ckpt "exported_docs" (VInt 0)) = Some docs
       /\ get m "chunks" = VInt chunks
       /\ get m "exported_docs" = VInt docs.
Proof.
  assert (Hend : ended (ExportScenario.export 0 10 ExportScenario.empty_world) = Finished)
    by (vm_compute; reflexivity).
  split; [exact Hend|].
  destruct (@manifest_agrees_with_checkpoint Scenario.example_runtime (ExportScenario.cfg 0)
              ExportScenario.env 10 ExportScenario.empty_world Hend)
    as (m & ckpt & chunks & docs & _ & H1 & H2 & H3 & H4 & H5 & H6).
  exists m, ckpt, chunks, docs.
  split; [exact H1|]. split; [exact H2|]. split; [exact H3|]. split; [exact H4|].
  split; [exact H5 | exact H6].
Defined.

(** With a cap of minus one the example run reads nothing and writes the
    manifest only. *)
Lemma negative_cap_exports_nothing_witness :
  MAX_DOCS (ExportScenario.cfg (-1)) < 0
  /\ loaded (ExportScenario.export (-1) 1 ExportScenario.empty_world)
     = Some (mk_state 0 0 VNone)
  /\ turns (ExportScenario.export (-1) 1 ExportScenario.empty_world)
     = [mk_turn (mk_state 0 0 VNone) [] None]
  /\ ended (ExportScenario.export (-1) 1 ExportScenario.empty_world) = Finished.
Proof.
  assert (Hm : MAX_DOCS (ExportScenario.cfg (-1)) < 0) by (vm_compute; reflexivity).
  assert (Hl : loaded (ExportScenario.export (-1) 1 ExportScenario.empty_world)
               = Some (mk_state 0 0 VNone)) by (vm_compute; reflexivity).
  destruct (@negative_cap_exports_nothing Scenario.example_runtime (ExportScenario.cfg (-1))
              ExportScenario.env 0 ExportScenario.empty_world (mk_state 0 0 VNone) Hm Hl)
    as (Ht & He & _); [vm_compute; discriminate|].
  split; [exact Hm|]. split; [exact Hl|]. split; [exact Ht | exact He].
Defined.

End RunFacts.

(** ** The documents a run reads *)
Module CoverageFacts.
Import Py Pandas Checkpoint Orchestrator ExportTrace OrchestratorFacts.
#[local] Set Warnings "-clear-no-such-hyp".

Lemma length_filter_lt {A : Type} (f : A -> bool) (l : list A) (x : A) :
  In x l -> f x = false -> (List.length (List.filter f l) < List.length l)%nat.
Proof.
  induction l as [|a l IH]; intros Hin Hf; [destruct Hin|].
  pose proof (List.filter_length_le f l) as Hle.
  cbn [List.filter List.length]. destruct Hin as [->|Hin].
  - rewrite Hf. lia.
  - specialize (IH Hin Hf). destruct (f a); cbn [List.length]; lia.
Qed.

Lemma filter_filter_implied {A : Type} (f g : A -> bool) (l : list A) :
  (forall x, In x l -> f x = true -> g x = true) ->
  List.filter f (List.filter g l) = List.filter f l.
Proof.
  induction l as [|a l IH]; intros H; [reflexivity|].
  cbn [List.filter].
  assert (IH' := IH (fun x Hx => H x (or_intror Hx))).
  destruct (g a) eqn:Eg; cbn [List.filter].
  - rewrite IH'. reflexivity.
  - destruct (f a) eqn:Ef; [|exact IH'].
    rewrite (H a (or_introl eq_refl) Ef) in Eg. discriminate.
Qed.

Lemma filter_all {A : Type} (f : A -> bool) (l : list A) :
  (forall x, In x l -> f x = true) -> List.filter f l = l.
Proof.
  induction l as [|a l IH]; intros H; [reflexivity|].
  cbn [List.filter]. rewrite (H a (or_introl eq_refl)), IH; [reflexivity|].
  intros x Hx. apply H. right. exact Hx.
Qed.

Lemma filter_none {A : Type} (f : A -> bool) (l : list A) :
  (forall x, In x l -> f x = false) -> List.filter f l = [].
Proof.
  induction l as [|a l IH]; intros H; [reflexivity|].
  cbn [List.filter]. rewrite (H a (or_introl eq_refl)). apply IH.
  intros x Hx. apply H. right. exact Hx.
Qed.

Lemma documents_read_app (a b : list event) :
  documents_read (a ++ b) = (documents_read a ++ documents_read b)%list.
Proof. unfold documents_read. rewrite map_app, concat_app. reflexivity. Qed.

Lemma limit_nil (n : Z) (l : list pydict) : limit n l = [] -> l = [].
Proof.
  unfold limit. destruct (Z.eqb_spec n 0) as [_|Hn]; [auto|].
  destruct l as [|d l]; [reflexivity|].
  destruct (Z.abs_nat n) eqn:E; [lia | discriminate].
Qed.

Lemma limit_split (n : Z) (l : list pydict) : exists rest, l = (limit n l ++ rest)%list.
Proof.
  unfold limit. destruct (n =? 0)%Z.
  - exists []. rewrite app_nil_r. reflexivity.
  - exists (skipn (Z.abs_nat n) l). symmetry. apply firstn_skipn.
Qed.

Section Coverage.
Context {rt : PyRuntime} (cfg : config) (env : environment).

Local Notation "'iter'" := (iteration cfg env).
Local Notation "'found'" := (find cfg env).
Local Notation "'key'" := (fun d : pydict => get d (SORT_FIELD cfg)).

(** The documents a query with the cursor at [last] selects, before the
    limit. *)
Definition remaining (last : pyval) : list pydict :=
  match last with
  | VNone => collection env
  | _ => List.filter (fun d => bson_gt env (get d (SORT_FIELD cfg)) last) (collection env)
  end.

Lemma find_remaining (last : pyval) :
  found last = limit (BATCH_SIZE cfg) (remaining last).
Proof. destruct last; reflexivity. Qed.

Lemma remaining_cursor (last : pyval) :
  last <> VNone ->
  remaining last
  = List.filter (fun d => bson_gt env (get d (SORT_FIELD cfg)) last) (collection env).
Proof. destruct last; intros H; try reflexivity. contradiction. Qed.

Lemma remaining_incl (last : pyval) : incl (remaining last) (collection env).
Proof.
  destruct last; try apply incl_refl; intros x Hx; apply filter_In in Hx as [Hx _]; exact Hx.
Qed.

Lemma remaining_length (last : pyval) :
  (List.length (remaining last) <= List.length (collection env))%nat.
Proof. destruct last; try apply Nat.le_refl; apply List.filter_length_le. Qed.

Lemma iteration_documents (st : loop_state) (w : world) :
  documents_read (effects (iter st w))
  = match after (iter st w) with
    | Some _ => found (last_sort_value st)
    | None => []
    end.
Proof.
  unfold iteration. destruct (cap_reached cfg st); [reflexivity|].
  destruct (found (last_sort_value st)) as [|d b]; [reflexivity|].
  destruct (blob_exists w _); cbn [effects after]; unfold documents_read;
    cbn [map concat]; rewrite ?app_nil_r; reflexivity.
Qed.

Lemma final_state_cons (st : loop_state) (t : turn) (ts : list turn) :
  final_state st (t :: ts)
  = final_state (match after t with Some s' => s' | None => st end) ts.
Proof. reflexivity. Qed.


Lemma export_to_gcs_loads (fuel : nat) (w : world) (ckpt : pydict) (st : loop_state) :
  GCS_BUCKET cfg <> "" ->
  load_checkpoint cfg w = Some ckpt ->
  resume_state ckpt = Some st ->
  loaded (export_to_gcs cfg env fuel w) = Some st.
Proof.
  intros Hb Hck Hres. unfold export_to_gcs.
  apply String.eqb_neq in Hb. rewrite Hb, Hck, Hres.
  destruct (export_loop cfg env fuel st (start_clock w)) as [ts left].
  destruct left; reflexivity.
Qed.

Lemma fresh_start (fuel : nat) (w : world) :
  GCS_BUCKET cfg <> "" ->
  gcs w !! checkpoint_blob_path cfg = None ->
  loaded (export_to_gcs cfg env fuel w) = Some (mk_state 0 0 VNone).
Proof.
  intros Hb Hnone.
  apply (export_to_gcs_loads fuel w
           [ ("chunk_idx", VInt 0); ("exported_docs", VInt 0);
             ("last_sort_value", VDict (encode_sort_value VNone)) ]);
    [exact Hb | unfold load_checkpoint; rewrite Hnone; reflexivity | reflexivity].
Qed.

Lemma documents_read_run_trace (fuel : nat) (w : world) :
  documents_read (run_trace cfg (export_to_gcs cfg env fuel w))
  = documents_read (trace_of (turns (export_to_gcs cfg env fuel w))).
Proof.
  unfold run_trace.
  change (documents_read (LoadCheckpoint (checkpoint_blob_path cfg) :: ?l))
    with (documents_read l).
  rewrite documents_read_app.
  assert (H : documents_read (manifest_written (export_to_gcs cfg env fuel w)) = []).
  { unfold export_to_gcs. destruct (String.eqb _ _); [reflexivity|].
    destruct (load_checkpoint cfg w); [|reflexivity].
    destruct (resume_state _); [|reflexivity].
    destruct (export_loop _ _ _ _ _) as [ts left]. destruct left; reflexivity. }
  rewrite H, app_nil_r. reflexivity.
Qed.

Lemma cap_reached_iff (st : loop_state) :
  cap_reached cfg st = true <-> MAX_DOCS cfg <> 0 /\ MAX_DOCS cfg <= exported_docs st.
Proof.
  unfold cap_reached. rewrite andb_true_iff, negb_true_iff, Z.eqb_neq, Z.leb_le. tauto.
Qed.


(** *** A batch that ends without a sort value *)

Lemma export_loop_cursor_lost (fuel : nat) (st : loop_state) (w : world) :
  MAX_DOCS cfg = 0 ->
  last_sort_value st = VNone ->
  found VNone <> [] ->
  last_key cfg (found VNone) = VNone ->
  snd (export_loop cfg env fuel st w) = false
  /\ List.length (fst (export_loop cfg env fuel st w)) = fuel
  /\ Forall (fun t => documents_read (effects t) = found VNone
                      /\ last_sort_value (before t) = VNone)
            (fst (export_loop cfg env fuel st w)).
Proof.
  intros Hmax. revert st w. induction fuel as [|fuel IH]; intros st w Hlast Hne Hkey.
  - cbn [export_loop fst snd List.length]. auto.
  - cbn [export_loop].
    assert (Hcap : cap_reached cfg st = false)
      by (unfold cap_reached; rewrite Hmax; reflexivity).
    pose proof (iteration_documents st w) as Hdocs.
    pose proof (iteration_before cfg env st w) as Hbefore.
    destruct (after (iter st w)) as [st'|] eqn:E.
    + destruct (iteration_after cfg env st st' w E) as (_ & _ & Hadv).
      assert (Hlast' : last_sort_value st' = VNone)
        by (rewrite Hadv, Hlast; exact Hkey).
      specialize (IH st' (apply_events w (effects (iter st w))) Hlast' Hne Hkey).
      destruct (export_loop cfg env fuel st' _) as [ts left].
      cbn [fst snd List.length] in *. destruct IH as (IH1 & IH2 & IH3).
      split; [exact IH1|]. split; [rewrite IH2; reflexivity|].
      constructor; [|exact IH3].
      rewrite Hdocs, Hbefore, Hlast. auto.
    + destruct (iteration_stop cfg env st w E) as [[Hc _]|(_ & Hnil & _)].
      * congruence.
      * rewrite Hlast in Hnil. contradiction.
Qed.

(** X9: from a bucket without checkpoint and with no cap, if the batch
    read without a cursor is not empty and its last document has no sort
    value, the loop is never left: after any number of turns the run is
    still running, and every turn started without a cursor and read that
    same batch. *)
Theorem cursor_is_lost_without_sort_value (fuel : nat) (w : world) :
  GCS_BUCKET cfg <> "" ->
  gcs w !! checkpoint_blob_path cfg = None ->
  MAX_DOCS cfg = 0 ->
  found VNone <> [] ->
  last_key cfg (found VNone) = VNone ->
  let r := export_to_gcs cfg env fuel w in
  ended r = StillRunning
  /\ List.length (turns r) = fuel
  /\ Forall (fun t => documents_read (effects t) = found VNone
                      /\ last_sort_value (before t) = VNone)
            (turns r).
Proof.
  intros Hb Hnone Hmax Hne Hkey. cbv zeta.
  pose proof (fresh_start fuel w Hb Hnone) as Hl.
  destruct (export_to_gcs_loaded cfg env fuel w _ Hl) as (_ & Hts & Hend & _).
  destruct (export_loop_cursor_lost fuel (mk_state 0 0 VNone) (start_clock w)
              Hmax eq_refl Hne Hkey) as (H1 & H2 & H3).
  rewrite Hend, Hts, H1. auto.
Qed.

Section StrictOrder.
Hypothesis gt_irreflexive : forall a, bson_gt env a a = false.
Hypothesis gt_transitive :
  forall a b c, bson_gt env a b = true -> bson_gt env b c = true -> bson_gt env a c = true.
Hypothesis keys_present :
  Forall (fun d => get d (SORT_FIELD cfg) <> VNone) (collection env).

Lemma key_present (d : pydict) : In d (collection env) -> get d (SORT_FIELD cfg) <> VNone.
Proof. rewrite List.Forall_forall in keys_present. apply keys_present. Qed.

Lemma gt_asymmetric (a b : pyval) : bson_gt env a b = true -> bson_gt env b a = false.
Proof.
  intros H. destruct (bson_gt env b a) eqn:E; [|reflexivity].
  pose proof (gt_transitive a b a H E) as T.
  rewrite (gt_irreflexive a) in T. discriminate T.
Qed.

(** Every batch moves the cursor past at least one document. *)
Lemma remaining_shrinks (last : pyval) :
  found last <> [] ->
  (List.length (remaining (last_key cfg (found last))) < List.length (remaining last))%nat.
Proof.
  intros Hne. unfold last_key.
  set (d := List.last (found last) []).
  assert (Hd : In d (found last)) by (apply last_In; exact Hne).
  assert (Hrem : In d (remaining last))
    by (rewrite find_remaining in Hd; apply limit_incl in Hd; exact Hd).
  assert (Hcol : In d (collection env)) by (apply (remaining_incl last); exact Hrem).
  rewrite (remaining_cursor _ (key_present d Hcol)).
  assert (Hcase : last = VNone \/ last <> VNone)
    by (destruct last; auto; right; discriminate).
  destruct Hcase as [->|Hl].
  - apply (length_filter_lt _ _ d Hcol). apply gt_irreflexive.
  - rewrite (remaining_cursor last Hl) in *.
    rewrite <- (filter_filter_implied
                  (fun x => bson_gt env (get x (SORT_FIELD cfg)) (get d (SORT_FIELD cfg)))
                  (fun x => bson_gt env (get x (SORT_FIELD cfg)) last)).
    + apply (length_filter_lt _ _ d Hrem). apply gt_irreflexive.
    + intros x _ Hx. apply (gt_transitive _ _ _ Hx).
      apply filter_In in Hrem as [_ Hrem]. exact Hrem.
Qed.

Lemma export_loop_finishes (fuel : nat) (st : loop_state) (w : world) :
  (List.length (remaining (last_sort_value st)) < fuel)%nat ->
  snd (export_loop cfg env fuel st w) = true.
Proof.
  revert st w. induction fuel as [|fuel IH]; intros st w Hf; [lia|].
  cbn [export_loop].
  destruct (after (iter st w)) as [st'|] eqn:E; [|reflexivity].
  destruct (iteration_after cfg env st st' w E) as (_ & Hne & Hadv).
  pose proof (remaining_shrinks (last_sort_value st) Hne) as Hlt.
  assert (Hl : last_sort_value st' = last_key cfg (found (last_sort_value st)))
    by (rewrite Hadv; reflexivity).
  rewrite <- Hl in Hlt.
  specialize (IH st' (apply_events w (effects (iter st w))) ltac:(lia)).
  destruct (export_loop cfg env fuel st' _) as [ts left]. exact IH.
Qed.

(** X10: when [$gt] is irreflexive and transitive and every document has
    a sort value, a run that loaded its checkpoint and is observed for
    more turns than the collection has documents has finished, after at
    most one turn more than there are documents. *)
Theorem export_terminates (fuel : nat) (w : world) (st0 : loop_state) :
  loaded (export_to_gcs cfg env fuel w) = Some st0 ->
  (List.length (collection env) < fuel)%nat ->
  ended (export_to_gcs cfg env fuel w) = Finished
  /\ (List.length (turns (export_to_gcs cfg env fuel w))
      <= S (List.length (collection env)))%nat.
Proof.
  intros Hl Hf.
  destruct (export_to_gcs_loaded cfg env fuel w st0 Hl) as (_ & Hts & Hend & _).
  pose proof (remaining_length (last_sort_value st0)) as Hr.
  split.
  - rewrite Hend, (export_loop_finishes fuel st0 (start_clock w)); [reflexivity | lia].
  - rewrite Hts.
    assert (G : forall n st w',
               (List.length (remaining (last_sort_value st)) < n)%nat ->
               (List.length (fst (export_loop cfg env n st w'))
                <= S (List.length (remaining (last_sort_value st))))%nat).
    { intros n. induction n as [|n IH]; intros st w' Hn; [lia|].
      cbn [export_loop].
      destruct (after (iter st w')) as [st'|] eqn:E; [|cbn [fst List.length]; lia].
      destruct (iteration_after cfg env st st' w' E) as (_ & Hne & Hadv).
      pose proof (remaining_shrinks (last_sort_value st) Hne) as Hlt.
      assert (Hl' : last_sort_value st' = last_key cfg (found (last_sort_value st)))
        by (rewrite Hadv; reflexivity).
      rewrite <- Hl' in Hlt.
      specialize (IH st' (apply_events w' (effects (iter st w'))) ltac:(lia)).
      destruct (export_loop cfg env n st' _) as [ts left].
      cbn [fst List.length] in *. lia. }
    specialize (G fuel st0 (start_clock w) ltac:(lia)). lia.
Qed.


Local Notation "'ascending'" :=
  (fun d1 d2 : pydict =>
     bson_gt env (get d2 (SORT_FIELD cfg)) (get d1 (SORT_FIELD cfg)) = true).

Lemma sorted_after (pre post : list pydict) (x : pydict) :
  StronglySorted ascending (pre ++ x :: post) ->
  List.filter (fun d => bson_gt env (get d (SORT_FIELD cfg)) (get x (SORT_FIELD cfg)))
              (pre ++ x :: post)
  = post.
Proof.
  induction pre as [|a pre IH]; intros Hs.
  - apply StronglySorted_inv in Hs as [_ Hx]. rewrite List.Forall_forall in Hx.
    cbn [app List.filter]. rewrite gt_irreflexive. apply filter_all. exact Hx.
  - cbn [app] in Hs. apply StronglySorted_inv in Hs as [Hs Ha].
    rewrite List.Forall_forall in Ha.
    assert (Hax : bson_gt env (get x (SORT_FIELD cfg)) (get a (SORT_FIELD cfg)) = true)
      by (apply Ha; apply in_or_app; right; left; reflexivity).
    cbn [app List.filter]. rewrite (gt_asymmetric _ _ Hax). apply IH. exact Hs.
Qed.

Section Sorted.
Hypothesis collection_sorted : StronglySorted ascending (collection env).

(** A batch is the head of what remained, and the cursor it leaves
    selects the tail. *)
Lemma remaining_after_batch (last : pyval) (done : list pydict) :
  collection env = (done ++ remaining last)%list ->
  found last <> [] ->
  remaining last = (found last ++ remaining (last_key cfg (found last)))%list.
Proof.
  intros Hcol Hne.
  destruct (limit_split (BATCH_SIZE cfg) (remaining last)) as [rest Hrest].
  rewrite <- find_remaining in Hrest.
  destruct (exists_last Hne) as (init & d & Hb).
  assert (Hd : In d (collection env)).
  { apply (find_in_collection cfg env last). rewrite Hb. apply in_or_app. right. left.
    reflexivity. }
  unfold last_key. rewrite Hb at 2. rewrite last_last.
  rewrite (remaining_cursor _ (key_present d Hd)).
  assert (Hsplit : collection env = ((done ++ init) ++ d :: rest)%list).
  { rewrite Hcol, Hrest, Hb, <- !app_assoc. reflexivity. }
  pose proof collection_sorted as Hs. rewrite Hsplit in Hs.
  rewrite Hsplit at 1. rewrite (sorted_after _ _ _ Hs). exact Hrest.
Qed.

Lemma export_loop_reads (fuel : nat) (st : loop_state) (w : world) (done : list pydict) :
  collection env = (done ++ remaining (last_sort_value st))%list ->
  let ts := fst (export_loop cfg env fuel st w) in
  let docs := documents_read (trace_of ts) in
  remaining (last_sort_value st)
  = (docs ++ remaining (last_sort_value (final_state st ts)))%list
  /\ exported_docs (final_state st ts) = exported_docs st + Z.of_nat (List.length docs)
  /\ (snd (export_loop cfg env fuel st w) = true ->
      cap_reached cfg (final_state st ts) = true
      \/ remaining (last_sort_value (final_state st ts)) = []).
Proof.
  revert st w done. induction fuel as [|fuel IH]; intros st w done Hcol; cbv zeta.
  - cbn [export_loop fst snd]. split; [reflexivity|].
    split; [change (exported_docs st = exported_docs st + 0); lia | discriminate].
  - cbn [export_loop]. pose proof (iteration_documents st w) as Hdocs.
    destruct (after (iter st w)) as [st'|] eqn:E.
    + destruct (iteration_after cfg env st st' w E) as (_ & Hne & Hadv).
      assert (Hl : last_sort_value st' = last_key cfg (found (last_sort_value st)))
        by (rewrite Hadv; reflexivity).
      pose proof (remaining_after_batch _ done Hcol Hne) as Hrem.
      rewrite <- Hl in Hrem.
      assert (Hcol' : collection env
                      = ((done ++ found (last_sort_value st))
                         ++ remaining (last_sort_value st'))%list)
        by (rewrite Hcol, Hrem at 1; rewrite app_assoc; reflexivity).
      specialize (IH st' (apply_events w (effects (iter st w))) _ Hcol').
      destruct (export_loop cfg env fuel st' _) as [ts left]. cbv zeta in IH.
      cbn [fst snd] in *. destruct IH as (IH1 & IH2 & IH3).
      rewrite trace_of_cons, documents_read_app, Hdocs, final_state_cons, E.
      split; [rewrite <- app_assoc, <- IH1; exact Hrem|].
      split; [|exact IH3].
      rewrite IH2, length_app, Nat2Z.inj_add, Hadv. unfold advance. cbn [exported_docs]. lia.
    + cbn [fst snd]. rewrite trace_of_cons, documents_read_app, Hdocs, final_state_cons, E.
      cbn [trace_of map concat documents_read app final_state foldl].
      split; [reflexivity|]. split; [change (exported_docs st = exported_docs st + 0); lia|].
      intros _.
      destruct (iteration_stop cfg env st w E) as [[Hcap _]|(_ & Hnil & _)]; [left; exact Hcap|].
      right. rewrite find_remaining in Hnil. apply limit_nil in Hnil. exact Hnil.
Qed.


(** X11: with a strict [$gt], a collection in strictly ascending order of
    a sort value every document has, and no checkpoint in the bucket:
    the documents a run reads are a prefix of the collection, in order,
    none skipped and none read twice; [exported_docs] is their number; a
    finished run read all of them unless the cap stopped it; and with no
    cap a run observed long enough read exactly the collection. *)
Theorem fresh_export_reads_in_order (fuel : nat) (w : world) :
  GCS_BUCKET cfg <> "" ->
  gcs w !! checkpoint_blob_path cfg = None ->
  let r := export_to_gcs cfg env fuel w in
  let docs := documents_read (run_trace cfg r) in
  exists rest,
    collection env = (docs ++ rest)%list
    /\ exported_docs (final_state (mk_state 0 0 VNone) (turns r))
       = Z.of_nat (List.length docs)
    /\ (ended r = Finished ->
        rest = [] \/ (MAX_DOCS cfg <> 0 /\ MAX_DOCS cfg <= Z.of_nat (List.length docs)))
    /\ (MAX_DOCS cfg = 0 -> (List.length (collection env) < fuel)%nat ->
        docs = collection env).
Proof.
  intros Hb Hnone. cbv zeta.
  pose proof (fresh_start fuel w Hb Hnone) as Hl.
  destruct (export_to_gcs_loaded cfg env fuel w _ Hl) as (_ & Hts & Hend & _).
  rewrite documents_read_run_trace.
  destruct (export_loop_reads fuel (mk_state 0 0 VNone) (start_clock w) [] eq_refl)
    as (Hrem & Hexp & Hleft).
  rewrite <- Hts in Hrem, Hexp, Hleft.
  set (r := export_to_gcs cfg env fuel w) in *.
  set (final := final_state (mk_state 0 0 VNone) (turns r)) in *.
  assert (Hstop : snd (export_loop cfg env fuel (mk_state 0 0 VNone) (start_clock w)) = true ->
                  remaining (last_sort_value final) = []
                  \/ (MAX_DOCS cfg <> 0
                      /\ MAX_DOCS cfg
                         <= Z.of_nat (List.length (documents_read (trace_of (turns r)))))).
  { intros H. destruct (Hleft H) as [Hcap|Hnil]; [right | left; exact Hnil].
    apply cap_reached_iff in Hcap. rewrite Hexp in Hcap. cbn [exported_docs] in Hcap.
    split; [tauto | lia]. }
  exists (remaining (last_sort_value final)).
  split; [exact Hrem|].
  split; [rewrite Hexp; cbn [exported_docs]; lia|].
  split.
  - rewrite Hend.
    destruct (snd (export_loop cfg env fuel (mk_state 0 0 VNone) (start_clock w)));
      [|discriminate].
    intros _. apply Hstop. reflexivity.
  - intros Hmax Hfuel.
    assert (Hfin : snd (export_loop cfg env fuel (mk_state 0 0 VNone) (start_clock w)) = true)
      by (apply export_loop_finishes; exact Hfuel).
    destruct (Hstop Hfin) as [Hnil|[Hne _]]; [|contradiction].
    rewrite Hnil, app_nil_r in Hrem. symmetry. exact Hrem.
Qed.

(** X12: under the same conditions, with sort values the checkpoint gives
    back: a second run started in the bucket a first run left, whether
    that one finished or was stopped between two turns, resumes from the
    state the first one reached, and the documents of the two runs
    together are a prefix of the collection in order, all of it when the
    second run finishes without the cap. *)
Theorem resumed_export_reads_the_rest (fuel1 fuel2 : nat) (w : world) :
  Forall (fun d => restorable (get d (SORT_FIELD cfg))) (collection env) ->
  GCS_BUCKET cfg <> "" ->
  gcs w !! checkpoint_blob_path cfg = None ->
  let r1 := export_to_gcs cfg env fuel1 w in
  let r2 := export_to_gcs cfg env fuel2 (world_after w r1) in
  let docs1 := documents_read (run_trace cfg r1) in
  let docs2 := documents_read (run_trace cfg r2) in
  exists rest,
    collection env = (docs1 ++ docs2 ++ rest)%list
    /\ loaded r2 = Some (final_state (mk_state 0 0 VNone) (turns r1))
    /\ (ended r2 = Finished ->
        rest = []
        \/ (MAX_DOCS cfg <> 0
            /\ MAX_DOCS cfg <= Z.of_nat (List.length docs1 + List.length docs2))).
Proof.
  intros Hrt Hb Hnone. cbv zeta.
  pose proof (fresh_start fuel1 w Hb Hnone) as Hl1.
  destruct (export_to_gcs_loaded cfg env fuel1 w _ Hl1) as (_ & Hts1 & _ & Hman1).
  destruct (finished_run_checkpoint cfg env fuel1 w _ Hrt Hl1) as (ck & Hck & Hres).
  destruct (export_loop_reads fuel1 (mk_state 0 0 VNone) (start_clock w) [] eq_refl)
    as (Hrem1 & Hexp1 & _).
  rewrite <- Hts1 in Hrem1, Hexp1.
  rewrite !documents_read_run_trace.
  set (r1 := export_to_gcs cfg env fuel1 w) in *.
  set (f1 := final_state (mk_state 0 0 VNone) (turns r1)) in *.
  set (w1 := world_after w r1).
  assert (Hck1 : load_checkpoint cfg w1 = Some ck).
  { rewrite <- Hck. apply load_checkpoint_gcs.
    unfold w1. rewrite gcs_world_after, apply_events_app, Hman1.
    destruct (snd (export_loop cfg env fuel1 _ _)); [|reflexivity].
    rewrite gcs_after_manifest. apply lookup_insert_ne. apply manifest_is_not_checkpoint. }
  pose proof (export_to_gcs_loads fuel2 w1 ck f1 Hb Hck1 Hres) as Hl2.
  destruct (export_to_gcs_loaded cfg env fuel2 w1 _ Hl2) as (_ & Hts2 & Hend2 & _).
  assert (Hcol : collection env
                 = (documents_read (trace_of (turns r1))
                    ++ remaining (last_sort_value f1))%list) by exact Hrem1.
  destruct (export_loop_reads fuel2 f1 (start_clock w1) _ Hcol) as (Hrem2 & Hexp2 & Hleft2).
  rewrite <- Hts2 in Hrem2, Hexp2, Hleft2.
  set (r2 := export_to_gcs cfg env fuel2 w1) in *.
  exists (remaining (last_sort_value (final_state f1 (turns r2)))).
  split; [rewrite <- Hrem2; exact Hcol|].
  split; [exact Hl2|].
  rewrite Hend2.
  destruct (snd (export_loop cfg env fuel2 f1 (start_clock w1))); [|discriminate].
  intros _. destruct (Hleft2 eq_refl) as [Hcap|Hnil]; [right | left; exact Hnil].
  apply cap_reached_iff in Hcap. rewrite Hexp2, Hexp1 in Hcap. cbn [exported_docs] in Hcap.
  split; [tauto | lia].
Qed.

(** *** The size of the chunks *)

(** The cursor of every turn of a chain selects a tail of the
    collection. *)
Lemma chain_tail (st : loop_state) (w : world) (pre post : list turn) (t : turn) :
  chain cfg env st w (pre ++ t :: post) ->
  (exists done, collection env = (done ++ remaining (last_sort_value st))%list) ->
  exists done, collection env = (done ++ remaining (last_sort_value (before t)))%list.
Proof.
  revert st w. induction pre as [|p pre IH]; intros st w Hc Hinv.
  - cbn [app] in Hc.
    assert (Hb : before t = st).
    { inversion Hc; subst; apply iteration_before. }
    rewrite Hb. exact Hinv.
  - cbn [app] in Hc.
    inversion Hc as [| st1 w1 Hstop Hl | st1 w1 st' ts Hafter Hrest]; subst.
    + destruct pre; discriminate.
    + apply (IH st' _ Hrest).
      destruct Hinv as [done Hdone].
      destruct (iteration_after cfg env st st' w Hafter) as (_ & Hne & Hadv).
      pose proof (remaining_after_batch _ done Hdone Hne) as Hrem.
      exists (done ++ found (last_sort_value st))%list.
      rewrite Hadv. cbn [advance last_sort_value].
      rewrite <- app_assoc, <- Hrem. exact Hdone.
Qed.

(** X27: with a positive batch size, under the conditions of X11, a
    turn that is followed by a turn that goes on read exactly
    [BATCH_SIZE] documents: only the last chunk of a run can be
    shorter. *)
Theorem only_the_last_chunk_is_short (fuel : nat) (w : world)
    (pre post : list turn) (t next : turn) :
  0 < BATCH_SIZE cfg ->
  GCS_BUCKET cfg <> "" ->
  gcs w !! checkpoint_blob_path cfg = None ->
  turns (export_to_gcs cfg env fuel w) = (pre ++ t :: next :: post)%list ->
  after next <> None ->
  Z.of_nat (List.length (found (last_sort_value (before t)))) = BATCH_SIZE cfg.
Proof.
  intros HB Hb Hnone Ht Hnext.
  pose proof (fresh_start fuel w Hb Hnone) as Hl.
  pose proof (run_chain cfg env fuel w _ Hl) as Hc. rewrite Ht in Hc.
  destruct (chain_tail _ _ pre (next :: post) t Hc (ex_intro _ [] eq_refl)) as [done Hdone].
  assert (Hc2 : chain cfg env (mk_state 0 0 VNone) (start_clock w)
                  ((pre ++ [t]) ++ next :: post))
    by (rewrite <- app_assoc; exact Hc).
  destruct (chain_split cfg env _ _ pre (next :: post) t Hc) as (Hit & _).
  destruct (chain_split cfg env _ _ (pre ++ [t]) post next Hc2) as (Hin & _ & Hall & _).
  assert (Haft : after t <> None).
  { rewrite List.Forall_forall in Hall. apply Hall. apply in_or_app. right. left. reflexivity. }
  destruct (after t) as [st'|] eqn:Eaft; [|contradiction]. clear Haft.
  assert (Hbt : before t = final_state (mk_state 0 0 VNone) pre)
    by (rewrite Hit at 1; apply iteration_before).
  rewrite <- Hbt in Hit.
  assert (Eaft' : after (iter (before t) (apply_events (start_clock w) (trace_of pre)))
                  = Some st') by (rewrite <- Hit; exact Eaft).
  destruct (iteration_after cfg env _ _ _ Eaft') as (_ & Hne & Hadv).
  pose proof (remaining_after_batch _ done Hdone Hne) as Hrem.
  assert (Hfs : final_state (mk_state 0 0 VNone) (pre ++ [t]) = st').
  { unfold final_state. rewrite foldl_app. cbn [foldl]. rewrite Eaft. reflexivity. }
  rewrite Hfs in Hin.
  assert (Hnext' : after (iter st' (apply_events (start_clock w) (trace_of (pre ++ [t]))))
                   <> None) by (rewrite <- Hin; exact Hnext).
  destruct (after (iter st' _)) as [st''|] eqn:En; [|contradiction].
  destruct (iteration_after cfg env _ _ _ En) as (_ & Hne' & _).
  assert (Hlast : last_sort_value st' = last_key cfg (found (last_sort_value (before t))))
    by (rewrite Hadv; reflexivity).
  pose proof (find_length cfg env (last_sort_value (before t)) HB) as Hle.
  destruct (Z.eq_dec (Z.of_nat (List.length (found (last_sort_value (before t)))))
                     (BATCH_SIZE cfg)) as [E|E]; [exact E|].
  exfalso. apply Hne'.
  rewrite find_remaining in *. rewrite Hlast.
  set (rem := remaining (last_sort_value (before t))) in *.
  assert (Hall' : limit (BATCH_SIZE cfg) rem = rem).
  { unfold limit in *. destruct (Z.eqb_spec (BATCH_SIZE cfg) 0) as [E0|_]; [lia|].
    apply firstn_all2. rewrite length_firstn in Hle, E. lia. }
  rewrite Hall' in Hrem |- *.
  assert (Hnil : remaining (last_key cfg rem) = []).
  { apply (f_equal (@List.length _)) in Hrem. rewrite length_app in Hrem.
    destruct (remaining (last_key cfg rem)); [reflexivity | cbn in Hrem; lia]. }
  rewrite Hnil. unfold limit. destruct (BATCH_SIZE cfg =? 0)%Z; [reflexivity|].
  apply firstn_nil.
Qed.

End Sorted.

End StrictOrder.
End Coverage.

(** *** The order of the examples *)

Lemma int_gt_irreflexive (a : pyval) : ExportScenario.int_gt a a = false.
Proof. destruct a; try reflexivity. apply Z.ltb_irrefl. Qed.

Lemma int_gt_transitive (a b c : pyval) :
  ExportScenario.int_gt a b = true -> ExportScenario.int_gt b c = true ->
  ExportScenario.int_gt a c = true.
Proof.
  destruct a, b, c; try discriminate. cbn [ExportScenario.int_gt].
  rewrite !Z.ltb_lt. lia.
Qed.

Lemma five_documents_keys :
  Forall (fun d => get d (SORT_FIELD (ExportScenario.cfg 0)) <> VNone)
         (collection ExportScenario.env).
Proof. repeat constructor; discriminate. Qed.

Lemma five_documents_sorted :
  StronglySorted
    (fun d1 d2 : pydict =>
       bson_gt ExportScenario.env (get d2 (SORT_FIELD (ExportScenario.cfg 0)))
               (get d1 (SORT_FIELD (ExportScenario.cfg 0))) = true)
    (collection ExportScenario.env).
Proof. repeat constructor. Qed.

Lemma five_documents_restorable :
  Forall (fun d => restorable (get d (SORT_FIELD (ExportScenario.cfg 0))))
         (collection ExportScenario.env).
Proof. repeat constructor. Qed.

(** Two documents without [_id], batches of two: after four turns the
    run is still reading. *)
Lemma cursor_is_lost_without_sort_value_witness :
  GCS_BUCKET (ExportScenario.cfg 0) <> ""
  /\ find (ExportScenario.cfg 0) EdgeScenario.env_keyless VNone
     = EdgeScenario.keyless_documents
  /\ last_key (ExportScenario.cfg 0) EdgeScenario.keyless_documents = VNone
  /\ ended (@export_to_gcs Scenario.example_runtime (ExportScenario.cfg 0)
              EdgeScenario.env_keyless 4 ExportScenario.empty_world) = StillRunning
  /\ List.length (turns (@export_to_gcs Scenario.example_runtime (ExportScenario.cfg 0)
                           EdgeScenario.env_keyless 4 ExportScenario.empty_world)) = 4%nat.
Proof.
  assert (Hb : GCS_BUCKET (ExportScenario.cfg 0) <> "") by discriminate.
  assert (Hf : find (ExportScenario.cfg 0) EdgeScenario.env_keyless VNone
               = EdgeScenario.keyless_documents) by reflexivity.
  assert (Hk : last_key (ExportScenario.cfg 0) EdgeScenario.keyless_documents = VNone)
    by reflexivity.
  destruct (@cursor_is_lost_without_sort_value Scenario.example_runtime
              (ExportScenario.cfg 0) EdgeScenario.env_keyless 4 ExportScenario.empty_world
              Hb eq_refl eq_refl)
    as (He & Hn & _).
  - rewrite Hf. discriminate.
  - rewrite Hf. exact Hk.
  - split; [exact Hb|]. split; [exact Hf|]. split; [exact Hk|]. split; [exact He | exact Hn].
Defined.

(** The example run, observed for ten turns, has finished. *)
Lemma export_terminates_witness :
  loaded (ExportScenario.export 0 10 ExportScenario.empty_world) = Some (mk_state 0 0 VNone)
  /\ (List.length (collection ExportScenario.env) < 10)%nat
  /\ ended (ExportScenario.export 0 10 ExportScenario.empty_world) = Finished.
Proof.
  assert (Hl : loaded (ExportScenario.export 0 10 ExportScenario.empty_world)
               = Some (mk_state 0 0 VNone)) by (vm_compute; reflexivity).
  assert (Hn : (List.length (collection ExportScenario.env) < 10)%nat)
    by (vm_compute; lia).
  destruct (@export_terminates Scenario.example_runtime (ExportScenario.cfg 0)
              ExportScenario.env int_gt_irreflexive int_gt_transitive five_documents_keys
              10 ExportScenario.empty_world (mk_state 0 0 VNone) Hl Hn) as [He _].
  split; [exact Hl|]. split; [exact Hn | exact He].
Defined.

(** The example run reads the five documents, in order. *)
Lemma fresh_export_reads_in_order_witness :
  GCS_BUCKET (ExportScenario.cfg 0) <> ""
  /\ gcs ExportScenario.empty_world !! checkpoint_blob_path (ExportScenario.cfg 0) = None
  /\ documents_read
       (run_trace (ExportScenario.cfg 0)
          (ExportScenario.export 0 10 ExportScenario.empty_world))
     = ExportScenario.five_documents.
Proof.
  assert (Hb : GCS_BUCKET (ExportScenario.cfg 0) <> "") by discriminate.
  assert (Hn : gcs ExportScenario.empty_world !! checkpoint_blob_path (ExportScenario.cfg 0)
               = None) by reflexivity.
  destruct (@fresh_export_reads_in_order Scenario.example_runtime (ExportScenario.cfg 0)
              ExportScenario.env int_gt_irreflexive int_gt_transitive five_documents_keys
              five_documents_sorted 10 ExportScenario.empty_world Hb Hn)
    as (rest & _ & _ & _ & Hall).
  split; [exact Hb|]. split; [exact Hn|].
  apply Hall; [reflexivity | vm_compute; lia].
Defined.

(** The example run stopped after one turn and started again: the two
    runs together read the five documents, the second from the third on. *)
Lemma resumed_export_reads_the_rest_witness :
  GCS_BUCKET (ExportScenario.cfg 0) <> ""
  /\ gcs ExportScenario.empty_world !! checkpoint_blob_path (ExportScenario.cfg 0) = None
  /\ ended (ExportScenario.export 0 10 (ExportScenario.after_export 0 1
                                           ExportScenario.empty_world)) = Finished
  /\ exists rest,
       collection ExportScenario.env
       = (documents_read (run_trace (ExportScenario.cfg 0)
                            (ExportScenario.export 0 1 ExportScenario.empty_world))
          ++ documents_read
               (run_trace (ExportScenario.cfg 0)
                  (ExportScenario.export 0 10
                     (ExportScenario.after_export 0 1 ExportScenario.empty_world)))
          ++ rest)%list
       /\ rest = [].
Proof.
  assert (Hb : GCS_BUCKET (ExportScenario.cfg 0) <> "") by discriminate.
  assert (Hn : gcs ExportScenario.empty_world !! checkpoint_blob_path (ExportScenario.cfg 0)
               = None) by reflexivity.
  assert (He : ended (ExportScenario.export 0 10 (ExportScenario.after_export 0 1
                                                    ExportScenario.empty_world)) = Finished)
    by (vm_compute; reflexivity).
  destruct (@resumed_export_reads_the_rest Scenario.example_runtime (ExportScenario.cfg 0)
              ExportScenario.env int_gt_irreflexive int_gt_transitive five_documents_keys
              five_documents_sorted 1 10 ExportScenario.empty_world
              five_documents_restorable Hb Hn)
    as (rest & Hcol & _ & Hfin).
  split; [exact Hb|]. split; [exact Hn|]. split; [exact He|].
  exists rest. split; [exact Hcol|].
  destruct (Hfin He) as [Hr|[Hmax _]]; [exact Hr|].
  exfalso. apply Hmax. reflexivity.
Defined.

(** The example run: the first chunk, followed by another, holds two
    documents. *)
Lemma only_the_last_chunk_is_short_witness :
  exists t next post,
    0 < BATCH_SIZE (ExportScenario.cfg 0)
    /\ turns (ExportScenario.export 0 10 ExportScenario.empty_world)
       = ([] ++ t :: next :: post)%list
    /\ after next <> None
    /\ List.length (find (ExportScenario.cfg 0) ExportScenario.env
                         (last_sort_value (before t))) = 2%nat.
Proof.
  assert (E : exists t next post,
             turns (ExportScenario.export 0 10 ExportScenario.empty_world)
             = ([] ++ t :: next :: post)%list
             /\ after next = Some (mk_state 2 4 (VInt 4)))
    by (vm_compute; repeat eexists).
  destruct E as (t & next & post & Ht & Hn).
  exists t, next, post.
  assert (HB : 0 < BATCH_SIZE (ExportScenario.cfg 0)) by (vm_compute; reflexivity).
  assert (Hnext : after next <> None) by (rewrite Hn; discriminate).
  pose proof (@only_the_last_chunk_is_short Scenario.example_runtime (ExportScenario.cfg 0)
                ExportScenario.env int_gt_irreflexive int_gt_transitive five_documents_keys
                five_documents_sorted 10 ExportScenario.empty_world [] post t next HB
                ltac:(discriminate) eq_refl Ht Hnext) as H.
  split; [exact HB|]. split; [exact Ht|]. split; [exact Hnext|].
  change (BATCH_SIZE (ExportScenario.cfg 0)) with (Z.of_nat 2) in H.
  apply Nat2Z.inj in H. exact H.
Defined.

End CoverageFacts.

(** ** Strings *)
Module TextFacts.
Import Text.

Lemma append_cons (c : ascii) (a b : string) : String c a ++ b = String c (a ++ b).
Proof. reflexivity. Qed.

Lemma append_nil_l (b : string) : "" ++ b = b.
Proof. reflexivity. Qed.

Lemma length_append (a b : string) :
  String.length (a ++ b) = (String.length a + String.length b)%nat.
Proof.
  induction a as [|c a IH]; [reflexivity|].
  rewrite append_cons. cbn [String.length]. rewrite IH. reflexivity.
Qed.

Lemma drop_append (a b : string) : drop (String.length a) (a ++ b) = b.
Proof.
  induction a as [|c a IH].
  - rewrite append_nil_l. destruct b; reflexivity.
  - rewrite append_cons. cbn [String.length drop]. exact IH.
Qed.

Lemma drop_0 (s : string) : drop 0 s = s.
Proof. destruct s; reflexivity. Qed.

Lemma endswith_append (s x : string) : endswith (s ++ x) x = true.
Proof.
  unfold endswith. rewrite length_append.
  replace (String.length s + String.length x - String.length x)%nat
    with (String.length s) by lia.
  rewrite drop_append, String.eqb_refl, andb_true_r.
  apply Nat.leb_le. lia.
Qed.

(** What [lstrip] leaves does not begin with a stripped character. *)
Lemma lstrip_by_head (p : ascii -> bool) (s : string) (c : ascii) (r : string) :
  lstrip_by p s = String c r -> p c = false.
Proof.
  induction s as [|c' s IH]; cbn [lstrip_by]; [discriminate|].
  destruct (p c') eqn:E; [exact IH|]. intros [= <- <-]. exact E.
Qed.

Lemma lstrip_by_fixed (p : ascii -> bool) (c : ascii) (r : string) :
  p c = false -> lstrip_by p (String c r) = String c r.
Proof. intros H. cbn [lstrip_by]. rewrite H. reflexivity. Qed.

Lemma rstrip_by_head (p : ascii -> bool) (c : ascii) (r : string) :
  p c = false -> exists r', rstrip_by p (String c r) = String c r'.
Proof.
  intros H. cbn [rstrip_by]. destruct (rstrip_by p r) as [|c' r'].
  - rewrite H. eexists; reflexivity.
  - eexists; reflexivity.
Qed.

Lemma rstrip_by_idempotent (p : ascii -> bool) (s : string) :
  rstrip_by p (rstrip_by p s) = rstrip_by p s.
Proof.
  induction s as [|c s IH]; [reflexivity|].
  cbn [rstrip_by]. destruct (rstrip_by p s) as [|c' r'] eqn:E.
  - destruct (p c) eqn:Ep; [reflexivity|]. cbn [rstrip_by]. rewrite Ep. reflexivity.
  - cbn [rstrip_by]. cbn [rstrip_by] in IH.
    destruct (rstrip_by p r') as [|c'' r'']; rewrite IH; reflexivity.
Qed.

Lemma strip_idempotent (s : string) : strip (strip s) = strip s.
Proof.
  unfold strip.
  destruct (lstrip_by is_whitespace s) as [|c r] eqn:E; [reflexivity|].
  pose proof (lstrip_by_head _ _ _ _ E) as Hc.
  destruct (rstrip_by_head is_whitespace c r Hc) as [r' Hr].
  rewrite Hr at 1. rewrite (lstrip_by_fixed _ _ _ Hc), <- Hr.
  apply rstrip_by_idempotent.
Qed.



Lemma contains_tail (x : string) (c : ascii) (s : string) :
  Retry.contains x s = true -> Retry.contains x (String c s) = true.
Proof. intros H. cbn [Retry.contains]. rewrite H. apply orb_true_r. Qed.

Lemma contains_drop (x : string) (n : nat) (s : string) :
  Retry.contains x (drop n s) = true -> Retry.contains x s = true.
Proof.
  revert s. induction n as [|n IH]; intros s H; [rewrite drop_0 in H; exact H|].
  destruct s as [|c s]; [exact H|].
  apply contains_tail. apply IH. exact H.
Qed.

(** A string that ends with [x] contains what [x] contains. *)
Lemma endswith_contains (s x y : string) :
  Retry.contains y x = true -> endswith s x = true -> Retry.contains y s = true.
Proof.
  intros Hy He. unfold endswith in He. apply andb_true_iff in He as [_ He].
  apply String.eqb_eq in He.
  apply (contains_drop y (String.length s - String.length x)). rewrite He. exact Hy.
Qed.

Lemma lower_ascii_idempotent (c : ascii) : lower_ascii (lower_ascii c) = lower_ascii c.
Proof. destruct c as [[] [] [] [] [] [] [] []]; reflexivity. Qed.

Lemma lower_idempotent (s : string) : lower (lower s) = lower s.
Proof.
  induction s as [|c s IH]; [reflexivity|].
  cbn [lower]. rewrite lower_ascii_idempotent, IH. reflexivity.
Qed.

Lemma lstrip_by_all (p : ascii -> bool) (s : string) :
  (forall c, In c (list_ascii_of_string s) -> p c = false) -> lstrip_by p s = s.
Proof.
  destruct s as [|c s]; [reflexivity|]. intros H.
  apply lstrip_by_fixed. apply H. left. reflexivity.
Qed.

Lemma rstrip_by_all (p : ascii -> bool) (s : string) :
  (forall c, In c (list_ascii_of_string s) -> p c = false) -> rstrip_by p s = s.
Proof.
  induction s as [|c s IH]; [reflexivity|]. intros H.
  cbn [rstrip_by]. rewrite IH by (intros x Hx; apply H; right; exact Hx).
  destruct s; [|reflexivity].
  rewrite (H c (or_introl eq_refl)). reflexivity.
Qed.

Lemma lstrip_by_chars (p : ascii -> bool) (s : string) (c : ascii) :
  In c (list_ascii_of_string (lstrip_by p s)) -> In c (list_ascii_of_string s).
Proof.
  induction s as [|a s IH]; [auto|]. cbn [lstrip_by].
  destruct (p a); [|auto]. intros H. right. apply IH. exact H.
Qed.

Lemma append_chars (a b : string) :
  list_ascii_of_string (a ++ b)
  = (list_ascii_of_string a ++ list_ascii_of_string b)%list.
Proof.
  induction a as [|c a IH]; [reflexivity|].
  rewrite append_cons. cbn [list_ascii_of_string app]. rewrite IH. reflexivity.
Qed.

Lemma strip_all (s : string) :
  (forall c, In c (list_ascii_of_string s) -> is_whitespace c = false) -> strip s = s.
Proof.
  intros H. unfold strip. rewrite (lstrip_by_all _ s H). apply rstrip_by_all. exact H.
Qed.

Lemma append_assoc (a b c : string) : (a ++ b) ++ c = a ++ (b ++ c).
Proof.
  induction a as [|x a IH]; [reflexivity|].
  rewrite !append_cons, IH. reflexivity.
Qed.

End TextFacts.

(** ** The normalization script: prefixes, column sets, the cast and
    the pass *)
Module ScriptFacts.
Import Retry Text Drift TextFacts.
#[local] Set Warnings "-clear-no-such-hyp".

(** X13: the result of [ensure_trailing_slash] always ends with a slash;
    it begins with one only when it is the single slash; and it is the
    single slash exactly when nothing is left of the input after
    [strip()] and then [lstrip("/")], as for the empty string, blanks,
    slashes, or slashes between blanks.  Blanks between slashes stay:
    ["/ /"] gives [" /"]. *)
Theorem ensure_trailing_slash_shape (s : string) :
  endswith (ensure_trailing_slash s) "/" = true
  /\ (startswith (ensure_trailing_slash s) "/" = true -> ensure_trailing_slash s = "/")
  /\ (ensure_trailing_slash s = "/" <-> lstrip_slash (strip s) = "")
  /\ ensure_trailing_slash "" = "/"
  /\ ensure_trailing_slash " // " = "/"
  /\ ensure_trailing_slash "/ /" = " /".
Proof.
  assert (Hex : ensure_trailing_slash "" = "/" /\ ensure_trailing_slash " // " = "/"
                /\ ensure_trailing_slash "/ /" = " /")
    by (repeat split; vm_compute; reflexivity).
  unfold ensure_trailing_slash in *.
  destruct (lstrip_slash (strip s)) as [|c u] eqn:E.
  - split; [reflexivity|]. split; [reflexivity|].
    split; [split; reflexivity | exact Hex].
  - pose proof (lstrip_by_head _ _ _ _ E) as Hc.
    assert (Hstart : forall t, startswith (String c t) "/" = false).
    { intros t. unfold startswith. cbn [String.prefix].
      destruct (ascii_dec "/" c) as [<-|_]; [discriminate Hc | reflexivity]. }
    destruct (endswith (String c u) "/") eqn:Ee.
    + split; [exact Ee|]. split; [rewrite Hstart; discriminate|].
      split; [|exact Hex].
      split; [|discriminate].
      intros H. pose proof (Hstart u) as Hs. rewrite H in Hs. discriminate Hs.
    + split; [apply endswith_append|].
      split; [rewrite append_cons, Hstart; discriminate|].
      split; [|exact Hex].
      split; [|discriminate].
      intros H. pose proof (Hstart (u ++ "/")) as Hs.
      rewrite append_cons in H. rewrite H in Hs. discriminate Hs.
Qed.

(** X14: for a source path [bucket/src_prefix rest] the destination is
    [bucket/dst_prefix rest], and two such sources with the same
    destination have the same [rest]. *)
Theorem destination_mirrors (args : arguments) (src_prefix' dst_prefix' rest : string) :
  destination args src_prefix' dst_prefix' (bucket args ++ "/" ++ src_prefix' ++ rest)
  = bucket args ++ "/" ++ dst_prefix' ++ rest
  /\ forall rest',
       destination args src_prefix' dst_prefix' (bucket args ++ "/" ++ src_prefix' ++ rest)
       = destination args src_prefix' dst_prefix'
           (bucket args ++ "/" ++ src_prefix' ++ rest') ->
       rest = rest'.
Proof.
  assert (H : forall r,
             destination args src_prefix' dst_prefix'
               (bucket args ++ "/" ++ src_prefix' ++ r)
             = bucket args ++ "/" ++ dst_prefix' ++ r).
  { intros r. unfold destination.
    rewrite <- (append_assoc (bucket args) "/" (src_prefix' ++ r)).
    rewrite drop_append, drop_append. reflexivity. }
  split; [apply H|].
  intros rest' E. rewrite !H in E.
  apply (inj (String.app (bucket args))) in E.
  apply (inj (String.app "/")) in E.
  apply (inj (String.app dst_prefix')) in E. exact E.
Qed.

Lemma parse_csv_set_elem (s x : string) :
  x ∈ parse_csv_set s
  <-> x <> "" /\ exists piece, In piece (split_comma s) /\ strip piece = x.
Proof.
  unfold parse_csv_set. destruct (String.eqb_spec s "") as [->|Hs].
  - split; [intros H; apply elem_of_empty in H; destruct H|].
    intros (Hx & piece & Hp & <-). cbn in Hp. destruct Hp as [<-|[]].
    exfalso. apply Hx. reflexivity.
  - rewrite elem_of_list_to_set, list_elem_of_In, in_map_iff. split.
    + intros (piece & <- & Hp). apply filter_In in Hp as [Hp Hne].
      apply negb_true_iff, String.eqb_neq in Hne. split; [exact Hne|].
      exists piece. auto.
    + intros (Hx & piece & Hp & <-). exists piece. split; [reflexivity|].
      apply filter_In. split; [exact Hp|].
      apply negb_true_iff, String.eqb_neq. exact Hx.
Qed.

(** X15: a name is in [parse_csv_set s] exactly when it is not empty and
    is the stripped form of a comma-separated piece of [s]; every name of
    the set is stripped, and the empty name is never in it. *)
Theorem parse_csv_set_names (s : string) :
  (forall x, x ∈ parse_csv_set s
             <-> x <> "" /\ exists piece, In piece (split_comma s) /\ strip piece = x)
  /\ (forall x, x ∈ parse_csv_set s -> strip x = x)
  /\ "" ∉ parse_csv_set s.
Proof.
  split; [intros x; apply parse_csv_set_elem|]. split.
  - intros x Hx. apply parse_csv_set_elem in Hx as (_ & piece & _ & <-).
    apply strip_idempotent.
  - intros H. apply parse_csv_set_elem in H as [H _]. apply H. reflexivity.
Qed.



(** *** Twice the trailing slash *)

Lemma ensure_trailing_slash_ends (s : string) :
  endswith (ensure_trailing_slash s) "/" = true.
Proof.
  unfold ensure_trailing_slash.
  destruct (endswith (lstrip_slash (strip s)) "/") eqn:E; [exact E | apply endswith_append].
Qed.

(** X16: on a prefix without whitespace, [ensure_trailing_slash] applied
    twice gives what it gives once, so the prefix [main] slices paths
    with is the one [list_parquet_paths] lists, and the result has no
    whitespace either. *)
Theorem ensure_trailing_slash_idempotent (s : string) :
  (forall c, In c (list_ascii_of_string s) -> is_whitespace c = false) ->
  ensure_trailing_slash (ensure_trailing_slash s) = ensure_trailing_slash s
  /\ forall c, In c (list_ascii_of_string (ensure_trailing_slash s)) ->
               is_whitespace c = false.
Proof.
  intros Hs.
  assert (Hchars : forall c, In c (list_ascii_of_string (ensure_trailing_slash s)) ->
                             is_whitespace c = false).
  { intros c. unfold ensure_trailing_slash. rewrite (strip_all s Hs).
    destruct (endswith (lstrip_slash s) "/").
    - intros H. apply Hs. apply (lstrip_by_chars _ _ _ H).
    - rewrite append_chars. intros H. apply in_app_or in H as [H|[<-|[]]].
      + apply Hs. apply (lstrip_by_chars _ _ _ H).
      + reflexivity. }
  split; [|exact Hchars].
  pose proof (ensure_trailing_slash_ends s) as He.
  set (e := ensure_trailing_slash s) in *.
  assert (Hcase : e = "/" \/ exists c r, e = String c r /\ Ascii.eqb c "/" = false).
  { unfold e, ensure_trailing_slash.
    destruct (lstrip_slash (strip s)) as [|c u] eqn:E; [left; reflexivity|].
    right. pose proof (lstrip_by_head _ _ _ _ E) as Hc.
    destruct (endswith (String c u) "/"); [exists c, u; auto|].
    exists c, (u ++ "/"). auto. }
  destruct Hcase as [->|(c & r & Hcr & Hc)]; [reflexivity|].
  assert (Hl : lstrip_slash e = e)
    by (unfold lstrip_slash; rewrite Hcr; apply lstrip_by_fixed; exact Hc).
  unfold ensure_trailing_slash at 1. rewrite (strip_all e Hchars), Hl, He. reflexivity.
Qed.

(** *** The name rules *)

(** X17: [looks_suspicious] decides by the lower-cased name: a name is
    suspicious exactly when it starts with one of the prefixes, ends
    with [_key], or contains one of the listed fragments; the suffixes
    [_id], [_code] and [_type] never decide, since a name that ends with
    one of them contains [_id], [code] or [type]; and the answer for a
    name is the answer for its lower-cased form. *)
Theorem looks_suspicious_rules (col : string) :
  let c := lower col in
  looks_suspicious col
  = existsb (startswith c) SUSPICIOUS_PREFIXES
    || endswith c "_key"
    || existsb (fun x => contains x c) SUSPICIOUS_CONTAINS
  /\ looks_suspicious (lower col) = looks_suspicious col.
Proof.
  cbv zeta. split.
  - unfold looks_suspicious.
    destruct (existsb (startswith (lower col)) SUSPICIOUS_PREFIXES); [reflexivity|].
    cbn [orb]. unfold SUSPICIOUS_SUFFIXES. cbn [existsb].
    destruct (endswith (lower col) "_id") eqn:E1.
    { pose proof (endswith_contains (lower col) "_id" "_id" eq_refl E1) as H.
      unfold SUSPICIOUS_CONTAINS. cbn [existsb]. rewrite H.
      destruct (endswith (lower col) "_key"); reflexivity. }
    destruct (endswith (lower col) "_code") eqn:E2.
    { pose proof (endswith_contains (lower col) "_code" "code" eq_refl E2) as H.
      unfold SUSPICIOUS_CONTAINS. cbn [existsb]. rewrite H.
      rewrite !orb_true_r. destruct (endswith (lower col) "_key"); reflexivity. }
    destruct (endswith (lower col) "_type") eqn:E3.
    { pose proof (endswith_contains (lower col) "_type" "type" eq_refl E3) as H.
      unfold SUSPICIOUS_CONTAINS. cbn [existsb]. rewrite H.
      rewrite !orb_true_r. destruct (endswith (lower col) "_key"); reflexivity. }
    cbn [orb]. rewrite orb_false_r.
    destruct (endswith (lower col) "_key"); [reflexivity|].
    cbn [orb]. destruct (existsb _ SUSPICIOUS_CONTAINS); reflexivity.
  - unfold looks_suspicious. rewrite lower_idempotent. reflexivity.
Qed.

(** *** The columns to cast *)

Lemma suspicious_columns_elem (schemas : list Schema) (exclude : gset string) (x : string) :
  x ∈ suspicious_columns schemas exclude
  <-> (x ∉ exclude) /\ looks_suspicious x = true
      /\ exists sch f, In sch schemas /\ In f sch /\ field_name f = x.
Proof.
  unfold suspicious_columns.
  rewrite elem_of_list_to_set, list_elem_of_In, filter_In, in_map_iff,
    andb_true_iff, negb_true_iff, bool_decide_eq_false.
  split.
  - intros ((f & <- & Hf) & Hx & Hs). apply in_concat in Hf as (sch & Hsch & Hf).
    split; [exact Hx|]. split; [exact Hs|]. exists sch, f. auto.
  - intros (Hx & Hs & sch & f & Hsch & Hf & <-).
    split; [|auto]. exists f. split; [reflexivity|].
    apply in_concat. exists sch. auto.
Qed.

(** X18: a column is in the set to cast exactly when it is not
    excluded and it drifts in the sample (more than one type signature),
    or is forced, or, with [--include_all_suspicious], has a suspicious
    name and occurs in a sampled schema; so exclusion wins over forcing. *)
Theorem cast_columns_elem (args : arguments) (schemas : list Schema) (x : string) :
  x ∈ cast_columns args schemas
  <-> (x ∉ parse_csv_set (exclude_cols args))
      /\ ((1 < size (signatures x schemas))%nat
          \/ x ∈ parse_csv_set (force_string_cols args)
          \/ (include_all_suspicious args = true /\ looks_suspicious x = true
              /\ exists sch f, In sch schemas /\ In f sch /\ field_name f = x)).
Proof.
  unfold cast_columns.
  set (exclude := parse_csv_set (exclude_cols args)).
  set (force := parse_csv_set (force_string_cols args)).
  assert (Hd : x ∈ dom (detect_drifty_columns schemas exclude)
               <-> (x ∉ exclude) /\ (1 < size (signatures x schemas))%nat).
  { rewrite elem_of_dom. unfold is_Some. split.
    - intros [T HT]. apply DriftFacts.detect_drifty_columns_lookup in HT as (H1 & -> & H2).
      auto.
    - intros [H1 H2]. exists (signatures x schemas).
      apply DriftFacts.detect_drifty_columns_lookup. auto. }
  destruct (include_all_suspicious args).
  - rewrite elem_of_difference, !elem_of_union, Hd, suspicious_columns_elem. tauto.
  - rewrite elem_of_difference, elem_of_union, Hd. split.
    + intros [[[_ H]|H] Hx]; auto.
    + intros [Hx [H|[H|[H _]]]]; [auto | auto | discriminate].
Qed.

(** *** Casting the selected columns *)

Section Cast.
Context {coldata : Type} (cast_string : DataType -> coldata -> outcome coldata).

(** A column [e] of a table and the column [e'] that the cast of the
    selected names puts in its place. *)
Definition cast_of (selected : string -> Prop) (e e' : field * coldata) : Prop :=
  (selected (field_name (fst e))
   /\ fst e' = mk_field (field_name (fst e)) dt_string
   /\ cast_string (field_type (fst e)) (snd e) = Returned (snd e'))
  \/ (~ selected (field_name (fst e)) /\ e' = e).

Lemma cast_of_name (selected : string -> Prop) (e e' : field * coldata) :
  cast_of selected e e' -> field_name (fst e') = field_name (fst e).
Proof. intros [(_ & -> & _)|[_ ->]]; reflexivity. Qed.

Lemma Forall2_cast_of_names (selected : string -> Prop) (t t' : Table) :
  Forall2 (cast_of selected) t t' -> column_names t' = column_names t.
Proof.
  induction 1 as [|e e' t t' H _ IH]; [reflexivity|].
  unfold column_names, table_schema in *. cbn [map]. rewrite IH.
  rewrite (cast_of_name _ _ _ H). reflexivity.
Qed.

Definition occurrences (col : string) (t : Table (coldata:=coldata)) : nat :=
  List.length (List.filter (String.eqb col) (column_names t)).

Lemma occurrences_cons (col : string) (e : field * coldata) (t : Table) :
  occurrences col (e :: t)
  = ((if String.eqb col (field_name (fst e)) then 1 else 0) + occurrences col t)%nat.
Proof.
  unfold occurrences, column_names, table_schema. cbn [map List.filter].
  destruct (String.eqb col (field_name (fst e))); reflexivity.
Qed.

Lemma occurrences_0 (col : string) (t : Table) :
  occurrences col t = 0%nat ->
  Forall (fun e : field * coldata => field_name (fst e) <> col) t.
Proof.
  induction t as [|e t IH]; [constructor|].
  rewrite occurrences_cons. destruct (String.eqb_spec col (field_name (fst e))) as [E|E];
    [discriminate|].
  intros H. constructor; [congruence | apply IH; exact H].
Qed.

Lemma Forall2_same {A : Type} (P : A -> A -> Prop) (l : list A) :
  Forall (fun x => P x x) l -> Forall2 P l l.
Proof. induction 1; constructor; assumption. Qed.

Lemma set_column_string_cast (col : string) (t t' : Table) :
  occurrences col t = 1%nat ->
  set_column_string cast_string col t = Returned t' ->
  Forall2 (cast_of (fun x => x = col)) t t'.
Proof.
  revert t'. induction t as [|[f d] t IH]; intros t' Hn; [discriminate Hn|].
  rewrite occurrences_cons in Hn. cbn [fst] in Hn. cbn [set_column_string].
  rewrite String.eqb_sym in Hn.
  destruct (String.eqb_spec (field_name f) col) as [E|E].
  - destruct (cast_string (field_type f) d) as [d'|e] eqn:Ec; [|discriminate].
    intros [= <-]. constructor.
    + left. cbn [fst snd]. rewrite <- E. auto.
    + apply Forall2_same. assert (H0 : occurrences col t = 0%nat) by lia.
      apply occurrences_0 in H0. eapply List.Forall_impl; [|exact H0].
      intros e He. right. auto.
  - destruct (set_column_string cast_string col t) as [r'|e] eqn:Er; [|discriminate].
    intros [= <-]. constructor; [right; auto|]. apply IH; [exact Hn | reflexivity].
Qed.

Lemma Forall2_compose {A : Type} (P Q R : A -> A -> Prop) (a b c : list A) :
  (forall x y z, P x y -> Q y z -> R x z) ->
  Forall2 P a b -> Forall2 Q b c -> Forall2 R a c.
Proof.
  intros H Hab. revert c. induction Hab as [|x y a b Hxy _ IH]; intros c Hbc.
  - inversion Hbc. constructor.
  - inversion Hbc as [|y' z b' c' Hyz Hbc']; subst. constructor; [eauto | apply IH; exact Hbc'].
Qed.

Lemma cast_list_columns (l : list string) (t t' : Table) :
  List.NoDup l ->
  foldr (cast_one cast_string) (Returned t) l = Returned t' ->
  Forall2 (cast_of (fun x => In x l)) t t'.
Proof.
  revert t'. induction l as [|c l IH]; intros t' Hnd.
  - cbn [foldr]. intros [= <-]. apply Forall2_same.
    apply List.Forall_forall. intros e _. right. split; [intros []|reflexivity].
  - apply List.NoDup_cons_iff in Hnd as [Hc Hnd]. cbn [foldr].
    destruct (foldr (cast_one cast_string) (Returned t) l) as [t1|e] eqn:E; [|discriminate].
    specialize (IH t1 Hnd eq_refl). cbn [cast_one].
    fold (occurrences c t1).
    destruct (Nat.eqb_spec (occurrences c t1) 0) as [H0|H0].
    + intros [= <-]. apply occurrences_0 in H0.
      apply (Forall2_compose (cast_of (fun x => In x l))
               (fun e1 e' => e' = e1 /\ field_name (fst e1) <> c) _ t t1 t1); [|exact IH|].
      * intros e e1 e' H [-> Hne].
        pose proof (cast_of_name _ _ _ H) as Hname.
        destruct H as [(Hin & H1 & H2)|[Hin ->]].
        -- left. split; [right; exact Hin | auto].
        -- right. split; [|reflexivity]. intros [Hc'|Hl]; [apply Hne; symmetry; exact Hc' | auto].
      * apply Forall2_same. eapply List.Forall_impl; [|exact H0]. intros e He. auto.
    + destruct (Nat.eqb_spec (occurrences c t1) 1) as [H1|H1]; [|discriminate].
      intros Hs. pose proof (set_column_string_cast c t1 t' H1 Hs) as Hset.
      apply (Forall2_compose (cast_of (fun x => In x l)) (cast_of (fun x => x = c)) _
               t t1 t'); [|exact IH|exact Hset].
      intros e e1 e' H Hs'.
      pose proof (cast_of_name _ _ _ H) as Hname.
      destruct Hs' as [(Hn & Hf & Hcast)|[Hn ->]].
      * destruct H as [(Hin & _)|[Hin ->]].
        -- exfalso. apply Hc. rewrite <- Hn, Hname. exact Hin.
        -- left. split; [left; symmetry; exact Hn|]. auto.
      * destruct H as [(Hin & H2 & H3)|[Hin ->]].
        -- left. split; [right; exact Hin | auto].
        -- right. split; [|reflexivity].
           intros [Hc'|Hl]; [apply Hn; symmetry; exact Hc' | auto].
Qed.

(** X19: when [cast_selected_to_string] returns, the table has the same
    column names in the same order; a column whose name is selected has
    type string and the cells the cast gave for it, and every other
    column is as it was. *)
Theorem cast_selected_to_string_columns (t t' : Table) (cols : gset string) :
  cast_selected_to_string cast_string t cols = Returned t' ->
  column_names t' = column_names t
  /\ Forall2 (fun e e' : field * coldata =>
                (field_name (fst e) ∈ cols
                 /\ fst e' = mk_field (field_name (fst e)) dt_string
                 /\ cast_string (field_type (fst e)) (snd e) = Returned (snd e'))
                \/ ((field_name (fst e) ∉ cols) /\ e' = e)) t t'.
Proof.
  unfold cast_selected_to_string. intros H.
  assert (Hnd : List.NoDup (elements cols)).
  { apply NoDup_ListNoDup. apply NoDup_elements. }
  pose proof (cast_list_columns _ t t' Hnd H) as HF.
  split; [eapply Forall2_cast_of_names; exact HF|].
  eapply Forall2_impl; [exact HF|].
  intros e e' [(Hin & H1)|[Hin H1]].
  - left. split; [|exact H1]. apply elem_of_elements, list_elem_of_In. exact Hin.
  - right. split; [|exact H1]. intros Hc. apply Hin.
    apply list_elem_of_In, elem_of_elements. exact Hc.
Qed.


Lemma occurrences_absent (col : string) (t : Table) :
  ~ In col (column_names t) -> occurrences col t = 0%nat.
Proof.
  unfold occurrences. intros H.
  rewrite (CoverageFacts.filter_none (String.eqb col) (column_names t)); [reflexivity|].
  intros x Hx. apply String.eqb_neq. intros <-. apply H. exact Hx.
Qed.

Lemma cast_list_absent (l : list string) (t : Table) :
  (forall c, In c l -> ~ In c (column_names t)) ->
  foldr (cast_one cast_string) (Returned t) l = Returned t.
Proof.
  induction l as [|c l IH]; intros H; [reflexivity|].
  cbn [foldr]. rewrite IH by (intros x Hx; apply H; right; exact Hx).
  cbn [cast_one]. fold (occurrences c t).
  rewrite (occurrences_absent c t (H c (or_introl eq_refl))). reflexivity.
Qed.

Lemma cast_list_ambiguous (l : list string) (t : Table) (c : string) :
  List.NoDup l -> In c l -> (2 <= occurrences c t)%nat ->
  exists e, foldr (cast_one cast_string) (Returned t) l = Raised e.
Proof.
  induction l as [|x l IH]; intros Hnd Hc Hn; [destruct Hc|].
  apply List.NoDup_cons_iff in Hnd as [Hx Hnd]. cbn [foldr].
  destruct (foldr (cast_one cast_string) (Returned t) l) as [t1|e] eqn:E;
    [|exists e; reflexivity].
  destruct Hc as [->|Hc].
  - pose proof (Forall2_cast_of_names _ _ _ (cast_list_columns l t t1 Hnd E)) as Hnames.
    cbn [cast_one]. fold (occurrences c t1).
    assert (Ho : occurrences c t1 = occurrences c t)
      by (unfold occurrences; rewrite Hnames; reflexivity).
    rewrite Ho.
    destruct (Nat.eqb_spec (occurrences c t) 0) as [H0|_]; [lia|].
    destruct (Nat.eqb_spec (occurrences c t) 1) as [H1|_]; [lia|].
    eexists; reflexivity.
  - destruct (IH Hnd Hc Hn) as [e He]. discriminate He.
Qed.

(** X20: when no selected column is in the table (so also for an empty
    selection) the table is returned as it is; when a selected name
    occurs twice or more in the table, the call raises. *)
Theorem cast_selected_to_string_edges (t : Table) (cols : gset string) :
  ((forall c, c ∈ cols -> ~ In c (column_names t)) ->
   cast_selected_to_string cast_string t cols = Returned t)
  /\ (forall c, c ∈ cols ->
        (2 <= List.length (List.filter (String.eqb c) (column_names t)))%nat ->
        exists e, cast_selected_to_string cast_string t cols = Raised e).
Proof.
  unfold cast_selected_to_string. split.
  - intros H. apply cast_list_absent. intros c Hc. apply H.
    apply elem_of_elements, list_elem_of_In. exact Hc.
  - intros c Hc Hn. apply (cast_list_ambiguous _ t c).
    + apply NoDup_ListNoDup. apply NoDup_elements.
    + apply list_elem_of_In, elem_of_elements. exact Hc.
    + exact Hn.
Qed.

End Cast.



(** *** The sleeps of [with_retries] *)

Lemma backoff_cap (random : nat -> Q) (a : nat) (cap : Q) :
  (0 <= random a <= 1)%Q ->
  Qle_bool ((13 # 10) * Qmin 60 (2 * inject_Z (2 ^ Z.of_nat (a - 1)))) cap = true ->
  (0 <= backoff 2 60 a (random a) <= cap)%Q.
Proof.
  intros Hr Hc. apply Qle_bool_imp_le in Hc.
  pose proof (RetryFacts.backoff_bounds 2 60 (random a) a ltac:(lra) ltac:(lra) Hr) as [Hlo Hhi].
  cbv zeta in Hlo, Hhi.
  assert (Hm : (0 <= Qmin 60 (2 * inject_Z (2 ^ Z.of_nat (a - 1))))%Q).
  { apply Q.min_glb; [lra|].
    apply Qmult_le_0_compat; [lra|].
    change 0%Q with (inject_Z 0). rewrite <- Zle_Qle. apply Z.pow_nonneg. lia. }
  split; [nra | lra].
Qed.

(** X21: with draws between 0 and 1, one call of [with_retries] sleeps
    at most seven times, at most 78 seconds each time and at most 236.6
    seconds in all. *)
Theorem with_retries_total_sleep {St A : Type} (fn : St -> outcome A * St)
    (random : nat -> Q) (s : St) :
  (forall a, (0 <= random a <= 1)%Q) ->
  let w := fst (with_retries fn random s) in
  (List.length (slept w) <= 7)%nat
  /\ Forall (fun d => (0 <= d <= 78)%Q) (slept w)
  /\ (fold_right Qplus 0 (slept w) <= 1183 # 5)%Q.
Proof.
  intros Hr. cbv zeta. unfold with_retries.
  pose proof (RetryFacts.with_retries_loop_slept fn random 8 2 60 8 1 s) as Hs.
  pose proof (RetryFacts.with_retries_loop_sleep_count fn random 8 2 60 8 1 s
                eq_refl ltac:(lia)) as Hc.
  pose proof (RetryFacts.with_retries_loop_calls fn random 8 2 60 8 1 s) as Hn.
  cbv zeta in Hs, Hc.
  set (w := fst (with_retries_loop fn random 8 2 60 8 1 s)) in *.
  assert (Hlen : (List.length (slept w) <= 7)%nat) by lia.
  split; [exact Hlen|].
  pose proof (backoff_cap random 1 (13 # 5) (Hr _) eq_refl) as B1.
  pose proof (backoff_cap random 2 (26 # 5) (Hr _) eq_refl) as B2.
  pose proof (backoff_cap random 3 (52 # 5) (Hr _) eq_refl) as B3.
  pose proof (backoff_cap random 4 (104 # 5) (Hr _) eq_refl) as B4.
  pose proof (backoff_cap random 5 (208 # 5) (Hr _) eq_refl) as B5.
  pose proof (backoff_cap random 6 78 (Hr _) eq_refl) as B6.
  pose proof (backoff_cap random 7 78 (Hr _) eq_refl) as B7.
  rewrite Hs.
  destruct (List.length (slept w)) as [|[|[|[|[|[|[|[|n]]]]]]]]; [..|lia];
    cbn [seq map fold_right]; (split; [repeat constructor; lra | lra]).
Qed.

(** *** The rewrite pass as a whole *)

Section Pass.
Context {coldata : Type} (cast_string : DataType -> coldata -> outcome coldata).
Context (glob : string -> list string) (faults : nat -> fault) (random : nat -> Q).

Definition accounted (sm : summary) : Z :=
  written sm + skipped sm + Z.of_nat (List.length (failed sm)).

(** What the progress test adds to the failures of a written file. *)
Definition progress_failure (args : arguments) (src : string) : list (string * string) :=
  if (log_every args =? 0)%Z then [(src, "integer modulo by zero")] else [].

Lemma progress_failure_all (args : arguments) (l : list string) :
  concat (map (progress_failure args) l)
  = if (log_every args =? 0)%Z
    then map (fun src => (src, "integer modulo by zero")) l
    else [].
Proof.
  unfold progress_failure. destruct (log_every args =? 0)%Z;
    induction l as [|x l IH]; cbn [map concat app]; [reflexivity | f_equal; exact IH
                                                    | reflexivity | exact IH].
Qed.

Lemma rewrite_one_counts (args : arguments) (sp dp : string) (cols : gset string)
    (src : string) (sm : summary) (fs : gcsfs (coldata:=coldata)) :
  let sm' := fst (rewrite_one cast_string faults random args sp dp cols src (sm, fs)) in
  accounted sm' - (if (log_every args =? 0)%Z then written sm' else 0)
  = accounted sm - (if (log_every args =? 0)%Z then written sm else 0) + 1
  /\ written sm <= written sm' <= written sm + 1 /\ skipped sm <= skipped sm'
  /\ (resume args = false -> skipped sm' = skipped sm)
  /\ (failed sm' = failed sm
      \/ exists msg, failed sm' = (failed sm ++ [(src, msg)])%list).
Proof.
  cbv zeta. unfold rewrite_one, accounted.
  assert (Hp : forall fs1,
             let r := with_retries
                        (process_one cast_string faults src (destination args sp dp src) cols)
                        random fs1 in
             let sm' := fst (let (r0, fs') := r in
                             match final r0 with
                             | Returned _ =>
                                 match progress_test args with
                                 | Returned _ =>
                                     (mk_summary (written sm + 1) (skipped sm) (failed sm),
                                      fs')
                                 | Raised e =>
                                     (mk_summary (written sm + 1) (skipped sm)
                                        (failed sm ++ [(src, exc_str e)])%list, fs')
                                 end
                             | Raised e =>
                                 (mk_summary (written sm) (skipped sm)
                                    (failed sm ++ [(src, exc_str e)])%list, fs')
                             end) in
             written sm' + skipped sm' + Z.of_nat (List.length (failed sm'))
             - (if (log_every args =? 0)%Z then written sm' else 0)
             = written sm + skipped sm + Z.of_nat (List.length (failed sm))
               - (if (log_every args =? 0)%Z then written sm else 0) + 1
             /\ written sm <= written sm' <= written sm + 1 /\ skipped sm <= skipped sm'
             /\ skipped sm' = skipped sm
             /\ (failed sm' = failed sm
                 \/ exists msg, failed sm' = (failed sm ++ [(src, msg)])%list)).
  { intros fs1. cbv zeta.
    destruct (with_retries _ random fs1) as [r0 fs'].
    destruct (final r0) as [v|e]; [unfold progress_test|];
      destruct (log_every args =? 0)%Z; cbn [fst written skipped failed];
      rewrite ?length_app; cbn [List.length];
      (split; [lia|]); (split; [lia|]); (split; [lia|]); (split; [lia|]);
      try (left; reflexivity); right; eexists; reflexivity. }
  destruct (resume args).
  - destruct (fs_exists faults (destination args sp dp src) fs) as [[[|]|e] fs1].
    + cbn [fst written skipped failed].
      destruct (log_every args =? 0)%Z;
        repeat split; try lia; try discriminate; left; reflexivity.
    + destruct (Hp fs1) as (H1 & H2 & H3 & H4 & H5). repeat split; try assumption;
        try apply H2. discriminate.
    + cbn [fst written skipped failed]. rewrite length_app. cbn [List.length].
      destruct (log_every args =? 0)%Z;
        repeat split; try lia; try discriminate; right; eexists; reflexivity.
  - destruct (Hp fs) as (H1 & H2 & H3 & H4 & H5). repeat split; try assumption;
      try apply H2.
    intros _. exact H4.
Qed.

Lemma rewrite_files_counts (args : arguments) (sp dp : string) (cols : gset string)
    (files : list string) (sm : summary) (fs : gcsfs (coldata:=coldata)) :
  let sm' := fst (foldl (fun acc src_path =>
                           rewrite_one cast_string faults random args sp dp cols src_path acc)
                        (sm, fs) files) in
  accounted sm' - (if (log_every args =? 0)%Z then written sm' else 0)
  = accounted sm - (if (log_every args =? 0)%Z then written sm else 0)
    + Z.of_nat (List.length files)
  /\ written sm <= written sm' <= written sm + Z.of_nat (List.length files)
  /\ skipped sm <= skipped sm'
  /\ (resume args = false -> skipped sm' = skipped sm)
  /\ exists extra, failed sm' = (failed sm ++ extra)%list /\ incl (map fst extra) files.
Proof.
  cbv zeta. revert sm fs. induction files as [|src files IH]; intros sm fs.
  - cbn [foldl fst List.length]. repeat split; try lia.
    exists []. rewrite app_nil_r. split; [reflexivity | intros x []].
  - cbn [foldl].
    pose proof (rewrite_one_counts args sp dp cols src sm fs) as H1. cbv zeta in H1.
    destruct (rewrite_one cast_string faults random args sp dp cols src (sm, fs))
      as [sm1 fs1].
    cbn [fst] in H1. destruct H1 as (A1 & A2 & A3 & A4 & A5).
    destruct (IH sm1 fs1) as (B1 & B2 & B3 & B4 & extra & B5 & B6).
    cbn [List.length]. rewrite Nat2Z.inj_succ.
    split; [lia|]. split; [lia|]. split; [lia|].
    split; [intros Hr; rewrite (B4 Hr), (A4 Hr); reflexivity|].
    destruct A5 as [E|[msg E]]; rewrite E in B5.
    + exists extra. split; [exact B5|]. intros x Hx. right. apply B6. exact Hx.
    + exists ((src, msg) :: extra). rewrite <- app_assoc in B5. split; [exact B5|].
      intros x [<-|Hx]; [left; reflexivity | right; apply B6; exact Hx].
Qed.

(** X22: when the script reaches its summary and [--log_every] is not
    zero, written, skipped and failed add up to the number of listed
    files; with [--log_every 0] the progress test raises for every file
    written, which is then counted as written and recorded as failed, so
    that the three add up to the number of files plus the number written.
    In both cases none of the counts is negative, at most every file is
    written, nothing is skipped without [--resume], and every failure
    recorded is one of a listed file. *)
Theorem rewrite_accounts_for_every_file (args : arguments)
    (fs fs2 : gcsfs (coldata:=coldata)) (rep : run_report) :
  main cast_string glob faults random args fs = Some (rep, fs2) ->
  let files := list_parquet_paths glob (bucket args)
                 (ensure_trailing_slash (src_prefix args)) in
  written (totals rep) + skipped (totals rep)
  + Z.of_nat (List.length (failed (totals rep)))
  = Z.of_nat (List.length files)
    + (if (log_every args =? 0)%Z then written (totals rep) else 0)
  /\ 0 <= written (totals rep) <= Z.of_nat (List.length files)
  /\ 0 <= skipped (totals rep)
  /\ (resume args = false -> skipped (totals rep) = 0)
  /\ incl (map fst (failed (totals rep))) files.
Proof.
  intros Hm. cbv zeta.
  destruct (DriftFacts.main_report cast_string glob faults random args fs fs2 rep Hm)
    as (_ & _ & _ & _ & _ & Ht & _).
  cbv zeta in Ht. rewrite Ht. unfold rewrite_files.
  match goal with
  | |- context [foldl ?f (?sm, ?s) ?l] =>
      destruct (rewrite_files_counts args
                  (ensure_trailing_slash (src_prefix args))
                  (ensure_trailing_slash (dst_prefix args))
                  (columns_cast rep) l sm s)
        as (B1 & B2 & B3 & B4 & extra & B5 & B6)
  end.
  unfold accounted in B1. cbn [written skipped failed List.length] in *.
  split; [destruct (log_every args =? 0)%Z; lia|]. split; [lia|]. split; [lia|].
  split; [exact B4|]. rewrite B5. exact B6.
Qed.

(** *** What the pass writes *)

Lemma read_schemas_objects (paths : list string) (fs : gcsfs (coldata:=coldata)) :
  objects (snd (read_schemas faults random paths fs)) = objects fs.
Proof.
  revert fs. induction paths as [|p r IH]; intros fs; [reflexivity|].
  cbn [read_schemas].
  assert (H1 : objects (snd (read_schema faults random p fs)) = objects fs).
  { unfold read_schema, with_retries.
    pose proof (DriftFacts.with_retries_loop_inv (_read faults p) random 8 2 60
                  (fun s => objects s = objects fs)) as H.
    assert (Hfn : forall s, objects s = objects fs ->
                            objects (snd (_read faults p s)) = objects fs).
    { intros s Hs. unfold _read, open_parquet.
      destruct (faults (operations s)); [|exact Hs..].
      destruct (objects s !! p) as [[t|]|]; exact Hs. }
    specialize (H Hfn 8%nat 1%nat fs eq_refl).
    destruct (with_retries_loop _ _ _ _ _ 8 1 fs) as [r0 s2]. exact H. }
  destruct (read_schema faults random p fs) as [o fs1]. cbn [snd] in H1.
  specialize (IH fs1).
  destruct (read_schemas faults random r fs1) as [schs fs2]. cbn [snd] in IH.
  destruct o as [[sch|]|e]; cbn [snd]; congruence.
Qed.

Lemma process_one_other (src dst q : string) (cols : gset string)
    (fs : gcsfs (coldata:=coldata)) :
  dst <> q ->
  objects (snd (process_one cast_string faults src dst cols fs)) !! q = objects fs !! q.
Proof.
  intros Hq. unfold process_one, open_parquet.
  assert (Hw : forall t2 fs1,
             objects fs1 = objects fs ->
             objects (snd (write_table faults dst t2 fs1)) !! q = objects fs !! q).
  { intros t2 fs1 H1. unfold write_table.
    destruct (faults (operations fs1)); cbn [snd store record objects];
      rewrite ?lookup_insert_ne by exact Hq; rewrite H1; reflexivity. }
  destruct (faults (operations fs)); [|reflexivity..].
  destruct (objects fs !! src) as [[t|]|]; try reflexivity.
  destruct (cast_selected_to_string cast_string t cols) as [t2|e]; [|reflexivity].
  apply Hw. reflexivity.
Qed.

Lemma rewrite_one_other (args : arguments) (sp dp : string) (cols : gset string)
    (src q : string) (sm : summary) (fs : gcsfs (coldata:=coldata)) :
  destination args sp dp src <> q ->
  objects (snd (rewrite_one cast_string faults random args sp dp cols src (sm, fs))) !! q
  = objects fs !! q.
Proof.
  intros Hq. unfold rewrite_one.
  assert (Hp : forall fs1,
             objects fs1 !! q = objects fs !! q ->
             objects (snd (let (r0, fs') :=
                             with_retries
                               (process_one cast_string faults src
                                  (destination args sp dp src) cols) random fs1 in
                           match final r0 with
                           | Returned _ =>
                               match progress_test args with
                               | Returned _ =>
                                   (mk_summary (written sm + 1) (skipped sm) (failed sm),
                                    fs')
                               | Raised e =>
                                   (mk_summary (written sm + 1) (skipped sm)
                                      (failed sm ++ [(src, exc_str e)])%list, fs')
                               end
                           | Raised e =>
                               (mk_summary (written sm) (skipped sm)
                                  (failed sm ++ [(src, exc_str e)])%list, fs')
                           end)) !! q = objects fs !! q).
  { intros fs1 H1. unfold with_retries.
    pose proof (DriftFacts.with_retries_loop_inv
                  (process_one cast_string faults src (destination args sp dp src) cols)
                  random 8 2 60 (fun s => objects s !! q = objects fs !! q)) as H.
    assert (Hfn : forall s, objects s !! q = objects fs !! q ->
                objects (snd (process_one cast_string faults src
                                (destination args sp dp src) cols s)) !! q
                = objects fs !! q)
      by (intros s Hs; rewrite process_one_other by exact Hq; exact Hs).
    specialize (H Hfn 8%nat 1%nat fs1 H1).
    destruct (with_retries_loop _ _ _ _ _ 8 1 fs1) as [r0 s2]. cbn [snd] in H.
    destruct (final r0); [destruct (progress_test args)|]; exact H. }
  destruct (resume args); [|apply Hp; reflexivity].
  unfold fs_exists.
  destruct (faults (operations fs)); [|reflexivity..].
  destruct (bool_decide _); [reflexivity|]. apply Hp. reflexivity.
Qed.

Lemma rewrite_files_other (args : arguments) (sp dp : string) (cols : gset string)
    (files : list string) (q : string) (sm : summary) (fs : gcsfs (coldata:=coldata)) :
  (forall src, In src files -> destination args sp dp src <> q) ->
  objects (snd (foldl (fun acc src_path =>
                         rewrite_one cast_string faults random args sp dp cols src_path acc)
                      (sm, fs) files)) !! q
  = objects fs !! q.
Proof.
  revert sm fs. induction files as [|src files IH]; intros sm fs H; [reflexivity|].
  cbn [foldl].
  pose proof (rewrite_one_other args sp dp cols src q sm fs (H src (or_introl eq_refl))) as H1.
  destruct (rewrite_one cast_string faults random args sp dp cols src (sm, fs)) as [sm1 fs1].
  cbn [snd] in H1. rewrite IH by (intros x Hx; apply H; right; exact Hx). exact H1.
Qed.

(** X23: an object whose path is not the destination of a listed file
    is the same after the pass as before, with or without [--resume] and
    whatever fails; so the sources are left alone when no destination is
    a source. *)
Theorem rewrite_writes_only_destinations (args : arguments)
    (fs fs2 : gcsfs (coldata:=coldata)) (rep : run_report) (q : string) :
  main cast_string glob faults random args fs = Some (rep, fs2) ->
  (forall src,
      In src (list_parquet_paths glob (bucket args) (ensure_trailing_slash (src_prefix args))) ->
      destination args (ensure_trailing_slash (src_prefix args))
                  (ensure_trailing_slash (dst_prefix args)) src <> q) ->
  objects fs2 !! q = objects fs !! q.
Proof.
  intros Hm Hq.
  destruct (DriftFacts.main_report cast_string glob faults random args fs fs2 rep Hm)
    as (_ & _ & _ & _ & _ & _ & Hfs).
  cbv zeta in Hfs. rewrite Hfs. unfold rewrite_files.
  rewrite rewrite_files_other by exact Hq.
  rewrite read_schemas_objects. reflexivity.
Qed.


(** *** An empty sample *)

(** X24: with [--sample_size 0] no file is sampled and no schema read;
    and whenever no schema was read, no drift is reported and the
    columns cast are the forced ones that are not excluded, also with
    [--include_all_suspicious]. *)
Theorem empty_sample_casts_forced_columns (args : arguments)
    (fs fs2 : gcsfs (coldata:=coldata)) (rep : run_report) :
  main cast_string glob faults random args fs = Some (rep, fs2) ->
  (sample_size args = 0 -> sampled rep = [] /\ schemas_read rep = [])
  /\ (schemas_read rep = [] ->
      drifty_columns rep = ∅
      /\ columns_cast rep
         = parse_csv_set (force_string_cols args) ∖ parse_csv_set (exclude_cols args)).
Proof.
  intros Hm.
  destruct (DriftFacts.main_report cast_string glob faults random args fs fs2 rep Hm)
    as (_ & Hs & Hr & Hd & Hc & _).
  split.
  - intros H0.
    assert (E : sampled rep = []).
    { rewrite Hs. unfold sample_files. rewrite H0.
      rewrite Z.min_l by lia. reflexivity. }
    split; [exact E|]. rewrite Hr, E. reflexivity.
  - intros E. rewrite Hd, Hc, E. split.
    + unfold detect_drifty_columns, observe_all. cbn [foldl]. apply map_filter_empty.
    + unfold cast_columns, detect_drifty_columns, observe_all, suspicious_columns.
      cbn [foldl concat map List.filter]. rewrite map_filter_empty, dom_empty_L.
      destruct (include_all_suspicious args); set_solver.
Qed.

(** *** A pass without faults *)

Section Healthy.
Hypothesis no_fault : forall n, faults n = Works.

Lemma with_retries_returns {St A : Type} (fn : St -> outcome A * St) (s s1 : St) (v : A) :
  fn s = (Returned v, s1) ->
  with_retries fn random s = (mk_log (Returned (Some v)) [Returned v] [], s1).
Proof. intros H. unfold with_retries. cbn [with_retries_loop]. rewrite H. reflexivity. Qed.

Lemma process_one_works (src dst : string) (cols : gset string)
    (fs : gcsfs (coldata:=coldata)) (t t2 : Table) :
  objects fs !! src = Some (Parquet t) ->
  cast_selected_to_string cast_string t cols = Returned t2 ->
  process_one cast_string faults src dst cols fs
  = (Returned tt,
     store dst (Parquet t2) (record (EvWriteTable dst) (record (EvReadTable src) fs))).
Proof.
  intros Hsrc Hcast. unfold process_one, open_parquet.
  rewrite no_fault, Hsrc, Hcast. unfold write_table. rewrite no_fault. reflexivity.
Qed.

Lemma rewrite_one_works (args : arguments) (sp dp : string) (cols : gset string)
    (src : string) (sm : summary) (fs : gcsfs (coldata:=coldata)) (t t2 : Table) :
  resume args = false ->
  objects fs !! src = Some (Parquet t) ->
  cast_selected_to_string cast_string t cols = Returned t2 ->
  rewrite_one cast_string faults random args sp dp cols src (sm, fs)
  = (mk_summary (written sm + 1) (skipped sm)
                (failed sm ++ progress_failure args src)%list,
     store (destination args sp dp src) (Parquet t2)
           (record (EvWriteTable (destination args sp dp src))
                   (record (EvReadTable src) fs))).
Proof.
  intros Hr Hsrc Hcast. unfold rewrite_one. rewrite Hr.
  rewrite (with_retries_returns _ fs _ tt (process_one_works src _ cols fs t t2 Hsrc Hcast)).
  unfold progress_test, progress_failure.
  destruct (log_every args =? 0)%Z; cbn [final]; [reflexivity|].
  rewrite app_nil_r. reflexivity.
Qed.

Lemma rewrite_one_skips (args : arguments) (sp dp : string) (cols : gset string)
    (src : string) (sm : summary) (fs : gcsfs (coldata:=coldata)) :
  resume args = true ->
  is_Some (objects fs !! destination args sp dp src) ->
  rewrite_one cast_string faults random args sp dp cols src (sm, fs)
  = (mk_summary (written sm) (skipped sm + 1) (failed sm),
     record (EvExists (destination args sp dp src)) fs).
Proof.
  intros Hr Hd. unfold rewrite_one, fs_exists. rewrite Hr, no_fault.
  rewrite bool_decide_eq_true_2 by exact Hd. reflexivity.
Qed.

Section Files.
Context (args : arguments) (sp dp : string) (cols : gset string).
Context (fs0 : gcsfs (coldata:=coldata)) (files : list string).

Local Notation "'dst_of'" := (destination args sp dp).
Local Notation "'pass'" :=
  (fun acc src_path => rewrite_one cast_string faults random args sp dp cols src_path acc).

Hypothesis not_resumed : resume args = false.
Hypothesis sources_cast :
  forall src, In src files ->
    exists t t2, objects fs0 !! src = Some (Parquet t)
                 /\ cast_selected_to_string cast_string t cols = Returned t2.
Hypothesis destinations_apart : forall a b, In a files -> In b files -> dst_of a <> b.
Hypothesis destinations_differ :
  forall a b, In a files -> In b files -> dst_of a = dst_of b -> a = b.

Lemma rewrite_files_healthy (l : list string) (sm : summary) (fs : gcsfs (coldata:=coldata)) :
  incl l files ->
  (forall src, In src files -> objects fs !! src = objects fs0 !! src) ->
  let r := foldl pass (sm, fs) l in
  fst r = mk_summary (written sm + Z.of_nat (List.length l)) (skipped sm)
                     (failed sm ++ concat (map (progress_failure args) l))%list
  /\ (forall src, In src files -> objects (snd r) !! src = objects fs0 !! src)
  /\ (forall src t t2, In src l ->
        objects fs0 !! src = Some (Parquet t) ->
        cast_selected_to_string cast_string t cols = Returned t2 ->
        objects (snd r) !! dst_of src = Some (Parquet t2)).
Proof.
  revert sm fs. induction l as [|src l IH]; intros sm fs Hl Hsrc; cbv zeta.
  - cbn [foldl fst snd List.length map concat]. rewrite app_nil_r.
    split; [destruct sm; cbn; f_equal; lia|].
    split; [exact Hsrc|]. intros ? ? ? [].
  - assert (Hin : In src files) by (apply Hl; left; reflexivity).
    assert (Hl' : incl l files) by (intros x Hx; apply Hl; right; exact Hx).
    destruct (sources_cast src Hin) as (t & t2 & Ht & Hc).
    cbn [foldl].
    rewrite (rewrite_one_works args sp dp cols src sm fs t t2 not_resumed)
      by (rewrite ?Hsrc; assumption).
    set (fs1 := store (dst_of src) (Parquet t2) _).
    assert (Hsrc1 : forall s', In s' files -> objects fs1 !! s' = objects fs0 !! s').
    { intros s' Hs'. unfold fs1. cbn [store record objects].
      rewrite lookup_insert_ne by (apply destinations_apart; assumption).
      apply Hsrc. exact Hs'. }
    destruct (IH (mk_summary (written sm + 1) (skipped sm)
                             (failed sm ++ progress_failure args src)%list) fs1 Hl' Hsrc1)
      as (I1 & I2 & I3).
    split; [rewrite I1; cbn [written skipped failed List.length map concat];
            rewrite <- app_assoc; f_equal; lia|].
    split; [exact I2|].
    intros s' t' t2' [<-|Hs'] Ht' Hc'; [|apply (I3 s' t' t2' Hs' Ht' Hc')].
    destruct (in_dec string_dec src l) as [Hagain|Hnot]; [apply (I3 src t' t2' Hagain Ht' Hc')|].
    rewrite (rewrite_files_other args sp dp cols l (dst_of src)).
    + unfold fs1. cbn [store record objects]. rewrite lookup_insert_eq. congruence.
    + intros x Hx E. apply Hnot.
      rewrite <- (destinations_differ x src (Hl' x Hx) Hin E). exact Hx.
Qed.

End Files.

(** X25: without faults and without [--resume], when every listed file
    holds a table whose cast succeeds, no destination is a listed file
    and two listed files have two destinations: every file is written
    and none skipped; no failure is recorded when [--log_every] is not
    zero, and with [--log_every 0] every file, although written, is
    recorded as failed with the message of the modulo by zero; every
    source is as it was and every destination holds the cast of its
    source. *)
Theorem rewrite_without_faults (args : arguments)
    (fs fs2 : gcsfs (coldata:=coldata)) (rep : run_report) :
  resume args = false ->
  main cast_string glob faults random args fs = Some (rep, fs2) ->
  let files := list_parquet_paths glob (bucket args)
                 (ensure_trailing_slash (src_prefix args)) in
  let dst_of := destination args (ensure_trailing_slash (src_prefix args))
                            (ensure_trailing_slash (dst_prefix args)) in
  (forall src, In src files ->
     exists t t2, objects fs !! src = Some (Parquet t)
                  /\ cast_selected_to_string cast_string t (columns_cast rep) = Returned t2) ->
  (forall a b, In a files -> In b files -> dst_of a <> b) ->
  (forall a b, In a files -> In b files -> dst_of a = dst_of b -> a = b) ->
  totals rep
  = mk_summary (Z.of_nat (List.length files)) 0
      (if (log_every args =? 0)%Z
       then map (fun src => (src, "integer modulo by zero")) files
       else [])
  /\ forall src t t2, In src files ->
       objects fs !! src = Some (Parquet t) ->
       cast_selected_to_string cast_string t (columns_cast rep) = Returned t2 ->
       objects fs2 !! src = Some (Parquet t)
       /\ objects fs2 !! dst_of src = Some (Parquet t2).
Proof.
  intros Hr Hm. cbv zeta. intros Hsrc Hapart Hdiff.
  destruct (DriftFacts.main_report cast_string glob faults random args fs fs2 rep Hm)
    as (_ & _ & _ & _ & _ & Ht & Hfs).
  cbv zeta in Ht, Hfs. unfold rewrite_files in Ht, Hfs.
  match type of Ht with
  | _ = fst (foldl _ (?sm, ?s) ?l) =>
      destruct (rewrite_files_healthy args _ _ (columns_cast rep) fs l Hr Hsrc Hapart Hdiff
                  l sm s (incl_refl _))
        as (I1 & I2 & I3);
        [intros src _; rewrite read_schemas_objects; reflexivity|]
  end.
  rewrite Ht, Hfs. split.
  - rewrite I1. cbn [written skipped failed app]. f_equal.
    apply progress_failure_all.
  - intros src t t2 Hin Hobj Hc. split; [rewrite I2 by exact Hin; exact Hobj|].
    apply (I3 src t t2 Hin Hobj Hc).
Qed.

Lemma rewrite_files_skips (args : arguments) (sp dp : string) (cols : gset string)
    (fs0 : gcsfs (coldata:=coldata)) (l : list string) (sm : summary)
    (fs : gcsfs (coldata:=coldata)) :
  resume args = true ->
  (forall src, In src l -> is_Some (objects fs0 !! destination args sp dp src)) ->
  objects fs = objects fs0 ->
  let r := foldl (fun acc src_path =>
                    rewrite_one cast_string faults random args sp dp cols src_path acc)
                 (sm, fs) l in
  fst r = mk_summary (written sm) (skipped sm + Z.of_nat (List.length l)) (failed sm)
  /\ objects (snd r) = objects fs0
  /\ trace (snd r)
     = (trace fs ++ map (fun src => EvExists (destination args sp dp src)) l)%list.
Proof.
  intros Hr. revert sm fs. induction l as [|src l IH]; intros sm fs Hd Ho; cbv zeta.
  - cbn [foldl fst snd List.length map]. rewrite app_nil_r.
    split; [destruct sm; cbn; f_equal; lia | auto].
  - cbn [foldl].
    rewrite (rewrite_one_skips args sp dp cols src sm fs Hr)
      by (rewrite Ho; apply Hd; left; reflexivity).
    destruct (IH (mk_summary (written sm) (skipped sm + 1) (failed sm))
                 (record (EvExists (destination args sp dp src)) fs)
                 (fun x Hx => Hd x (or_intror Hx)) Ho) as (I1 & I2 & I3).
    split; [rewrite I1; cbn [written skipped failed List.length]; f_equal; lia|].
    split; [exact I2|].
    rewrite I3. cbn [record trace map]. rewrite <- app_assoc. reflexivity.
Qed.

(** X26: without faults and with [--resume], when the destination of
    every listed file exists, all files are skipped, none written or
    failed, no object changes, and the second phase does nothing but one
    existence check a file, in order. *)
Theorem resumed_pass_skips_everything (args : arguments)
    (fs fs2 : gcsfs (coldata:=coldata)) (rep : run_report) :
  resume args = true ->
  main cast_string glob faults random args fs = Some (rep, fs2) ->
  let files := list_parquet_paths glob (bucket args)
                 (ensure_trailing_slash (src_prefix args)) in
  let dst_of := destination args (ensure_trailing_slash (src_prefix args))
                            (ensure_trailing_slash (dst_prefix args)) in
  (forall src, In src files -> is_Some (objects fs !! dst_of src)) ->
  totals rep = mk_summary 0 (Z.of_nat (List.length files)) []
  /\ objects fs2 = objects fs
  /\ trace fs2
     = (trace (snd (read_schemas faults random (sampled rep) fs))
        ++ map (fun src => EvExists (dst_of src)) files)%list.
Proof.
  intros Hr Hm. cbv zeta. intros Hd.
  destruct (DriftFacts.main_report cast_string glob faults random args fs fs2 rep Hm)
    as (_ & Hs & _ & _ & _ & Ht & Hfs).
  cbv zeta in Ht, Hfs. unfold rewrite_files in Ht, Hfs. rewrite <- Hs in Ht, Hfs.
  match type of Ht with
  | _ = fst (foldl _ (?sm, ?s) ?l) =>
      destruct (rewrite_files_skips args _ _ (columns_cast rep) fs l sm s Hr Hd)
        as (I1 & I2 & I3); [apply read_schemas_objects|]
  end.
  rewrite Ht, Hfs. split; [rewrite I1; reflexivity|]. split; [exact I2 | exact I3].
Qed.

End Healthy.

End Pass.

(** *** The examples *)

(** A prefix given with a leading slash and no trailing one. *)
Lemma ensure_trailing_slash_idempotent_witness :
  (forall c, In c (list_ascii_of_string "/exports/run") -> is_whitespace c = false)
  /\ ensure_trailing_slash (ensure_trailing_slash "/exports/run")
     = ensure_trailing_slash "/exports/run"
  /\ ensure_trailing_slash "/exports/run" = "exports/run/".
Proof.
  assert (H : forall c, In c (list_ascii_of_string "/exports/run") ->
                        is_whitespace c = false).
  { intros c Hc. cbn [list_ascii_of_string In] in Hc.
    repeat (destruct Hc as [<-|Hc]; [reflexivity|]). destruct Hc. }
  split; [exact H|].
  destruct (ensure_trailing_slash_idempotent "/exports/run" H) as [E _].
  split; [exact E | reflexivity].
Defined.

(** The first chunk of the example with its column [n] cast. *)
Lemma cast_selected_to_string_columns_witness :
  exists t',
    cast_selected_to_string DriftScenario.cast_cells DriftScenario.table1 {["n"]}
    = Returned t'
    /\ column_names t' = ["_id"; "n"]
    /\ table_schema t' = [mk_field "_id" dt_string; mk_field "n" dt_string].
Proof.
  assert (E : exists t',
             cast_selected_to_string DriftScenario.cast_cells DriftScenario.table1 {["n"]}
             = Returned t'
             /\ table_schema t' = [mk_field "_id" dt_string; mk_field "n" dt_string])
    by (vm_compute; eauto).
  destruct E as (t' & E & Hs). exists t'. split; [exact E|].
  destruct (cast_selected_to_string_columns DriftScenario.cast_cells DriftScenario.table1
              t' {["n"]} E) as [Hn _].
  split; [rewrite Hn; reflexivity | exact Hs].
Defined.

(** A call that times out every time, with every draw at one half. *)
Lemma with_retries_total_sleep_witness :
  (forall a, (0 <= DriftScenario.draws a <= 1)%Q)
  /\ (fold_right Qplus 0
        (slept (fst (with_retries
                       (scripted (fun _ => @Raised unit
                                    (mk_exception OSError "Read timed out.")))
                       DriftScenario.draws 1%nat)))
      <= 1183 # 5)%Q.
Proof.
  assert (H : forall a, (0 <= DriftScenario.draws a <= 1)%Q)
    by (intros a; unfold DriftScenario.draws; split; lra).
  split; [exact H|].
  apply (with_retries_total_sleep
           (scripted (fun _ => @Raised unit (mk_exception OSError "Read timed out.")))
           DriftScenario.draws 1%nat H).
Defined.

Lemma example_files (resume : bool) :
  list_parquet_paths DriftScenario.listing (bucket (DriftScenario.run_args resume))
    (ensure_trailing_slash (src_prefix (DriftScenario.run_args resume)))
  = [DriftScenario.part1; DriftScenario.part2].
Proof. vm_compute. reflexivity. Qed.

(** The example pass with [--resume]: one file skipped, one written.
    The example pass with [--log_every 0]: both files are written and
    both are recorded as failed. *)
Lemma rewrite_accounts_for_every_file_witness :
  exists rep fs2 rep0 fs0,
    DriftScenario.run true = Some (rep, fs2)
    /\ written (totals rep) + skipped (totals rep)
       + Z.of_nat (List.length (failed (totals rep))) = 2
    /\ totals rep = mk_summary 1 1 []
    /\ main DriftScenario.cast_cells DriftScenario.listing DriftScenario.no_fault
            DriftScenario.draws EdgeScenario.log_every_zero_args DriftScenario.bucket_before
       = Some (rep0, fs0)
    /\ written (totals rep0) + skipped (totals rep0)
       + Z.of_nat (List.length (failed (totals rep0))) = 2 + written (totals rep0)
    /\ totals rep0
       = mk_summary 2 0 [ (DriftScenario.part1, "integer modulo by zero");
                          (DriftScenario.part2, "integer modulo by zero") ].
Proof.
  assert (E : exists rep fs2,
             DriftScenario.run true = Some (rep, fs2) /\ totals rep = mk_summary 1 1 [])
    by (vm_compute; eauto).
  assert (E0 : exists rep0 fs0,
             main DriftScenario.cast_cells DriftScenario.listing DriftScenario.no_fault
                  DriftScenario.draws EdgeScenario.log_every_zero_args
                  DriftScenario.bucket_before
             = Some (rep0, fs0)
             /\ totals rep0
                = mk_summary 2 0 [ (DriftScenario.part1, "integer modulo by zero");
                                   (DriftScenario.part2, "integer modulo by zero") ])
    by (vm_compute; eauto).
  destruct E as (rep & fs2 & E & Ht). destruct E0 as (rep0 & fs0 & E0 & Ht0).
  exists rep, fs2, rep0, fs0. split; [exact E|].
  destruct (rewrite_accounts_for_every_file DriftScenario.cast_cells DriftScenario.listing
              DriftScenario.no_fault DriftScenario.draws (DriftScenario.run_args true)
              DriftScenario.bucket_before fs2 rep E) as (Hsum & _).
  destruct (rewrite_accounts_for_every_file DriftScenario.cast_cells DriftScenario.listing
              DriftScenario.no_fault DriftScenario.draws EdgeScenario.log_every_zero_args
              DriftScenario.bucket_before fs0 rep0 E0) as (Hsum0 & _).
  rewrite (example_files true) in Hsum.
  change (list_parquet_paths DriftScenario.listing (bucket EdgeScenario.log_every_zero_args)
            (ensure_trailing_slash (src_prefix EdgeScenario.log_every_zero_args)))
    with (list_parquet_paths DriftScenario.listing (bucket (DriftScenario.run_args false))
            (ensure_trailing_slash (src_prefix (DriftScenario.run_args false)))) in Hsum0.
  rewrite (example_files false) in Hsum0.
  split; [exact Hsum|]. split; [exact Ht|]. split; [exact E0|].
  split; [exact Hsum0 | exact Ht0].
Defined.

(** The example pass without [--resume] leaves the first source chunk
    as it was. *)
Lemma rewrite_writes_only_destinations_witness :
  exists rep fs2,
    DriftScenario.run false = Some (rep, fs2)
    /\ objects fs2 !! DriftScenario.part1 = Some (Parquet DriftScenario.table1).
Proof.
  assert (E : exists rep fs2, DriftScenario.run false = Some (rep, fs2))
    by (vm_compute; eauto).
  destruct E as (rep & fs2 & E). exists rep, fs2. split; [exact E|].
  rewrite (rewrite_writes_only_destinations DriftScenario.cast_cells DriftScenario.listing
             DriftScenario.no_fault DriftScenario.draws (DriftScenario.run_args false)
             DriftScenario.bucket_before fs2 rep DriftScenario.part1 E).
  - vm_compute. reflexivity.
  - intros src Hsrc. rewrite (example_files false) in Hsrc.
    destruct Hsrc as [<-|[<-|[]]]; vm_compute; discriminate.
Defined.

(** With a sample of no file, the forced column [n] is the only one
    cast, although [_id] has a suspicious name. *)
Lemma empty_sample_casts_forced_columns_witness :
  exists rep fs2,
    main DriftScenario.cast_cells DriftScenario.listing DriftScenario.no_fault
         DriftScenario.draws EdgeScenario.no_sample_args DriftScenario.bucket_before
    = Some (rep, fs2)
    /\ sampled rep = []
    /\ drifty_columns rep = ∅
    /\ columns_cast rep = parse_csv_set "n" ∖ parse_csv_set "".
Proof.
  assert (E : exists rep fs2,
             main DriftScenario.cast_cells DriftScenario.listing DriftScenario.no_fault
                  DriftScenario.draws EdgeScenario.no_sample_args DriftScenario.bucket_before
             = Some (rep, fs2))
    by (vm_compute; eauto).
  destruct E as (rep & fs2 & E). exists rep, fs2. split; [exact E|].
  destruct (empty_sample_casts_forced_columns DriftScenario.cast_cells DriftScenario.listing
              DriftScenario.no_fault DriftScenario.draws EdgeScenario.no_sample_args
              DriftScenario.bucket_before fs2 rep E) as [H0 Hempty].
  destruct (H0 eq_refl) as [Hs Hr]. destruct (Hempty Hr) as [Hd Hc].
  split; [exact Hs|]. split; [exact Hd | exact Hc].
Defined.

(** The example pass without [--resume] and without faults: both chunks
    are written, each destination holds the cast of its source. *)
Lemma rewrite_without_faults_witness :
  exists rep fs2 t2,
    (forall n, DriftScenario.no_fault n = Works)
    /\ resume (DriftScenario.run_args false) = false
    /\ DriftScenario.run false = Some (rep, fs2)
    /\ totals rep = mk_summary 2 0 []
    /\ cast_selected_to_string DriftScenario.cast_cells DriftScenario.table2
         (columns_cast rep) = Returned t2
    /\ objects fs2 !! DriftScenario.fixed2 = Some (Parquet t2).
Proof.
  assert (E : exists rep fs2,
             DriftScenario.run false = Some (rep, fs2)
             /\ (exists t1, cast_selected_to_string DriftScenario.cast_cells
                              DriftScenario.table1 (columns_cast rep) = Returned t1)
             /\ (exists t2, cast_selected_to_string DriftScenario.cast_cells
                              DriftScenario.table2 (columns_cast rep) = Returned t2))
    by (vm_compute; do 2 eexists; split; [reflexivity|];
        split; vm_compute; eexists; reflexivity).
  destruct E as (rep & fs2 & E & [t1 H1] & [t2 H2]).
  exists rep, fs2, t2.
  assert (Hw : forall n, DriftScenario.no_fault n = Works) by reflexivity.
  assert (Hr : resume (DriftScenario.run_args false) = false) by reflexivity.
  destruct (rewrite_without_faults DriftScenario.cast_cells DriftScenario.listing
              DriftScenario.no_fault DriftScenario.draws Hw (DriftScenario.run_args false)
              DriftScenario.bucket_before fs2 rep Hr E) as [Ht Hdst].
  - intros src Hsrc. rewrite (example_files false) in Hsrc.
    destruct Hsrc as [<-|[<-|[]]].
    + exists DriftScenario.table1, t1. split; [vm_compute; reflexivity | exact H1].
    + exists DriftScenario.table2, t2. split; [vm_compute; reflexivity | exact H2].
  - intros a b Ha Hb. rewrite (example_files false) in Ha, Hb.
    destruct Ha as [<-|[<-|[]]]; destruct Hb as [<-|[<-|[]]]; vm_compute; discriminate.
  - intros a b Ha Hb. rewrite (example_files false) in Ha, Hb.
    destruct Ha as [<-|[<-|[]]]; destruct Hb as [<-|[<-|[]]];
      try reflexivity; vm_compute; discriminate.
  - rewrite (example_files false) in Ht, Hdst.
    split; [exact Hw|]. split; [exact Hr|]. split; [exact E|]. split; [exact Ht|].
    split; [exact H2|].
    destruct (Hdst DriftScenario.part2 DriftScenario.table2 t2) as [_ Hd];
      [right; left; reflexivity | vm_compute; reflexivity | exact H2|].
    etransitivity; [|exact Hd]. f_equal.
Defined.

(** The example bucket once both copies exist, with [--resume]: both
    files are skipped and no object changes. *)
Lemma resumed_pass_skips_everything_witness :
  exists rep fs2,
    (forall n, DriftScenario.no_fault n = Works)
    /\ resume (DriftScenario.run_args true) = true
    /\ main DriftScenario.cast_cells DriftScenario.listing DriftScenario.no_fault
            DriftScenario.draws (DriftScenario.run_args true) EdgeScenario.bucket_done
       = Some (rep, fs2)
    /\ totals rep = mk_summary 0 2 []
    /\ objects fs2 = objects EdgeScenario.bucket_done.
Proof.
  assert (E : exists rep fs2,
             main DriftScenario.cast_cells DriftScenario.listing DriftScenario.no_fault
                  DriftScenario.draws (DriftScenario.run_args true) EdgeScenario.bucket_done
             = Some (rep, fs2))
    by (vm_compute; eauto).
  destruct E as (rep & fs2 & E). exists rep, fs2.
  assert (Hw : forall n, DriftScenario.no_fault n = Works) by reflexivity.
  assert (Hr : resume (DriftScenario.run_args true) = true) by reflexivity.
  destruct (resumed_pass_skips_everything DriftScenario.cast_cells DriftScenario.listing
              DriftScenario.no_fault DriftScenario.draws Hw (DriftScenario.run_args true)
              EdgeScenario.bucket_done fs2 rep Hr E) as (Ht & Ho & _).
  - intros src Hsrc. rewrite (example_files true) in Hsrc.
    destruct Hsrc as [<-|[<-|[]]]; vm_compute; eauto.
  - rewrite (example_files true) in Ht.
    split; [exact Hw|]. split; [exact Hr|]. split; [exact E|]. split; [exact Ht | exact Ho].
Defined.

End ScriptFacts.
